(** * Darwin-Goedel machine: archive, selection, novelty, diagnosis, apply

    A shallow embedding of the population archive
    ([archive/archive_manager.py], [archive/agent_archive.py]), the parent
    selection strategies ([archive/parent_selector.py]), the novelty
    engine ([archive/novelty_calculator.py]), the benchmark failure
    analysis ([self_modification/diagnosis.py],
    [self_modification/performance_diagnosis.py]), the generation of
    modification proposals ([self_modification/modification_proposal.py])
    and the transactional application of code changes
    ([self_modification/implementation.py]).

    Conventions of the embedding.
    - Python [float] values are embedded as exact rationals [Q]; every
      comparison the code performs is the rational comparison.
    - A Python [dict] is an association list in insertion order
      ([Py.dict]); the key set is duplicate free, which is the invariant
      [dict_wf].
    - A directory tree on disk is a finite map from path to file content
      ([gmap string string]); empty directories are not tracked.
    - Values the code obtains from the clock, from [uuid4] or from
      [sha256] are arguments of the embedded functions.
    - Numbers of records ([max_size], [k_nearest], [n_parents]) are
      natural numbers. *)

From Stdlib Require Import QArith Qabs Qminmax Lqa Lia.
From stdpp Require Import gmap strings list sorting.

Set Default Proof Using "Type".
Set Warnings "-register-all".

(** ** Python building blocks *)

Module Py.

(** [Dict[str, Any]] payloads that the archive stores but never inspects. *)
Inductive value :=
| VNone
| VBool (b : bool)
| VNum (q : Q)
| VStr (s : string)
| VList (l : list value)
| VDict (d : list (string * value)).

(** Truthiness of an [Optional[str]]: [None] and [''] are falsy. *)
Definition truthy (s : option string) : bool :=
  match s with
  | Some (String _ _) => true
  | _ => false
  end.

(** *** Ordered dictionaries keyed by strings *)
Abbreviation dict V := (list (string * V)).

Section Dict.
Context {V : Type}.
Implicit Types d : dict V.

Definition keys d : list string := fst <$> d.
Definition values d : list V := snd <$> d.

(** [d.get(k)] *)
Fixpoint dget (k : string) d : option V :=
  match d with
  | [] => None
  | (k', v) :: d' => if String.eqb k' k then Some v else dget k d'
  end.

(** [d[k] = v]: an existing key keeps its position, a new key is
    appended. *)
Fixpoint dset (k : string) (v : V) d : dict V :=
  match d with
  | [] => [(k, v)]
  | (k', v') :: d' =>
      if String.eqb k' k then (k, v) :: d' else (k', v') :: dset k v d'
  end.

(** [del d[k]] *)
Fixpoint ddel (k : string) d : dict V :=
  match d with
  | [] => []
  | (k', v') :: d' =>
      if String.eqb k' k then ddel k d' else (k', v') :: ddel k d'
  end.

Definition dict_wf d : Prop := NoDup (keys d).
End Dict.

(** *** [sorted]: the stable sort

    [insert_stable before x l] places [x], which stood before every
    element of [l] in the input, in front of the first [y] with
    [before x y]; [py_sorted] therefore keeps elements with equal keys
    in their input order, as [sorted] and [list.sort] do (also under
    [reverse=True]). *)
Section Sorted.
Context {A : Type} (before : A -> A -> bool).

Fixpoint insert_stable (x : A) (l : list A) : list A :=
  match l with
  | [] => [x]
  | y :: l' => if before x y then x :: y :: l' else y :: insert_stable x l'
  end.

Definition py_sorted (l : list A) : list A := foldr insert_stable [] l.
End Sorted.

(** [sorted(l, key=key, reverse=True)] on rational keys. *)
Definition sorted_desc {A : Type} (key : A -> Q) : list A -> list A :=
  py_sorted (fun x y => Qle_bool (key y) (key x)).

(** [sorted(l)] / [l.sort()] on rationals. *)
Definition sorted_asc : list Q -> list Q :=
  py_sorted (fun x y => Qle_bool x y).

(** [sum(l)] *)
Definition sum (l : list Q) : Q := foldl Qplus 0%Q l.

(** *** Strings *)

(** [s.startswith(p)] *)
Fixpoint startswith (p s : string) : bool :=
  match p, s with
  | EmptyString, _ => true
  | String a p', String b s' => if Ascii.eqb a b then startswith p' s' else false
  | String _ _, EmptyString => false
  end.

(** [p in s] for strings *)
Fixpoint contains (p s : string) : bool :=
  startswith p s ||
  match s with
  | EmptyString => false
  | String _ s' => contains p s'
  end.

(** [s.endswith(p)] *)
Definition endswith (p s : string) : bool :=
  (String.length p <=? String.length s)%nat &&
  String.eqb (String.substring (String.length s - String.length p) (String.length p) s) p.

(** [s.replace(old, new)] for a non-empty [old]: occurrences are
    replaced left to right and do not overlap.  [skip] counts the
    characters of a matched occurrence still to be dropped. *)
Fixpoint replace_from (old new : string) (skip : nat) (s : string) : string :=
  match s with
  | EmptyString => EmptyString
  | String c s' =>
      match skip with
      | S k => replace_from old new k s'
      | O =>
          if startswith old s
          then new +:+ replace_from old new (String.length old - 1) s'
          else String c (replace_from old new 0 s')
      end
  end.

Definition replace (old new s : string) : string := replace_from old new 0 s.

(** [c.lower()] on ASCII letters. *)
Definition lower_ascii (c : Ascii.ascii) : Ascii.ascii :=
  let n := Ascii.nat_of_ascii c in
  if ((65 <=? n) && (n <=? 90))%nat then Ascii.ascii_of_nat (n + 32) else c.

Fixpoint lower (s : string) : string :=
  match s with
  | EmptyString => EmptyString
  | String c s' => String (lower_ascii c) (lower s')
  end.

End Py.

(** ** [archive/archive_manager.py] *)

Module ArchiveManager.
Import Py.

Record ArchiveEntry := mkEntry {
  agent_id : string;
  agent_path : string;
  parent_id : option string;
  generation : Z;
  fitness_score : Q;
  novelty_score : Q;
  benchmark_results : list (string * value);
  modifications : list string;
  timestamp : string;
  metadata : list (string * value)
}.

(** The object state: [self.archive_dir], [self.max_size] (a number of
    records) and [self.entries]. *)
Record AgentArchive := mkArchive {
  archive_dir : string;
  max_size : nat;
  entries : dict ArchiveEntry
}.

(** The disk: the regular files by path, and for every archive
    directory that has an [index.json] the decoded content of that file
    (its ['entries'] list and ['last_updated']), by the name of the
    directory. *)
Record Disk := mkDisk {
  files : gmap string string;
  index_json : gmap string (list ArchiveEntry * string)
}.

(** The exceptions a call can end with.  No function of this module
    raises [ValidationError]; the constructor is there to state that. *)
Inductive error :=
| FileNotFoundError (path : string)
| ValidationError (msg : string).

Definition with_entries (a : AgentArchive) (d : dict ArchiveEntry) : AgentArchive :=
  {| archive_dir := archive_dir a; max_size := max_size a; entries := d |}.

(** [_load_archive], run by the constructor on an empty [entries]; it
    reads [archive_dir/index.json]. *)
Definition _load_archive (a : AgentArchive) (dk : Disk) : AgentArchive :=
  match index_json dk !! archive_dir a with
  | Some (l, _) =>
      with_entries a (foldl (fun d e => dset (agent_id e) e d) (entries a) l)
  | None => a
  end.

Definition init (dir : string) (m : nat) (dk : Disk) : AgentArchive :=
  _load_archive {| archive_dir := dir; max_size := m; entries := [] |} dk.

(** [_save_archive]; it writes [archive_dir/index.json]. *)
Definition _save_archive (a : AgentArchive) (now : string) (dk : Disk) : Disk :=
  {| files := files dk;
     index_json := <[archive_dir a := (values (entries a), now)]> (index_json dk) |}.

(** The sort key of eviction and of [get_top_agents]. *)
Definition combined (e : ArchiveEntry) : Q :=
  (fitness_score e + novelty_score e)%Q.

(** One iteration of the removal loop of [_enforce_size_limit]. *)
Definition remove_unless_kept (kept_ids : gset string)
    (st : dict ArchiveEntry * gmap string string) (k : string)
    : dict ArchiveEntry * gmap string string :=
  if bool_decide (k ∈ kept_ids) then st
  else
    match dget k st.1 with
    | Some e => (ddel k st.1, delete (agent_path e) st.2)
    | None => st
    end.

(** [_enforce_size_limit] *)
Definition _enforce_size_limit (a : AgentArchive) (fs : gmap string string)
    : AgentArchive * gmap string string :=
  if (length (entries a) <=? max_size a)%nat then (a, fs)
  else
    let sorted_entries := sorted_desc combined (values (entries a)) in
    let to_keep := take (max_size a) sorted_entries in
    let kept_ids : gset string := list_to_set (agent_id <$> to_keep) in
    let st := foldl (remove_unless_kept kept_ids) (entries a, fs) (keys (entries a)) in
    (with_entries a st.1, st.2).

Section AddAgent.
(** [hashlib.sha256(s.encode()).hexdigest()[:16]] *)
Variable sha256_hex16 : string -> string.

(** [_generate_agent_id]; [now] is [datetime.now().isoformat()]. *)
Definition _generate_agent_id (fs : gmap string string) (path now : string)
    : error + string :=
  match fs !! path with
  | Some content => inr (sha256_hex16 (content +:+ now))
  | None => inl (FileNotFoundError path)
  end.

(** [add_agent].  [now_id], [now_ts] and [now_save] are the three
    readings of the clock. *)
Definition add_agent (a : AgentArchive) (dk : Disk)
    (path : string) (parent : option string) (fitness novelty : Q)
    (results : list (string * value)) (mods : list string)
    (meta : option (list (string * value)))
    (now_id now_ts now_save : string)
    : error + (string * AgentArchive * Disk) :=
  match _generate_agent_id (files dk) path now_id with
  | inl err => inl err
  | inr new_id =>
      let gen :=
        match parent with
        | Some p =>
            if truthy parent then
              match dget p (entries a) with
              | Some pe => (generation pe + 1)%Z
              | None => 0%Z
              end
            else 0%Z
        | None => 0%Z
        end in
      let agent_archive_path := archive_dir a +:+ "/agent_" +:+ new_id +:+ ".py" in
      match files dk !! path with
      | None => inl (FileNotFoundError path)
      | Some content =>
          let fs1 := <[agent_archive_path := content]> (files dk) in
          let entry :=
            {| agent_id := new_id;
               agent_path := agent_archive_path;
               parent_id := parent;
               generation := gen;
               fitness_score := fitness;
               novelty_score := novelty;
               benchmark_results := results;
               modifications := mods;
               timestamp := now_ts;
               metadata := match meta with
                           | Some m => m
                           | None => []
                           end |} in
          let a1 := with_entries a (dset new_id entry (entries a)) in
          let '(a2, fs2) := _enforce_size_limit a1 fs1 in
          let dk2 := _save_archive a2 now_save
                       {| files := fs2; index_json := index_json dk |} in
          inr (new_id, a2, dk2)
      end
  end.
End AddAgent.

(** The class invariant of [self.entries]: the keys are unique and every
    entry is stored under its own [agent_id]. *)
Definition archive_wf (d : dict ArchiveEntry) : Prop :=
  dict_wf d /\ Forall (fun p => agent_id p.2 = p.1) d.

(** The archives a program can hold: constructed with maximum size [m]
    over some disk, then changed by calls of [add_agent] that returned. *)
Inductive reachable (sha256_hex16 : string -> string) (m : nat) : AgentArchive -> Prop :=
| reach_init dir dk : reachable sha256_hex16 m (init dir m dk)
| reach_add a dk path parent fitness novelty results mods meta
            now_id now_ts now_save id a' dk' :
    reachable sha256_hex16 m a ->
    add_agent sha256_hex16 a dk path parent fitness novelty results mods meta
              now_id now_ts now_save = inr (id, a', dk') ->
    reachable sha256_hex16 m a'.

(** The ids [_enforce_size_limit] keeps when the archive is over its limit. *)
Definition kept_ids_of (a : AgentArchive) : gset string :=
  list_to_set
    (agent_id <$> take (max_size a) (sorted_desc combined (values (entries a)))).

(** The file removals of the loop, with the lookups made in the
    initial dictionary. *)
Definition unlink_unless_kept (kept : gset string) (d : dict ArchiveEntry)
    (fs : gmap string string) (k : string) : gmap string string :=
  if bool_decide (k ∈ kept) then fs
  else match dget k d with
       | Some e => delete (agent_path e) fs
       | None => fs
       end.

(** The entry [add_agent] builds. *)
Definition new_entry (a : AgentArchive) (id : string) (parent : option string)
    (fitness novelty : Q) (results : list (string * value)) (mods : list string)
    (meta : option (list (string * value))) (now_ts : string) : ArchiveEntry :=
  {| agent_id := id;
     agent_path := archive_dir a +:+ "/agent_" +:+ id +:+ ".py";
     parent_id := parent;
     generation :=
       match parent with
       | Some p =>
           if truthy parent then
             match dget p (entries a) with
             | Some pe => (generation pe + 1)%Z
             | None => 0%Z
             end
           else 0%Z
       | None => 0%Z
       end;
     fitness_score := fitness;
     novelty_score := novelty;
     benchmark_results := results;
     modifications := mods;
     timestamp := now_ts;
     metadata := match meta with Some m => m | None => [] end |}.

(** [get_agent] *)
Definition get_agent (a : AgentArchive) (id : string) : option ArchiveEntry :=
  dget id (entries a).

(** [get_all_agents] *)
Definition get_all_agents (a : AgentArchive) : list ArchiveEntry :=
  values (entries a).

(** [get_top_agents] *)
Definition get_top_agents (a : AgentArchive) (n : nat) : list ArchiveEntry :=
  take n (sorted_desc combined (values (entries a))).

(** The loop of [get_lineage]: [fuel] bounds the number of iterations,
    [None] stands for a walk that has not ended within [fuel] steps. *)
Fixpoint lineage_loop (fuel : nat) (d : dict ArchiveEntry)
    (current_id : option string) (lineage : list ArchiveEntry)
    : option (list ArchiveEntry) :=
  if truthy current_id then
    match current_id with
    | Some id =>
        match dget id d with
        | None => Some lineage
        | Some entry =>
            match fuel with
            | O => None
            | S fuel' => lineage_loop fuel' d (parent_id entry) (lineage ++ [entry])
            end
        end
    | None => Some lineage
    end
  else Some lineage.

(** [get_lineage] *)
Definition get_lineage (fuel : nat) (a : AgentArchive) (id : string)
    : option (list ArchiveEntry) :=
  lineage_loop fuel (entries a) (Some id) [].

End ArchiveManager.

(** ** [archive/agent_archive.py] *)

Module AgentArchive.
Import Py.

Record ArchivedAgent := mkAgent {
  agent_id : string;
  parent_id : option string;
  generation : Z;
  source_path : string;
  created_at : string;
  benchmark_scores : dict Q;
  average_score : Q;
  is_valid : bool;
  metadata : list (string * value)
}.

(** The object state: [self.archive_dir] and [self.agents]. *)
Record AgentArchive := mkArchive {
  archive_dir : string;
  agents : dict ArchivedAgent
}.

(** The disk: the regular files by path, and for every archive
    directory that has an [archive_metadata.json] the decoded content of
    that file (its ['agents'] object and ['last_updated']), by the name
    of the directory. *)
Record Disk := mkDisk {
  files : gmap string string;
  archive_metadata : gmap string (dict ArchivedAgent * string)
}.

(** The exceptions a call can end with.  No function of this module
    raises [ValidationError]; the constructor is there to state that. *)
Inductive error :=
| FileExistsError (path : string)
| ValidationError (msg : string).

(** [os.path.basename] *)
Fixpoint basename (s : string) : string :=
  match s with
  | EmptyString => EmptyString
  | String _ s' => if contains "/" s then basename s' else s
  end.

(** A path is a directory when some regular file lies below it. *)
Definition is_dir (fs : gmap string string) (p : string) : bool :=
  existsb (fun kv => startswith (p +:+ "/") kv.1) (map_to_list fs).

(** [shutil.copytree(src, dst)] on a destination that does not exist. *)
Definition copytree (fs : gmap string string) (src dst : string) : gmap string string :=
  foldr (fun kv acc =>
           if startswith (src +:+ "/") kv.1
           then <[dst +:+ String.substring (String.length src)
                            (String.length kv.1 - String.length src) kv.1 := kv.2]> acc
           else acc)
        fs (map_to_list fs).

(** The block "Copy agent code to archive" of [add_agent]. *)
Definition copy_agent_code (fs : gmap string string) (path dst : string)
    : error + gmap string string :=
  match fs !! path with
  | Some content => inr (<[dst +:+ "/" +:+ basename path := content]> fs)
  | None =>
      if is_dir fs path then
        if is_dir fs dst || bool_decide (is_Some (fs !! dst))
        then inl (FileExistsError dst)
        else inr (copytree fs path dst)
      else inr fs
  end.

(** [_save_archive]; it writes [archive_dir/archive_metadata.json]. *)
Definition _save_archive (a : AgentArchive) (now : string) (dk : Disk) : Disk :=
  {| files := files dk;
     archive_metadata := <[archive_dir a := (agents a, now)]> (archive_metadata dk) |}.

(** [add_agent].  [new_id] is [str(uuid.uuid4())], [now_created] and
    [now_saved] are the two readings of the clock. *)
Definition add_agent (a : AgentArchive) (dk : Disk)
    (path : string) (parent : option string) (scores : option (dict Q))
    (valid : bool) (meta : option (list (string * value)))
    (new_id now_created now_saved : string)
    : error + (ArchivedAgent * AgentArchive * Disk) :=
  let gen :=
    match parent with
    | Some p =>
        if truthy parent then
          match dget p (agents a) with
          | Some pa => (generation pa + 1)%Z
          | None => 0%Z
          end
        else 0%Z
    | None => 0%Z
    end in
  let agent_archive_path := archive_dir a +:+ "/" +:+ new_id in
  match copy_agent_code (files dk) path agent_archive_path with
  | inl err => inl err
  | inr fs1 =>
      let scores := match scores with Some s => s | None => [] end in
      let average :=
        match scores with
        | [] => 0%Q
        | _ => (sum (values scores) / inject_Z (Z.of_nat (length scores)))%Q
        end in
      let agent :=
        {| agent_id := new_id;
           parent_id := parent;
           generation := gen;
           source_path := agent_archive_path;
           created_at := now_created;
           benchmark_scores := scores;
           average_score := average;
           is_valid := valid;
           metadata := match meta with Some m => m | None => [] end |} in
      let a1 := {| archive_dir := archive_dir a; agents := dset new_id agent (agents a) |} in
      let dk1 := _save_archive a1 now_saved
                   {| files := fs1; archive_metadata := archive_metadata dk |} in
      inr (agent, a1, dk1)
  end.

(** [get_agent] *)
Definition get_agent (a : AgentArchive) (id : string) : option ArchivedAgent :=
  dget id (agents a).

(** [get_all_agents] *)
Definition get_all_agents (a : AgentArchive) : list ArchivedAgent :=
  values (agents a).

(** The loop of [get_agent_lineage]; [None] stands for a walk that has
    not ended within [fuel] steps. *)
Fixpoint lineage_loop (fuel : nat) (a : AgentArchive)
    (current_id : option string) (lineage : list ArchivedAgent)
    : option (list ArchivedAgent) :=
  if truthy current_id then
    match current_id with
    | Some id =>
        match get_agent a id with
        | None => Some lineage
        | Some agent =>
            match fuel with
            | O => None
            | S fuel' => lineage_loop fuel' a (parent_id agent) (lineage ++ [agent])
            end
        end
    | None => Some lineage
    end
  else Some lineage.

(** [get_agent_lineage] *)
Definition get_agent_lineage (fuel : nat) (a : AgentArchive) (id : string)
    : option (list ArchivedAgent) :=
  reverse <$> lineage_loop fuel a (Some id) [].

End AgentArchive.

(** ** [archive/parent_selector.py] *)

Module ParentSelector.
Import Py.

(** [HybridSelection.select] reads one attribute of a record,
    [average_score]; it is written over any record type that has it.
    [agents] is [archive.get_all_agents()]. *)
Section Hybrid.
Context {Agent : Type} (average_score : Agent -> Q).

Record HybridSelection := mkHybrid {
  fitness_weight : Q;
  novelty_weight : Q
}.

(** The value stored in [agent._combined_score]. *)
Definition _combined_score (self : HybridSelection) (agent : Agent) : Q :=
  (fitness_weight self * average_score agent + novelty_weight self * 0)%Q.

Definition select (self : HybridSelection) (agents : list Agent) (n_parents : nat)
    : list Agent :=
  match agents with
  | [] => []
  | _ => take n_parents (sorted_desc (_combined_score self) agents)
  end.
End Hybrid.

End ParentSelector.

(** ** [archive/novelty_calculator.py] *)

Module NoveltyCalculator.
Import Py.

(** The characteristics dictionary: each key may be absent. *)
Record Characteristics := mkChars {
  num_functions : option Q;
  num_classes : option Q;
  num_loops : option Q;
  num_conditionals : option Q;
  num_imports : option Q;
  code_length : option Q;
  success_rate : option Q;
  avg_score : option Q;
  uses_recursion : option bool;
  uses_comprehensions : option bool;
  uses_generators : option bool;
  uses_decorators : option bool;
  import_modules : option (gset string);
  benchmark_patterns : option (list string)
}.

Definition numeric_features : list (Characteristics -> option Q) :=
  [num_functions; num_classes; num_loops; num_conditionals; num_imports;
   code_length; success_rate; avg_score].

Definition boolean_features : list (Characteristics -> option bool) :=
  [uses_recursion; uses_comprehensions; uses_generators; uses_decorators].

Definition Qlt_bool (x y : Q) : bool := negb (Qle_bool y x).

(** The accumulator of [_calculate_distance]: [(distance, num_features)]. *)
Definition acc := (Q * nat)%type.

Definition numeric_step (chars1 chars2 : Characteristics) (a : acc)
    (feature : Characteristics -> option Q) : acc :=
  match feature chars1, feature chars2 with
  | Some val1, Some val2 =>
      if Qlt_bool 0 (val1 + val2)
      then ((a.1 + Qabs (val1 - val2) / (val1 + val2))%Q, S a.2)
      else a
  | _, _ => a
  end.

Definition boolean_step (chars1 chars2 : Characteristics) (a : acc)
    (feature : Characteristics -> option bool) : acc :=
  match feature chars1, feature chars2 with
  | Some b1, Some b2 =>
      ((if eqb b1 b2 then a.1 else a.1 + 1)%Q, S a.2)
  | _, _ => a
  end.

(** [len(s)] of a set as a rational. *)
Definition len (s : gset string) : Q := inject_Z (Z.of_nat (size s)).

Definition set_step (a : acc) (s1 s2 : option (gset string)) : acc :=
  match s1, s2 with
  | Some set1, Some set2 =>
      if bool_decide (set1 ≠ ∅) || bool_decide (set2 ≠ ∅)
      then
        let jaccard := (len (set1 ∩ set2) / len (set1 ∪ set2))%Q in
        ((a.1 + (1 - jaccard))%Q, S a.2)
      else a
  | _, _ => a
  end.

Definition distance_acc (chars1 chars2 : Characteristics) : acc :=
  let a := foldl (numeric_step chars1 chars2) (0%Q, O) numeric_features in
  let a := foldl (boolean_step chars1 chars2) a boolean_features in
  let a := set_step a (import_modules chars1) (import_modules chars2) in
  set_step a (list_to_set <$> benchmark_patterns chars1)
             (list_to_set <$> benchmark_patterns chars2).

(** [_calculate_distance] *)
Definition _calculate_distance (chars1 chars2 : Characteristics) : Q :=
  let a := distance_acc chars1 chars2 in
  match a.2 with
  | O => 0.5%Q
  | S _ => (a.1 / inject_Z (Z.of_nat a.2))%Q
  end.

Inductive error := ZeroDivisionError.

Section Novelty.
(** [_extract_characteristics(agent_path, benchmark_results)] reads and
    parses the file at [agent_path]; the disk does not change during a
    call of [calculate_novelty]. *)
Variable _extract_characteristics :
  string -> list (string * value) -> Characteristics.

(** [self.k_nearest], a number of neighbours. *)
Variable k_nearest : nat.

(** The list [distances] built by the loop of [calculate_novelty]. *)
Definition distances_to (agent_path : string)
    (archive_agents : list ArchiveManager.ArchiveEntry)
    (characteristics : Characteristics) : list Q :=
  (fun entry =>
     _calculate_distance characteristics
       (_extract_characteristics (ArchiveManager.agent_path entry)
                                 (ArchiveManager.benchmark_results entry)))
  <$> List.filter
        (fun entry => negb (String.eqb (ArchiveManager.agent_path entry) agent_path))
        archive_agents.

(** [calculate_novelty] *)
Definition calculate_novelty (agent_path : string)
    (archive : ArchiveManager.AgentArchive)
    (benchmark_results : list (string * value)) : error + Q :=
  let characteristics := _extract_characteristics agent_path benchmark_results in
  let archive_agents := ArchiveManager.get_all_agents archive in
  match archive_agents with
  | [] => inr 1%Q
  | _ =>
      let distances := distances_to agent_path archive_agents characteristics in
      match distances with
      | [] => inr 1%Q
      | _ =>
          let distances := sorted_asc distances in
          let k_distances := take (Nat.min k_nearest (length distances)) distances in
          match k_distances with
          | [] => inl ZeroDivisionError
          | _ =>
              let avg_distance :=
                (sum k_distances / inject_Z (Z.of_nat (length k_distances)))%Q in
              inr (if Qle_bool 1 avg_distance then 1%Q else avg_distance)
          end
      end
  end.
End Novelty.

(** *** Vocabulary for the distance of a vector to itself *)

Definition pos_num (c : Characteristics) (f : Characteristics -> option Q) : bool :=
  match f c with Some v => Qlt_bool 0 (v + v) | None => false end.

Definition has_bool (c : Characteristics) (f : Characteristics -> option bool) : bool :=
  match f c with Some _ => true | None => false end.

Definition has_set (s : option (gset string)) : bool :=
  match s with Some x => bool_decide (x ≠ ∅) | None => false end.

Definition comparable_count (c : Characteristics) : nat :=
  length (List.filter (pos_num c) numeric_features)
  + length (List.filter (has_bool c) boolean_features)
  + (if has_set (import_modules c) then 1 else 0)
  + (if has_set (list_to_set <$> benchmark_patterns c) then 1 else 0).

(** A vector is comparable with itself when some category contributes:
    a positive numeric feature, a boolean flag, a non-empty import set
    or a non-empty pattern list. *)
Definition comparable (c : Characteristics) : Prop :=
  (exists f v, f ∈ numeric_features /\ f c = Some v /\ (0 < v)%Q)
  \/ (exists f b, f ∈ boolean_features /\ f c = Some b)
  \/ (exists s, import_modules c = Some s /\ s ≠ ∅)
  \/ (exists p ps, benchmark_patterns c = Some (p :: ps)).

End NoveltyCalculator.

(** ** Benchmark failure analysis *)

Module BenchmarkResults.
Import Py.

(** One element of ['test_results']: the keys ['passed'] and ['error']
    may be absent; when present they hold a bool and a string. *)
Record TestResult := mkTest {
  passed : option bool;
  error : option string
}.

(** One value of ['detailed_results']. *)
Record BenchmarkDetail := mkDetail {
  test_results : option (list TestResult)
}.

(** [benchmark_results]: the keys the analysis reads. *)
Record BenchmarkResults := mkResults {
  detailed_results : option (dict BenchmarkDetail)
}.

(** [x > n * 0.3] for lengths [x] and [n].  The code multiplies the
    integer by the float [0.3]; on lengths the result compares with an
    integer as the exact product does. *)
Definition exceeds_30_percent (x n : nat) : bool :=
  negb (Qle_bool (inject_Z (Z.of_nat x)) (inject_Z (Z.of_nat n) * 0.3)).

(** The counting dictionary [error_types]:
    [error_types[k] = error_types.get(k, 0) + 1]. *)
Definition count_up (d : dict nat) (k : string) : dict nat :=
  dset k (match dget k d with Some c => c | None => O end + 1) d.

End BenchmarkResults.

(** *** [self_modification/diagnosis.py] *)

Module Diagnosis.
Import Py BenchmarkResults.

(** The fields of [DiagnosisReport] that [_analyze_benchmark_failures]
    reads or appends to.  A timeout pattern is the string
    [f"{benchmark_name}: {t}/{f} tests timed out"], kept as the triple it
    is formatted from; a failed test pattern is
    [f"{benchmark_name}: {error_type} ({count} occurrences)"]. *)
Record DiagnosisReport := mkReport {
  overall_score : Q;
  benchmark_scores : dict Q;
  failed_test_patterns : list (string * string * nat);
  timeout_patterns : list (string * nat * nat)
}.

(** [_classify_error] *)
Definition _classify_error (error : string) : string :=
  let error_lower := lower error in
  if contains "timeout" error_lower then "Timeout"
  else if contains "syntax" error_lower then "Syntax Error"
  else if contains "import" error_lower then "Import Error"
  else if contains "attribute" error_lower then "Attribute Error"
  else if contains "type" error_lower then "Type Error"
  else if contains "value" error_lower then "Value Error"
  else if contains "index" error_lower then "Index Error"
  else "Other Error".

(** [not test.get('passed', False)] *)
Definition is_failed (test : TestResult) : bool :=
  negb (match passed test with Some b => b | None => false end).

(** ['timeout' in test.get('error', '').lower()] *)
Definition is_timeout (test : TestResult) : bool :=
  contains "timeout" (lower (match error test with Some e => e | None => "" end)).

Definition failed_tests (results : BenchmarkDetail) : list TestResult :=
  List.filter is_failed
    (match test_results results with Some l => l | None => [] end).

Definition timeout_tests (results : BenchmarkDetail) : list TestResult :=
  List.filter is_timeout (failed_tests results).

Definition error_types (results : BenchmarkDetail) : dict nat :=
  foldl (fun d test =>
           count_up d (_classify_error
                         (match error test with
                          | Some e => e
                          | None => "Unknown error"
                          end)))
        [] (failed_tests results).

(** The body of the loop of [_analyze_benchmark_failures]. *)
Definition analyze_benchmark (report : DiagnosisReport)
    (item : string * BenchmarkDetail) : DiagnosisReport :=
  let '(benchmark_name, results) := item in
  let score :=
    match dget benchmark_name (benchmark_scores report) with
    | Some s => s
    | None => 0.0%Q
    end in
  if negb (Qle_bool 0.5 score) then
    let nt := length (timeout_tests results) in
    let nf := length (failed_tests results) in
    {| overall_score := overall_score report;
       benchmark_scores := benchmark_scores report;
       failed_test_patterns :=
         failed_test_patterns report ++
         ((fun kc => (benchmark_name, kc.1, kc.2)) <$>
            List.filter (fun kc => (1 <? kc.2)%nat) (error_types results));
       timeout_patterns :=
         if exceeds_30_percent nt nf
         then timeout_patterns report ++ [(benchmark_name, nt, nf)]
         else timeout_patterns report |}
  else report.

(** [_analyze_benchmark_failures] *)
Definition _analyze_benchmark_failures (benchmark_results : BenchmarkResults)
    (report : DiagnosisReport) : DiagnosisReport :=
  foldl analyze_benchmark report
    (match detailed_results benchmark_results with Some d => d | None => [] end).

(** [report.benchmark_scores.get(benchmark_name, 0.0)] *)
Definition score_of (report : DiagnosisReport) (benchmark_name : string) : Q :=
  match dget benchmark_name (benchmark_scores report) with
  | Some s => s
  | None => 0.0%Q
  end.

(** The decision [analyze_benchmark] takes for one benchmark. *)
Definition flags (report : DiagnosisReport) (item : string * BenchmarkDetail) : bool :=
  negb (Qle_bool 0.5 (score_of report item.1))
  && exceeds_30_percent (length (timeout_tests item.2)) (length (failed_tests item.2)).

(** A benchmark is flagged when a timeout pattern carries its name. *)
Definition flagged (report : DiagnosisReport) (benchmark_name : string) : Prop :=
  exists nt nf, (benchmark_name, nt, nf) ∈ timeout_patterns report.

End Diagnosis.

(** *** [self_modification/performance_diagnosis.py] *)

Module PerformanceDiagnosis.
Import Py BenchmarkResults.

(** The fields of [DiagnosisReport] that [_analyze_benchmark_failures]
    reads or appends to.  A timeout pattern is the string
    [f"{benchmark_name}: {timeout_count} timeouts detected"], kept as the
    pair it is formatted from; likewise the repeated-error issue
    [f"{benchmark_name}: Repeated error - {error} ({count} times)"]. *)
Record DiagnosisReport := mkReport {
  overall_score : Q;
  benchmark_scores : dict Q;
  error_handling_issues : list (string * string * nat);
  timeout_patterns : list (string * nat)
}.

(** [not test.get('passed', True)] *)
Definition is_failed (test : TestResult) : bool :=
  negb (match passed test with Some b => b | None => true end).

Definition error_of (test : TestResult) : string :=
  match error test with Some e => e | None => "Unknown error" end.

(** The inner loop over [results['test_results']]:
    [(timeout_count, error_types)]. *)
Definition scan_test (st : nat * dict nat) (test : TestResult) : nat * dict nat :=
  if is_failed test then
    ((if contains "Timeout" (error_of test) then S st.1 else st.1),
     count_up st.2 (error_of test))
  else st.

(** The body of the loop of [_analyze_benchmark_failures]. *)
Definition analyze_benchmark (report : DiagnosisReport)
    (item : string * BenchmarkDetail) : DiagnosisReport :=
  let '(benchmark_name, results) := item in
  match test_results results with
  | Some tests =>
      let st := foldl scan_test (O, []) tests in
      {| overall_score := overall_score report;
         benchmark_scores := benchmark_scores report;
         error_handling_issues :=
           error_handling_issues report ++
           ((fun kc => (benchmark_name, kc.1, kc.2)) <$>
              List.filter (fun kc => (1 <? kc.2)%nat) st.2);
         timeout_patterns :=
           if exceeds_30_percent st.1 (length tests)
           then timeout_patterns report ++ [(benchmark_name, st.1)]
           else timeout_patterns report |}
  | None => report
  end.

(** [_analyze_benchmark_failures] *)
Definition _analyze_benchmark_failures (benchmark_results : BenchmarkResults)
    (report : DiagnosisReport) : DiagnosisReport :=
  foldl analyze_benchmark report
    (match detailed_results benchmark_results with Some d => d | None => [] end).

Definition flagged (report : DiagnosisReport) (benchmark_name : string) : Prop :=
  exists nt, (benchmark_name, nt) ∈ timeout_patterns report.

End PerformanceDiagnosis.

(** ** [self_modification/implementation.py] *)

Module Implementation.
Import Py.

Record CodeChange := mkChange {
  file_path : string;
  change_type : string;
  description : string;
  priority : Z;
  location : option string;
  old_code : option string;
  new_code : option string;
  line_number : option Z
}.

Record ModificationProposal := mkProposal {
  proposal_id : string;
  diagnosis_summary : string;
  code_changes : list CodeChange;
  implementation_steps : list string;
  expected_improvements : list string;
  risk_assessment : option string;
  estimated_complexity : option string
}.

(** The working copy below [agent_path]: regular files by their path
    relative to [agent_path], as [CodeChange.file_path] names them.  A
    file is the text [Path.read_text] returns for it; for 7-bit ASCII
    text without carriage return that is the text [Path.write_text] was
    given. *)
Abbreviation tree := (gmap string string).

(** *** Text helpers of [_apply_add_change] *)

(** The line feed and the double quote. *)
Definition LF : Ascii.ascii := Eval cbv in Ascii.ascii_of_nat 10.
Definition DQUOTE : Ascii.ascii := Eval cbv in Ascii.ascii_of_nat 34.

(** [s.split('\n')] *)
Fixpoint split_lines (s : string) : list string :=
  match s with
  | EmptyString => [EmptyString]
  | String c s' =>
      if Ascii.eqb c LF then EmptyString :: split_lines s'
      else
        match split_lines s' with
        | [] => [String c EmptyString]
        | l :: ls => String c l :: ls
        end
  end.

(** ['\n'.join(lines)] *)
Fixpoint join_lines (lines : list string) : string :=
  match lines with
  | [] => EmptyString
  | [l] => l
  | l :: ls => l +:+ String LF (join_lines ls)
  end.

(** The characters [str.strip] removes from ASCII text. *)
Definition is_space (c : Ascii.ascii) : bool :=
  let n := Ascii.nat_of_ascii c in
  ((9 <=? n) && (n <=? 13) || (28 <=? n) && (n <=? 32))%nat.

(** [len(line) - len(line.lstrip())] *)
Fixpoint indent_of (line : string) : nat :=
  match line with
  | String c s' => if is_space c then S (indent_of s') else O
  | EmptyString => O
  end.

(** Truthiness of [line.strip()]. *)
Fixpoint has_text (line : string) : bool :=
  match line with
  | String c s' => negb (is_space c) || has_text s'
  | EmptyString => false
  end.

(** [lines.insert(i, x)] for [0 <= i]. *)
Definition list_insert_at {A : Type} (i : nat) (x : A) (l : list A) : list A :=
  take i l ++ x :: drop i l.

(** The search for [import_line], from index [i]. *)
Fixpoint find_import_line (i : nat) (lines : list string) : option nat :=
  match lines with
  | [] => None
  | line :: rest =>
      if has_text line && negb (startswith "#" line)
         && negb (startswith (String DQUOTE (String DQUOTE (String DQUOTE EmptyString))) line)
      then Some i
      else find_import_line (S i) rest
  end.

(** The search for [insert_line], from index [i]; [indent_level] is
    [Some] exactly when [in_init] is set. *)
Fixpoint find_init_end (i : nat) (indent_level : option nat) (lines : list string)
    : option nat :=
  match lines with
  | [] => None
  | line :: rest =>
      if contains "def __init__" line
      then find_init_end (S i) (Some (indent_of line)) rest
      else
        match indent_level with
        | Some lvl =>
            if has_text line && (indent_of line <=? lvl)%nat
            then Some i
            else find_init_end (S i) indent_level rest
        | None => find_init_end (S i) indent_level rest
        end
  end.

(** [f"{change.new_code}"] *)
Definition fmt (s : option string) : string :=
  match s with Some x => x | None => "None" end.

Definition is_loc (l : option string) (name : string) : bool :=
  match l with Some x => String.eqb x name | None => false end.

(** [_apply_add_change] *)
Definition _apply_add_change (fs : tree) (change : CodeChange) : tree * bool :=
  let path := file_path change in
  match fs !! path with
  | None =>
      match new_code change with
      | Some (String _ _ as code) => (<[path := code]> fs, true)
      | _ => (fs, false)
      end
  | Some content =>
      if is_loc (location change) "imports" && truthy (new_code change) then
        let lines := split_lines content in
        match find_import_line 0 lines with
        | Some import_line =>
            (<[path := join_lines
                         (list_insert_at import_line (fmt (new_code change)) lines)]> fs,
             true)
        | None => (fs, false)
        end
      else if is_loc (location change) "__init__" && truthy (new_code change) then
        let lines := split_lines content in
        match find_init_end 0 None lines with
        | Some (S _ as insert_line) =>
            (<[path := join_lines
                         (list_insert_at insert_line (fmt (new_code change)) lines)]> fs,
             true)
        | _ => (fs, false)
        end
      else
        (<[path := content +:+ String LF (String LF (fmt (new_code change)))]> fs,
         true)
  end.

(** [_apply_modify_change] *)
Definition _apply_modify_change (fs : tree) (change : CodeChange) : tree * bool :=
  let path := file_path change in
  match fs !! path with
  | None => (fs, false)
  | Some content =>
      match old_code change, new_code change with
      | Some (String _ _ as old), Some (String _ _ as new) =>
          if contains old content
          then (<[path := replace old new content]> fs, true)
          else (fs, false)
      | _, _ => (fs, false)
      end
  end.

(** [_apply_delete_change] *)
Definition _apply_delete_change (fs : tree) (change : CodeChange) : tree * bool :=
  let path := file_path change in
  match fs !! path with
  | Some content =>
      match old_code change with
      | Some (String _ _ as old) =>
          if contains old content
          then (<[path := replace old "" content]> fs, true)
          else (fs, false)
      | _ => (delete path fs, true)
      end
  | None => (fs, false)
  end.

(** What a call returns: a value, or an exception with its message. *)
Inductive outcome :=
| Returned (b : bool)
| Raised (msg : string).

(** [_verify_modifications]: the result dictionary. *)
Record Verification := mkVerification {
  valid : bool;
  verrors : list string;
  warnings : list string
}.

Inductive parsed :=
| ParseOk
| SyntaxError (msg : string)
| OtherError (msg : string).

(** [results] of [implement_proposal]; [backup_path] names the backup
    directory, which is kept here as the tree saved in it. *)
Record Results := mkResults {
  success : bool;
  changes_applied : list (string * string * string);
  errors : list string;
  backup_path : option tree;
  verification : option Verification
}.

(** [self] of [ImplementationManager]. *)
Record Manager := mkManager {
  backup_dir : option tree;
  applied : list CodeChange
}.

Section Apply.
(** The operating system may refuse the file operations of a change
    (missing permission, a path component that is a regular file, text
    that does not decode); the call then raises with the given message. *)
Variable os_error : tree -> CodeChange -> option string.

(** [ast.parse] on the content of a file. *)
Variable ast_parse : string -> parsed.

(** [_apply_code_change] *)
Definition _apply_code_change (fs : tree) (change : CodeChange) (dry_run : bool)
    : tree * outcome :=
  let ty := change_type change in
  let is_modify_or_delete := String.eqb ty "modify" || String.eqb ty "delete" in
  let exists_ := bool_decide (is_Some (fs !! file_path change)) in
  if dry_run then
    if String.eqb ty "add" then (fs, Returned true)
    else if is_modify_or_delete && exists_ then (fs, Returned true)
    else if is_modify_or_delete && negb exists_ then (fs, Returned false)
    else (fs, Returned true)
  else
    match os_error fs change with
    | Some msg => (fs, Raised msg)
    | None =>
        let r :=
          if String.eqb ty "add" then _apply_add_change fs change
          else if String.eqb ty "modify" then _apply_modify_change fs change
          else if String.eqb ty "delete" then _apply_delete_change fs change
          else (fs, false) in
        (r.1, Returned r.2)
    end.

(** [_create_backup] *)
Definition _create_backup (fs : tree) : tree := fs.

(** [_rollback_changes] *)
Definition _rollback_changes (self : Manager) (fs : tree) : tree :=
  match backup_dir self with
  | Some backup => backup
  | None => fs
  end.

(** [_verify_modifications]; [_check_imports] returns no error. *)
Definition _verify_modifications (fs : tree) : Verification :=
  foldl (fun v kv =>
           if endswith ".py" kv.1 then
             match ast_parse kv.2 with
             | ParseOk => v
             | SyntaxError msg =>
                 {| valid := false;
                    verrors := verrors v ++ ["Syntax error in " +:+ kv.1 +:+ ": " +:+ msg];
                    warnings := warnings v |}
             | OtherError msg =>
                 {| valid := valid v;
                    verrors := verrors v;
                    warnings := warnings v ++ ["Failed to parse " +:+ kv.1 +:+ ": " +:+ msg] |}
             end
           else v)
        {| valid := true; verrors := []; warnings := [] |}
        (map_to_list fs).

(** The state of the loop "Apply each change". *)
Record loop_state := mkLoop {
  ls_tree : tree;
  ls_applied : list (string * string * string);
  ls_errors : list string;
  ls_self_applied : list CodeChange;
  ls_returned : bool
}.

(** The loop "Apply each change" of [implement_proposal];
    [ls_returned] is set when the loop left the function through the
    [return results] of the exception handler. *)
Fixpoint apply_each (self : Manager) (dry_run : bool) (changes : list CodeChange)
    (st : loop_state) : loop_state :=
  match changes with
  | [] => st
  | change :: rest =>
      match _apply_code_change (ls_tree st) change dry_run with
      | (fs', Returned true) =>
          apply_each self dry_run rest
            {| ls_tree := fs';
               ls_applied := ls_applied st ++
                 [(file_path change, change_type change, description change)];
               ls_errors := ls_errors st;
               ls_self_applied := ls_self_applied st ++ [change];
               ls_returned := false |}
      | (fs', Returned false) =>
          apply_each self dry_run rest
            {| ls_tree := fs';
               ls_applied := ls_applied st;
               ls_errors := ls_errors st;
               ls_self_applied := ls_self_applied st;
               ls_returned := false |}
      | (fs', Raised msg) =>
          let error_msg :=
            "Failed to apply change '" +:+ description change +:+ "': " +:+ msg in
          if negb dry_run && bool_decide (is_Some (backup_dir self)) then
            {| ls_tree := _rollback_changes self fs';
               ls_applied := ls_applied st;
               ls_errors := ls_errors st ++ [error_msg];
               ls_self_applied := ls_self_applied st;
               ls_returned := true |}
          else
            apply_each self dry_run rest
              {| ls_tree := fs';
                 ls_applied := ls_applied st;
                 ls_errors := ls_errors st ++ [error_msg];
                 ls_self_applied := ls_self_applied st;
                 ls_returned := false |}
      end
  end.

(** [implement_proposal]: the results, the manager and the working copy
    after the call. *)
Definition implement_proposal (self : Manager) (proposal : ModificationProposal)
    (fs : tree) (dry_run : bool) : Results * Manager * tree :=
  let self1 :=
    if dry_run then self
    else {| backup_dir := Some (_create_backup fs); applied := applied self |} in
  let backup := if dry_run then None else backup_dir self1 in
  let st := apply_each self1 dry_run (code_changes proposal)
              {| ls_tree := fs; ls_applied := []; ls_errors := [];
                 ls_self_applied := applied self1; ls_returned := false |} in
  let self2 := {| backup_dir := backup_dir self1; applied := ls_self_applied st |} in
  if ls_returned st then
    ({| success := false; changes_applied := ls_applied st; errors := ls_errors st;
        backup_path := backup; verification := None |}, self2, ls_tree st)
  else if dry_run then
    ({| success := true; changes_applied := ls_applied st; errors := ls_errors st;
        backup_path := backup; verification := None |}, self2, ls_tree st)
  else
    let v := _verify_modifications (ls_tree st) in
    if valid v then
      ({| success := true; changes_applied := ls_applied st; errors := ls_errors st;
          backup_path := backup; verification := Some v |}, self2, ls_tree st)
    else
      ({| success := false; changes_applied := ls_applied st;
          errors := ls_errors st ++ verrors v;
          backup_path := backup; verification := Some v |},
       self2, _rollback_changes self2 (ls_tree st)).
End Apply.

End Implementation.

(** ** Concrete archives, reports and proposals

    The inputs at which the theorems below are instantiated. *)

Module Scenarios.
Import Py.

(** *** Archives of [archive_manager.py] *)

Definition scored (id : string) (fitness : Q) : string * ArchiveManager.ArchiveEntry :=
  (id, {| ArchiveManager.agent_id := id;
          ArchiveManager.agent_path := "archive/agent_" +:+ id +:+ ".py";
          ArchiveManager.parent_id := None;
          ArchiveManager.generation := 0;
          ArchiveManager.fitness_score := fitness;
          ArchiveManager.novelty_score := 0;
          ArchiveManager.benchmark_results := [];
          ArchiveManager.modifications := [];
          ArchiveManager.timestamp := "t";
          ArchiveManager.metadata := [] |}).

(** Five agents scoring 0.1, 0.8, 0.3, 0.9 and 0.5 in an archive limited
    to three, as an index file with five records loads it. *)
Definition five_agents : ArchiveManager.AgentArchive :=
  {| ArchiveManager.archive_dir := "archive";
     ArchiveManager.max_size := 3;
     ArchiveManager.entries :=
       [scored "a" 0.1; scored "b" 0.8; scored "c" 0.3; scored "d" 0.9; scored "e" 0.5] |}.

Definition five_files : gmap string string :=
  list_to_map ((fun p => (ArchiveManager.agent_path p.2, "pass"))
                 <$> ArchiveManager.entries five_agents).

Definition mk_entry (id : string) (parent : option string) (gen : Z)
    : string * ArchiveManager.ArchiveEntry :=
  (id, {| ArchiveManager.agent_id := id;
          ArchiveManager.agent_path := "archive/agent_" +:+ id +:+ ".py";
          ArchiveManager.parent_id := parent;
          ArchiveManager.generation := gen;
          ArchiveManager.fitness_score := 0.5;
          ArchiveManager.novelty_score := 0;
          ArchiveManager.benchmark_results := [];
          ArchiveManager.modifications := [];
          ArchiveManager.timestamp := "t";
          ArchiveManager.metadata := [] |}).

(** Three generations: grandparent, parent, child. *)
Definition chain_manager : ArchiveManager.AgentArchive :=
  {| ArchiveManager.archive_dir := "archive";
     ArchiveManager.max_size := 100;
     ArchiveManager.entries :=
       [mk_entry "grandparent" None 0; mk_entry "parent" (Some "grandparent") 1;
        mk_entry "child" (Some "parent") 2] |}.

(** A stand-in for the digest in examples; any function serves. *)
Definition demo_digest (s : string) : string := s.

Definition work_disk : ArchiveManager.Disk :=
  {| ArchiveManager.files := {[ "work/a.py" := "pass"; "work/b.py" := "x = 1" ]};
     ArchiveManager.index_json := ∅ |}.

(** An archive limited to one record, and the same archive once the
    agent [work/a.py], scoring 0.9, has been added. *)
Definition one_slot : ArchiveManager.AgentArchive :=
  ArchiveManager.init "archive" 1 work_disk.

Definition first_add :=
  ArchiveManager.add_agent demo_digest one_slot work_disk
    "work/a.py" None 0.9 0 [] [] None "t1" "t2" "t3".

Definition full_archive : ArchiveManager.AgentArchive :=
  match first_add with
  | inr (_, a, _) => a
  | inl _ => one_slot
  end.

Definition full_disk : ArchiveManager.Disk :=
  match first_add with
  | inr (_, _, dk) => dk
  | inl _ => work_disk
  end.

(** *** Archives of [agent_archive.py] *)

Definition mk_agent (id : string) (parent : option string) (gen : Z)
    : string * AgentArchive.ArchivedAgent :=
  (id, {| AgentArchive.agent_id := id;
          AgentArchive.parent_id := parent;
          AgentArchive.generation := gen;
          AgentArchive.source_path := "archive/" +:+ id;
          AgentArchive.created_at := "t";
          AgentArchive.benchmark_scores := [];
          AgentArchive.average_score := 0;
          AgentArchive.is_valid := true;
          AgentArchive.metadata := [] |}).

Definition chain_archive : AgentArchive.AgentArchive :=
  {| AgentArchive.archive_dir := "archive";
     AgentArchive.agents :=
       [mk_agent "grandparent" None 0; mk_agent "parent" (Some "grandparent") 1;
        mk_agent "child" (Some "parent") 2] |}.

Definition empty_agent_archive : AgentArchive.AgentArchive :=
  {| AgentArchive.archive_dir := "archive"; AgentArchive.agents := [] |}.

Definition seed_disk : AgentArchive.Disk :=
  {| AgentArchive.files := {[ "work/a.py" := "pass" ]};
     AgentArchive.archive_metadata := ∅ |}.

(** *** Selection *)

(** A record with the two scores of the data model; [HybridSelection]
    reads [average_score]. *)
Record ScoredAgent := mkScored {
  name : string;
  average_score : Q;
  novelty_score : Q
}.

Definition explorer : ScoredAgent :=
  {| name := "explorer"; average_score := 0.5; novelty_score := 1.0 |}.

Definition exploiter : ScoredAgent :=
  {| name := "exploiter"; average_score := 0.6; novelty_score := 0.0 |}.

Definition balanced : ParentSelector.HybridSelection :=
  {| ParentSelector.fitness_weight := 0.5; ParentSelector.novelty_weight := 0.5 |}.

(** The combined score as the specification words it:
    [wf * average_score + wn * novelty_score]. *)
Definition hybrid_score (h : ParentSelector.HybridSelection) (a : ScoredAgent) : Q :=
  (ParentSelector.fitness_weight h * average_score a
   + ParentSelector.novelty_weight h * novelty_score a)%Q.

(** *** Novelty *)

Definition no_features : NoveltyCalculator.Characteristics :=
  {| NoveltyCalculator.num_functions := None;
     NoveltyCalculator.num_classes := None;
     NoveltyCalculator.num_loops := None;
     NoveltyCalculator.num_conditionals := None;
     NoveltyCalculator.num_imports := None;
     NoveltyCalculator.code_length := None;
     NoveltyCalculator.success_rate := None;
     NoveltyCalculator.avg_score := None;
     NoveltyCalculator.uses_recursion := None;
     NoveltyCalculator.uses_comprehensions := None;
     NoveltyCalculator.uses_generators := None;
     NoveltyCalculator.uses_decorators := None;
     NoveltyCalculator.import_modules := None;
     NoveltyCalculator.benchmark_patterns := None |}.

(** What [_extract_characteristics] returns for a path it cannot read
    and empty benchmark results: [{'code_length': 0}]. *)
Definition unreadable : NoveltyCalculator.Characteristics :=
  {| NoveltyCalculator.num_functions := None;
     NoveltyCalculator.num_classes := None;
     NoveltyCalculator.num_loops := None;
     NoveltyCalculator.num_conditionals := None;
     NoveltyCalculator.num_imports := None;
     NoveltyCalculator.code_length := Some 0%Q;
     NoveltyCalculator.success_rate := None;
     NoveltyCalculator.avg_score := None;
     NoveltyCalculator.uses_recursion := None;
     NoveltyCalculator.uses_comprehensions := None;
     NoveltyCalculator.uses_generators := None;
     NoveltyCalculator.uses_decorators := None;
     NoveltyCalculator.import_modules := None;
     NoveltyCalculator.benchmark_patterns := None |}.

(** The characteristics of a small parsed module. *)
Definition small_module : NoveltyCalculator.Characteristics :=
  {| NoveltyCalculator.num_functions := Some 2%Q;
     NoveltyCalculator.num_classes := Some 1%Q;
     NoveltyCalculator.num_loops := Some 0%Q;
     NoveltyCalculator.num_conditionals := Some 1%Q;
     NoveltyCalculator.num_imports := Some 1%Q;
     NoveltyCalculator.code_length := None;
     NoveltyCalculator.success_rate := None;
     NoveltyCalculator.avg_score := None;
     NoveltyCalculator.uses_recursion := Some false;
     NoveltyCalculator.uses_comprehensions := Some true;
     NoveltyCalculator.uses_generators := Some false;
     NoveltyCalculator.uses_decorators := Some false;
     NoveltyCalculator.import_modules := Some {[ "os" ]};
     NoveltyCalculator.benchmark_patterns := None |}.




(** *** Benchmark results *)

Definition timed_out : BenchmarkResults.TestResult :=
  {| BenchmarkResults.passed := Some false;
     BenchmarkResults.error := Some "Timeout after 30s" |}.

Definition passing : BenchmarkResults.TestResult :=
  {| BenchmarkResults.passed := Some true; BenchmarkResults.error := None |}.

(** One benchmark, [steady]: its only failing case timed out. *)
Definition steady_detail : BenchmarkResults.BenchmarkDetail :=
  {| BenchmarkResults.test_results := Some [passing; timed_out] |}.

Definition steady_results : BenchmarkResults.BenchmarkResults :=
  {| BenchmarkResults.detailed_results := Some [("steady", steady_detail)] |}.

(** The fresh report of [diagnose_performance] when [steady] scores [s]. *)
Definition steady_report (s : Q) : Diagnosis.DiagnosisReport :=
  {| Diagnosis.overall_score := s;
     Diagnosis.benchmark_scores := [("steady", s)];
     Diagnosis.failed_test_patterns := [];
     Diagnosis.timeout_patterns := [] |}.

(** Ten cases of which two fail, both by timeout. *)
Definition mostly_passing : BenchmarkResults.BenchmarkResults :=
  {| BenchmarkResults.detailed_results :=
       Some [("steady",
              {| BenchmarkResults.test_results :=
                   Some (replicate 8 passing ++ [timed_out; timed_out]) |})] |}.

Definition fresh_report : PerformanceDiagnosis.DiagnosisReport :=
  {| PerformanceDiagnosis.overall_score := 0.8;
     PerformanceDiagnosis.benchmark_scores := [("steady", 0.8%Q)];
     PerformanceDiagnosis.error_handling_issues := [];
     PerformanceDiagnosis.timeout_patterns := [] |}.

(** *** Proposals *)

Definition no_os_error : gmap string string -> Implementation.CodeChange -> option string :=
  fun _ _ => None.

Definition parse_ok : string -> Implementation.parsed :=
  fun _ => Implementation.ParseOk.

Definition fresh_manager : Implementation.Manager :=
  {| Implementation.backup_dir := None; Implementation.applied := [] |}.

Definition tree0 : gmap string string := {[ "agent/agent.py" := "x = 1" ]}.

(** A [modify] whose [old_code] is not in [agent/agent.py]. *)
Definition change_missing : Implementation.CodeChange :=
  {| Implementation.file_path := "agent/agent.py";
     Implementation.change_type := "modify";
     Implementation.description := "rename y";
     Implementation.priority := 1;
     Implementation.location := None;
     Implementation.old_code := Some "y = 2";
     Implementation.new_code := Some "y = 3";
     Implementation.line_number := None |}.

(** An [add] that creates [agent/tools.py]. *)
Definition change_add : Implementation.CodeChange :=
  {| Implementation.file_path := "agent/tools.py";
     Implementation.change_type := "add";
     Implementation.description := "add tools";
     Implementation.priority := 2;
     Implementation.location := None;
     Implementation.old_code := None;
     Implementation.new_code := Some "import os";
     Implementation.line_number := None |}.

Definition proposal_of (changes : list Implementation.CodeChange)
    : Implementation.ModificationProposal :=
  {| Implementation.proposal_id := "p";
     Implementation.diagnosis_summary := "";
     Implementation.code_changes := changes;
     Implementation.implementation_steps := [];
     Implementation.expected_improvements := [];
     Implementation.risk_assessment := None;
     Implementation.estimated_complexity := None |}.

End Scenarios.

(** ** More of Python: [max] *)

Module PyMax.
Import Py.

(** [x < y] on rationals. *)
Definition lt_bool (x y : Q) : bool := negb (Qle_bool y x).

(** [max(l, key=key)]: the first element with the greatest key;
    [None] stands for the [ValueError] on an empty sequence. *)
Fixpoint max_from {A : Type} (key : A -> Q) (best : A) (l : list A) : A :=
  match l with
  | [] => best
  | x :: l' => max_from key (if lt_bool (key best) (key x) then x else best) l'
  end.

Definition max_by {A : Type} (key : A -> Q) (l : list A) : option A :=
  match l with
  | [] => None
  | x :: l' => Some (max_from key x l')
  end.

(** [max(l)] on integers, for a non-empty [l] given as head and tail. *)
Definition max_Z (x : Z) (l : list Z) : Z := foldl Z.max x l.

End PyMax.

(** ** [archive/archive_manager.py]: the remaining queries *)

Module ArchiveQueries.
Import Py PyMax ArchiveManager.

(** [entry.parent_id == agent_id] *)
Definition is_parent (entry : ArchiveEntry) (agent_id : string) : bool :=
  match parent_id entry with
  | Some p => String.eqb p agent_id
  | None => false
  end.

(** [get_descendants].  [depth] is the number of nested calls the
    interpreter still allows; [None] stands for the [RecursionError]
    raised when the calls nest deeper. *)
Fixpoint get_descendants (depth : nat) (a : AgentArchive) (id : string)
    : option (list ArchiveEntry) :=
  match depth with
  | O => None
  | S depth' =>
      foldl (fun descendants entry =>
               match descendants with
               | None => None
               | Some ds =>
                   if is_parent entry id then
                     match get_descendants depth' a (agent_id entry) with
                     | Some sub => Some ((ds ++ [entry]) ++ sub)
                     | None => None
                     end
                   else Some ds
               end)
            (Some []) (values (entries a))
  end.

(** The dictionary [get_statistics] returns. *)
Record Statistics := mkStatistics {
  total_agents : nat;
  generations : Z;
  avg_fitness : Q;
  avg_novelty : Q;
  best_fitness : Q;
  best_novelty : Q
}.

(** [sum(l) / len(l)] *)
Definition mean (l : list Q) : Q :=
  (sum l / inject_Z (Z.of_nat (length l)))%Q.

(** [max(l)] on rationals; 0 stands in for the empty list, on which
    [get_statistics] never calls it. *)
Definition best (l : list Q) : Q :=
  match max_by (fun x => x) l with
  | Some x => x
  | None => 0%Q
  end.

(** [get_statistics] *)
Definition get_statistics (a : AgentArchive) : Statistics :=
  match values (entries a) with
  | [] =>
      {| total_agents := 0; generations := 0; avg_fitness := 0.0; avg_novelty := 0.0;
         best_fitness := 0.0; best_novelty := 0.0 |}
  | e :: es =>
      let fitness_scores := fitness_score <$> (e :: es) in
      let novelty_scores := novelty_score <$> (e :: es) in
      {| total_agents := length (entries a);
         generations := (max_Z (generation e) (generation <$> es) + 1)%Z;
         avg_fitness := mean fitness_scores;
         avg_novelty := mean novelty_scores;
         best_fitness := best fitness_scores;
         best_novelty := best novelty_scores |}
  end.

(** Parent links inside the archive lead to strictly lower ranks, so that
    no chain of parents returns to an agent it has left. *)
Definition ranked (rank : string -> nat) (d : dict ArchiveEntry) : Prop :=
  forall k e p,
    dget k d = Some e -> parent_id e = Some p -> is_Some (dget p d) ->
    (rank p < rank k)%nat.

(** The chain of ancestors from [current_id] upwards: it ends at a null
    or empty id, or at an id the archive does not hold. *)
Inductive ancestry (d : dict ArchiveEntry) : option string -> list ArchiveEntry -> Prop :=
| ancestry_end current_id :
    truthy current_id = false \/ (exists id, current_id = Some id /\ dget id d = None) ->
    ancestry d current_id []
| ancestry_step id entry l :
    truthy (Some id) = true ->
    dget id d = Some entry ->
    ancestry d (parent_id entry) l ->
    ancestry d (Some id) (entry :: l).

(** Every entry ranks strictly below the id it names as its parent. *)
Definition child_ranked (rank : string -> nat) (d : dict ArchiveEntry) : Prop :=
  forall e p, e ∈ values d -> parent_id e = Some p -> (rank (agent_id e) < rank p)%nat.

(** The descendants of an id: its children in the archive, and the
    descendants of each of them. *)
Inductive descends (d : dict ArchiveEntry) : string -> ArchiveEntry -> Prop :=
| descends_child id e :
    e ∈ values d -> is_parent e id = true -> descends d id e
| descends_below id e c :
    e ∈ values d -> is_parent e id = true -> descends d (agent_id e) c ->
    descends d id c.

End ArchiveQueries.

(** ** [archive/agent_archive.py]: loading and the remaining queries *)

Module AgentArchiveQueries.
Import Py AgentArchive.

(** [_load_archive], run by the constructor on an empty [agents]; it
    reads [archive_dir/archive_metadata.json].  The file decodes to
    records, so the handler of a failed load is not entered. *)
Definition _load_archive (a : AgentArchive) (dk : Disk) : AgentArchive :=
  match archive_metadata dk !! archive_dir a with
  | Some (stored, _) =>
      {| archive_dir := archive_dir a;
         agents := foldl (fun d kv => dset kv.1 kv.2 d) (agents a) stored |}
  | None => a
  end.

Definition init (dir : string) (dk : Disk) : AgentArchive :=
  _load_archive {| archive_dir := dir; agents := [] |} dk.

(** [get_valid_agents] *)
Definition get_valid_agents (a : AgentArchive) : list ArchivedAgent :=
  List.filter is_valid (values (agents a)).

(** [get_top_agents] *)
Definition get_top_agents (a : AgentArchive) (n : nat) : list ArchivedAgent :=
  take n (sorted_desc average_score (get_valid_agents a)).

(** [get_agent_children] *)
Definition get_agent_children (a : AgentArchive) (id : string) : list ArchivedAgent :=
  List.filter
    (fun agent => match parent_id agent with
                  | Some p => String.eqb p id
                  | None => false
                  end)
    (values (agents a)).

End AgentArchiveQueries.

(** ** [archive/parent_selector.py]: the other strategies *)

Module Strategies.
Import Py PyMax ArchiveManager.

(** [max(0.01, a.fitness_score)] *)
Definition weight (a : ArchiveEntry) : Q :=
  if lt_bool 0.01 (fitness_score a) then fitness_score a else 0.01%Q.

(** The list [probabilities] of [FitnessProportionalSelection.select]. *)
Definition probabilities (agents : list ArchiveEntry) : list Q :=
  let fitness_sum := sum (weight <$> agents) in
  (fun a => (weight a / fitness_sum)%Q) <$> agents.

Section FitnessProportional.
(** [random.choices(population, weights=weights, k=k)] *)
Variable choices : list ArchiveEntry -> list Q -> nat -> list ArchiveEntry.

(** [FitnessProportionalSelection.select] *)
Definition fitness_proportional_select (archive : AgentArchive) (n_parents : nat)
    : list ArchiveEntry :=
  match get_all_agents archive with
  | [] => []
  | agents => choices agents (probabilities agents) n_parents
  end.
End FitnessProportional.

Section Tournament.
(** [random.sample(population, k)] at the [i]-th draw of a call. *)
Variable sample : nat -> list ArchiveEntry -> nat -> list ArchiveEntry.

(** The loop of [TournamentSelection.select], from draw [i]; [None]
    stands for the [ValueError] of [max] on an empty tournament. *)
Fixpoint tournaments (tournament_size : nat) (agents : list ArchiveEntry)
    (i n_parents : nat) : option (list ArchiveEntry) :=
  match n_parents with
  | O => Some []
  | S n' =>
      let tournament := sample i agents (Nat.min tournament_size (length agents)) in
      match max_by fitness_score tournament with
      | None => None
      | Some winner =>
          match tournaments tournament_size agents (S i) n' with
          | Some rest => Some (winner :: rest)
          | None => None
          end
      end
  end.

(** [TournamentSelection.select] *)
Definition tournament_select (tournament_size : nat) (archive : AgentArchive)
    (n_parents : nat) : option (list ArchiveEntry) :=
  match get_all_agents archive with
  | [] => Some []
  | agents => tournaments tournament_size agents 0 n_parents
  end.
End Tournament.

(** [EliteSelection.select] *)
Definition elite_select (archive : AgentArchive) (n_parents : nat) : list ArchiveEntry :=
  get_top_agents archive n_parents.

(** [NoveltySelection.select] *)
Definition novelty_select (archive : AgentArchive) (n_parents : nat) : list ArchiveEntry :=
  match get_all_agents archive with
  | [] => []
  | agents => take n_parents (sorted_desc novelty_score agents)
  end.

End Strategies.

(** ** Vocabulary for the bounds of the distance *)

Module NoveltyBounds.
Import Py NoveltyCalculator.

(** The accumulated distance never exceeds the number of features
    counted. *)
Definition within (a : acc) : Prop :=
  (0 <= a.1)%Q /\ (a.1 <= inject_Z (Z.of_nat a.2))%Q.

(** Counts and rates are not negative. *)
Definition nonneg_numeric (c : Characteristics) : Prop :=
  forall f v, f ∈ numeric_features -> f c = Some v -> (0 <= v)%Q.

(** The test [entry.agent_path == agent_path] of [calculate_novelty],
    negated. *)
Definition other_path (agent_path : string) (entry : ArchiveManager.ArchiveEntry) : bool :=
  negb (String.eqb (ArchiveManager.agent_path entry) agent_path).

End NoveltyBounds.

(** ** [performance_diagnosis.py]: the suggestions *)

Module PerformanceSuggestions.
Import Py BenchmarkResults.

(** An entry of [improvement_suggestions].  The last one is the string
    [f"Focus on improving {benchmark} performance (current: {score:.2f})"],
    kept as the pair it is formatted from. *)
Inductive suggestion :=
| MajorRefactoring
| ProperToolIntegration
| ComprehensiveErrorHandling
| FasterExecution
| RefactorCodeStructure
| FocusOn (benchmark : string) (score : Q).

(** An entry of [error_handling_issues]: the finding of
    [_analyze_code_structure], or a repeated error of a benchmark. *)
Inductive issue :=
| NoExceptionHandling
| RepeatedError (benchmark error : string) (count : nat).

(** The fields of [DiagnosisReport] that [_analyze_benchmark_failures]
    and [_generate_improvement_suggestions] read or append to. *)
Record Report := mkReport {
  overall_score : Q;
  benchmark_scores : dict Q;
  improvement_suggestions : list suggestion;
  code_structure_issues : list string;
  tool_usage_issues : list string;
  error_handling_issues : list issue;
  timeout_patterns : list (string * nat);
  high_priority_areas : list string
}.

(** [_analyze_benchmark_failures] on the full report: the loop appends
    to [timeout_patterns] and to [error_handling_issues] and reads
    neither. *)
Definition _analyze_benchmark_failures (benchmark_results : BenchmarkResults)
    (report : Report) : Report :=
  let analysed :=
    PerformanceDiagnosis._analyze_benchmark_failures benchmark_results
      {| PerformanceDiagnosis.overall_score := overall_score report;
         PerformanceDiagnosis.benchmark_scores := benchmark_scores report;
         PerformanceDiagnosis.error_handling_issues := [];
         PerformanceDiagnosis.timeout_patterns := timeout_patterns report |} in
  {| overall_score := overall_score report;
     benchmark_scores := benchmark_scores report;
     improvement_suggestions := improvement_suggestions report;
     code_structure_issues := code_structure_issues report;
     tool_usage_issues := tool_usage_issues report;
     error_handling_issues :=
       error_handling_issues report ++
       ((fun i => RepeatedError i.1.1 i.1.2 i.2)
          <$> PerformanceDiagnosis.error_handling_issues analysed);
     timeout_patterns := PerformanceDiagnosis.timeout_patterns analysed;
     high_priority_areas := high_priority_areas report |}.

(** Truthiness of a list. *)
Definition nonempty {A : Type} (l : list A) : bool :=
  match l with [] => false | _ => true end.

(** One [if] of [_generate_improvement_suggestions]: a suggestion, and
    for some a high priority area. *)
Definition note (condition : bool) (s : suggestion) (area : list string)
    (report : Report) : Report :=
  if condition then
    {| overall_score := overall_score report;
       benchmark_scores := benchmark_scores report;
       improvement_suggestions := improvement_suggestions report ++ [s];
       code_structure_issues := code_structure_issues report;
       tool_usage_issues := tool_usage_issues report;
       error_handling_issues := error_handling_issues report;
       timeout_patterns := timeout_patterns report;
       high_priority_areas := high_priority_areas report ++ area |}
  else report.

(** [_generate_improvement_suggestions], with
    [critical_score_threshold = 0.5] and [min_acceptable_score = 0.7]. *)
Definition _generate_improvement_suggestions (report : Report) : Report :=
  let report :=
    note (negb (Qle_bool 0.5 (overall_score report)))
         MajorRefactoring ["Core Algorithm Implementation"] report in
  let report :=
    note (nonempty (tool_usage_issues report))
         ProperToolIntegration ["Tool Integration"] report in
  let report :=
    note (nonempty (error_handling_issues report))
         ComprehensiveErrorHandling ["Error Handling"] report in
  let report :=
    note (nonempty (timeout_patterns report))
         FasterExecution ["Performance Optimization"] report in
  let report :=
    note (nonempty (code_structure_issues report)) RefactorCodeStructure [] report in
  foldl (fun report item =>
           note (negb (Qle_bool 0.7 item.2)) (FocusOn item.1 item.2) [] report)
        report (benchmark_scores report).

(** The last two steps of [diagnose_performance]. *)
Definition diagnose_failures (benchmark_results : BenchmarkResults) (report : Report)
    : Report :=
  _generate_improvement_suggestions
    (_analyze_benchmark_failures benchmark_results report).

End PerformanceSuggestions.

(** ** [self_modification/modification_proposal.py] *)

Module ModificationProposer.
Import Py Implementation PerformanceSuggestions.

(** [self.max_changes_per_proposal] *)
Definition max_changes_per_proposal : nat := 5.

(** The loop "Remove duplicates while preserving order":
    [(seen, unique_priorities)]. *)
Definition see (st : gset string * list string) (item : string)
    : gset string * list string :=
  if bool_decide (item ∈ st.1) then st else ({[ item ]} ∪ st.1, st.2 ++ [item]).

Definition unique (priorities : list string) : list string :=
  (foldl see (∅, []) priorities).2.

(** The same loop by recursion on the list: the items not yet seen, each
    at its first occurrence. *)
Fixpoint first_occurrences (seen : gset string) (l : list string) : list string :=
  match l with
  | [] => []
  | item :: rest =>
      if bool_decide (item ∈ seen) then first_occurrences seen rest
      else item :: first_occurrences ({[ item ]} ∪ seen) rest
  end.

(** The improvements the diagnosis calls for, in the order
    [_prioritize_improvements] appends them. *)
Definition diagnosed (diagnosis : Report) : list string :=
  (if Qle_bool (overall_score diagnosis) 0.5 then
     (if nonempty (tool_usage_issues diagnosis) then ["tool_integration"] else [])
     ++ (if nonempty (error_handling_issues diagnosis) then ["error_handling"] else [])
   else [])
  ++ (if nonempty (timeout_patterns diagnosis) then ["performance_optimization"] else [])
  ++ (if nonempty (code_structure_issues diagnosis) then ["code_structure"] else []).

(** [_prioritize_improvements] *)
Definition _prioritize_improvements (diagnosis : Report)
    (target_improvements : option (list string)) : list string :=
  let priorities :=
    match target_improvements with
    | Some targets => targets
    | None => []
    end in
  let priorities := priorities ++ diagnosed diagnosis in
  take 4 (unique priorities).

(** The second [new_code] of [_propose_tool_integration], four lines. *)
Definition tool_initialization : string :=
  "        # Initialize tools" +:+
  String LF ("        self.tool_registry = ToolRegistry()" +:+
  String LF ("        self.tool_registry.register_tool(BashTool())" +:+
  String LF "        self.tool_registry.register_tool(EditTool())")).

(** [_propose_tool_integration] *)
Definition _propose_tool_integration (priority : Z) : list CodeChange :=
  [ {| file_path := "agent/agent.py";
       change_type := "add";
       description := "Add tool imports";
       priority := priority;
       location := Some "imports";
       old_code := None;
       new_code := Some "from tools import ToolRegistry, BashTool, EditTool";
       line_number := None |};
    {| file_path := "agent/agent.py";
       change_type := "add";
       description := "Initialize tool registry in agent";
       priority := priority;
       location := Some "__init__";
       old_code := None;
       new_code := Some tool_initialization;
       line_number := None |} ].

(** [_propose_error_handling] *)
Definition _propose_error_handling (priority : Z) : list CodeChange :=
  [ {| file_path := "agent/agent.py";
       change_type := "modify";
       description := "Add comprehensive error handling to task execution";
       priority := priority;
       location := Some "execute_task";
       old_code := None;
       new_code := None;
       line_number := None |} ].

(** [_propose_performance_optimization] *)
Definition _propose_performance_optimization (priority : Z) : list CodeChange :=
  [ {| file_path := "agent/agent.py";
       change_type := "modify";
       description := "Convert methods to async for better performance";
       priority := priority;
       location := None;
       old_code := None;
       new_code := None;
       line_number := None |} ].

(** [_propose_code_structure_improvements] *)
Definition _propose_code_structure_improvements (diagnosis : Report) (priority : Z)
    : list CodeChange :=
  (fun issue =>
     {| file_path := "agent/agent.py";
        change_type := "modify";
        description := "Implement " +:+ issue;
        priority := priority;
        location := None;
        old_code := None;
        new_code := None;
        line_number := None |})
  <$> List.filter (fun issue => contains "empty" (lower issue))
        (code_structure_issues diagnosis).

(** [improvement_type in self.improvement_strategies] *)
Definition in_strategies (improvement_type : string) : bool :=
  String.eqb improvement_type "tool_integration"
  || String.eqb improvement_type "error_handling"
  || String.eqb improvement_type "performance_optimization"
  || String.eqb improvement_type "code_structure".

(** [_generate_code_changes] *)
Definition _generate_code_changes (improvement_type : string) (diagnosis : Report)
    (priority : Z) : list CodeChange :=
  if String.eqb improvement_type "tool_integration"
  then _propose_tool_integration priority
  else if String.eqb improvement_type "error_handling"
  then _propose_error_handling priority
  else if String.eqb improvement_type "performance_optimization"
  then _propose_performance_optimization priority
  else if String.eqb improvement_type "code_structure"
  then _propose_code_structure_improvements diagnosis priority
  else [].

(** The loop of [generate_proposal] over
    [enumerate(priorities[:max_changes_per_proposal], priority_num)]. *)
Fixpoint changes_from (diagnosis : Report) (priority_num : Z) (priorities : list string)
    : list CodeChange :=
  match priorities with
  | [] => []
  | improvement_type :: rest =>
      (if in_strategies improvement_type
       then _generate_code_changes improvement_type diagnosis priority_num
       else [])
      ++ changes_from diagnosis (priority_num + 1) rest
  end.

(** The [code_changes] of the proposal that [generate_proposal]
    returns. *)
Definition generated_changes (diagnosis : Report)
    (target_improvements : option (list string)) : list CodeChange :=
  changes_from diagnosis 1
    (take max_changes_per_proposal
       (_prioritize_improvements diagnosis target_improvements)).

(** The shape of a change a strategy proposes with the given priority:
    an addition to [agent/agent.py] that carries its new code, or a
    modification of it that carries no code. *)
Definition well_shaped (priority : Z) (c : CodeChange) : Prop :=
  file_path c = "agent/agent.py"
  /\ Implementation.priority c = priority
  /\ line_number c = None
  /\ old_code c = None
  /\ ((change_type c = "add" /\ exists code, new_code c = Some code /\ code <> "")
      \/ (change_type c = "modify" /\ new_code c = None)).

End ModificationProposer.

(** ** Vocabulary for the application of changes *)

Module Changes.
Import Py Implementation.

(** The changes a dry run refuses: a [modify] or [delete] of a file
    that does not exist. *)
Definition refused_in_dry_run (fs : tree) (change : CodeChange) : bool :=
  (String.eqb (change_type change) "modify" || String.eqb (change_type change) "delete")
  && negb (bool_decide (is_Some (fs !! file_path change))).

(** The dictionary appended to [results['changes_applied']]. *)
Definition summary (change : CodeChange) : string * string * string :=
  (file_path change, change_type change, description change).

(** A text without line feed. *)
Fixpoint one_line (s : string) : bool :=
  match s with
  | EmptyString => true
  | String c s' => negb (Ascii.eqb c LF) && one_line s'
  end.

(** Text on which [Path.read_text] and [Path.write_text] are the
    identity and [str.strip] removes the characters of [is_space] only:
    7-bit ASCII without carriage return.  ([read_text] turns a carriage
    return, alone or before a line feed, into a line feed; [str.strip]
    also removes white space beyond ASCII, such as U+00A0.) *)
Fixpoint plain_text (s : string) : bool :=
  match s with
  | EmptyString => true
  | String c s' =>
      (Ascii.nat_of_ascii c <? 128)%nat && negb (Ascii.nat_of_ascii c =? 13)%nat
      && plain_text s'
  end.

(** The test of the search for [import_line]: a line with text that
    starts neither a comment nor a docstring. *)
Definition is_code_line (line : string) : bool :=
  has_text line && negb (startswith "#" line)
  && negb (startswith (String DQUOTE (String DQUOTE (String DQUOTE EmptyString))) line).

End Changes.

(** ** Vocabulary for the failure counts *)

Module FailureCounts.
Import Py BenchmarkResults.

(** The class [diagnosis.py] files a failing test under. *)
Definition class_of (test : TestResult) : string :=
  Diagnosis._classify_error
    (match error test with Some e => e | None => "Unknown error" end).

(** The failing tests of a benchmark that [diagnosis.py] files under
    [error_type]. *)
Definition count_class (error_type : string) (results : BenchmarkDetail) : nat :=
  length (List.filter (fun test => String.eqb (class_of test) error_type)
            (Diagnosis.failed_tests results)).

(** The failing tests whose message [performance_diagnosis.py] takes for
    a timeout. *)
Definition timeout_count (tests : list TestResult) : nat :=
  length (List.filter
            (fun test => PerformanceDiagnosis.is_failed test
                         && contains "Timeout" (PerformanceDiagnosis.error_of test))
            tests).

End FailureCounts.

(** ** Further example data *)

Module Population.
Import Py.

(** Two records that name each other as parent, as a hand-edited index
    file can hold them. *)
Definition cyclic_manager : ArchiveManager.AgentArchive :=
  {| ArchiveManager.archive_dir := "archive";
     ArchiveManager.max_size := 100;
     ArchiveManager.entries :=
       [Scenarios.mk_entry "ping" (Some "pong") 1; Scenarios.mk_entry "pong" (Some "ping") 1] |}.

(** The generation of the chain grandparent, parent, child. *)
Definition chain_rank (id : string) : nat :=
  if String.eqb id "grandparent" then 0
  else if String.eqb id "parent" then 1
  else if String.eqb id "child" then 2
  else 3.

(** The height above the youngest: children rank below their parent. *)
Definition chain_height (id : string) : nat :=
  if String.eqb id "grandparent" then 2
  else if String.eqb id "parent" then 1
  else if String.eqb id "child" then 0
  else 3.

(** A fourth generation below the chain of [Scenarios.chain_archive]. *)
Definition newborn_add :=
  AgentArchive.add_agent Scenarios.chain_archive Scenarios.seed_disk
    "work/a.py" (Some "child") (Some [("suite", 0.8%Q); ("extra", 0.4%Q)]) true None
    "newborn" "t1" "t2".

(** Three failing cases, two of them with a syntax error. *)
Definition broken (msg : string) : BenchmarkResults.TestResult :=
  {| BenchmarkResults.passed := Some false; BenchmarkResults.error := Some msg |}.

Definition flaky_detail : BenchmarkResults.BenchmarkDetail :=
  {| BenchmarkResults.test_results :=
       Some [broken "SyntaxError: invalid syntax"; Scenarios.passing;
             broken "Timeout after 30s"; broken "invalid syntax near line 3"] |}.

Definition flaky_results : BenchmarkResults.BenchmarkResults :=
  {| BenchmarkResults.detailed_results :=
       Some [("steady", Scenarios.steady_detail); ("flaky", flaky_detail)] |}.

(** The fresh report when [steady] scores 0.6 and [flaky] 0.2. *)
Definition flaky_report : Diagnosis.DiagnosisReport :=
  {| Diagnosis.overall_score := 0.4;
     Diagnosis.benchmark_scores := [("steady", 0.6%Q); ("flaky", 0.2%Q)];
     Diagnosis.failed_test_patterns := [];
     Diagnosis.timeout_patterns := [] |}.

(** The report of [diagnose_performance] before the benchmark failures
    are analysed, for an agent without tool imports. *)
Definition structure_report : PerformanceSuggestions.Report :=
  {| PerformanceSuggestions.overall_score := 0.4;
     PerformanceSuggestions.benchmark_scores := [("steady", 0.4%Q); ("quick", 0.9%Q)];
     PerformanceSuggestions.improvement_suggestions := [];
     PerformanceSuggestions.code_structure_issues := ["Found empty method implementations"];
     PerformanceSuggestions.tool_usage_issues := ["No tool implementations found"];
     PerformanceSuggestions.error_handling_issues := [];
     PerformanceSuggestions.timeout_patterns := [];
     PerformanceSuggestions.high_priority_areas := [] |}.

(** A module with a comment line before its first statement. *)
Definition commented_tree : gmap string string :=
  {[ "agent/agent.py" := "# agent" +:+ String Implementation.LF "x = 1" ]}.

(** The import the proposer adds for the tools. *)
Definition change_import : Implementation.CodeChange :=
  {| Implementation.file_path := "agent/agent.py";
     Implementation.change_type := "add";
     Implementation.description := "Add tool imports";
     Implementation.priority := 1;
     Implementation.location := Some "imports";
     Implementation.old_code := None;
     Implementation.new_code := Some "from tools import ToolRegistry, BashTool, EditTool";
     Implementation.line_number := None |}.

(** The removal of [agent/tools.py]. *)
Definition change_remove : Implementation.CodeChange :=
  {| Implementation.file_path := "agent/tools.py";
     Implementation.change_type := "delete";
     Implementation.description := "remove tools";
     Implementation.priority := 3;
     Implementation.location := None;
     Implementation.old_code := None;
     Implementation.new_code := None;
     Implementation.line_number := None |}.

(** A disk that refuses every write. *)
Definition read_only : gmap string string -> Implementation.CodeChange -> option string :=
  fun _ _ => Some "Permission denied".

(** A parser that rejects the text [def (]. *)
Definition strict_parse (s : string) : Implementation.parsed :=
  if String.eqb s "def (" then Implementation.SyntaxError "invalid syntax"
  else Implementation.ParseOk.

(** An [add] that creates a file the parser rejects. *)
Definition change_broken : Implementation.CodeChange :=
  {| Implementation.file_path := "agent/broken.py";
     Implementation.change_type := "add";
     Implementation.description := "add broken";
     Implementation.priority := 1;
     Implementation.location := None;
     Implementation.old_code := None;
     Implementation.new_code := Some "def (";
     Implementation.line_number := None |}.

(** A diagnosis with timeouts and empty methods, scoring above 0.5. *)
Definition slow_report : PerformanceSuggestions.Report :=
  {| PerformanceSuggestions.overall_score := 0.6;
     PerformanceSuggestions.benchmark_scores := [("steady", 0.6%Q)];
     PerformanceSuggestions.improvement_suggestions := [];
     PerformanceSuggestions.code_structure_issues :=
       ["Empty method found: run"; "Failed to parse agent code - possible syntax issues"];
     PerformanceSuggestions.tool_usage_issues := ["No tool implementations found"];
     PerformanceSuggestions.error_handling_issues := [];
     PerformanceSuggestions.timeout_patterns := [("steady", 4%nat)];
     PerformanceSuggestions.high_priority_areas := [] |}.

End Population.

(** * Theorems *)

(** ** Facts about the Python building blocks *)

Module PyFacts.
Import Py.

Section Sorted.
Context {A : Type} (before : A -> A -> bool).
Hypothesis before_total : forall x y, before x y = false -> before y x = true.
Hypothesis before_trans :
  forall x y z, before x y = true -> before y z = true -> before x z = true.

Lemma insert_stable_perm x l : insert_stable before x l ≡ₚ x :: l.
Proof.
  induction l as [|y l IH]; simpl; [done|].
  destruct (before x y); [done|].
  rewrite IH. apply Permutation_swap.
Qed.

Lemma py_sorted_perm l : py_sorted before l ≡ₚ l.
Proof.
  induction l as [|x l IH]; simpl; [done|].
  rewrite insert_stable_perm. by rewrite IH.
Qed.

Lemma insert_stable_sorted x l :
  StronglySorted (fun a b => before a b = true) l ->
  StronglySorted (fun a b => before a b = true) (insert_stable before x l).
Proof using before_total before_trans.
  induction 1 as [|y l Hs IH Hy]; simpl.
  - repeat constructor.
  - destruct (before x y) eqn:E.
    + constructor; [by constructor|].
      constructor; [done|].
      eapply Forall_impl; [exact Hy|]. intros z Hz. eauto.
    + constructor; [done|].
      rewrite insert_stable_perm. constructor; [|done].
      by apply before_total.
Qed.

Lemma py_sorted_sorted l :
  StronglySorted (fun a b => before a b = true) (py_sorted before l).
Proof using before_total before_trans.
  induction l as [|x l IH]; simpl; [constructor|].
  by apply insert_stable_sorted.
Qed.
End Sorted.

Lemma py_sorted_ext {A} (before1 before2 : A -> A -> bool) l :
  (forall x y, before1 x y = before2 x y) ->
  py_sorted before1 l = py_sorted before2 l.
Proof.
  intros Hext. induction l as [|x l IH]; [done|]. cbn [py_sorted foldr].
  fold (py_sorted before1 l). fold (py_sorted before2 l). rewrite IH.
  generalize (py_sorted before2 l). intros s.
  induction s as [|y s IHs]; [done|]. cbn [insert_stable].
  by rewrite Hext, IHs.
Qed.

Lemma length_py_sorted {A} (before : A -> A -> bool) l :
  length (py_sorted before l) = length l.
Proof. apply Permutation_length, py_sorted_perm. Qed.

Lemma StronglySorted_app_cross {A} (R : A -> A -> Prop) l1 l2 :
  StronglySorted R (l1 ++ l2) ->
  forall x y, x ∈ l1 -> y ∈ l2 -> R x y.
Proof.
  induction l1 as [|a l1 IH]; simpl; intros Hs x y Hx Hy.
  - by apply elem_of_nil in Hx.
  - apply StronglySorted_inv in Hs as [Hs Ha].
    apply elem_of_cons in Hx as [->|Hx].
    + rewrite Forall_forall in Ha. apply Ha. apply elem_of_app. by right.
    + by apply IH.
Qed.

Lemma elem_of_take_full {A} (n : nat) (l : list A) x : x ∈ take n l -> x ∈ l.
Proof.
  intros H. rewrite <- (take_drop n l). apply elem_of_app. by left.
Qed.

Lemma StronglySorted_mono {A} (R S : A -> A -> Prop) l :
  (forall x y, R x y -> S x y) -> StronglySorted R l -> StronglySorted S l.
Proof.
  intros HRS. induction 1 as [|x l Hs IH Hx]; constructor; [done|].
  eapply Forall_impl; [exact Hx|]. intros y. apply HRS.
Qed.

Lemma sorted_desc_perm {A} (key : A -> Q) l : sorted_desc key l ≡ₚ l.
Proof. apply py_sorted_perm. Qed.

Lemma sorted_desc_sorted {A} (key : A -> Q) l :
  StronglySorted (fun a b => (key b <= key a)%Q) (sorted_desc key l).
Proof.
  unfold sorted_desc.
  eapply StronglySorted_mono; last first.
  - apply py_sorted_sorted.
    + intros x y H. apply Qle_bool_iff.
      destruct (Qle_bool (key y) (key x)) eqn:E; [done|].
      destruct (Qlt_le_dec (key x) (key y)) as [Hlt|Hle].
      * by apply Qlt_le_weak.
      * apply Qle_bool_iff in Hle. congruence.
    + intros x y z H1 H2. apply Qle_bool_iff.
      apply Qle_bool_iff in H1, H2. eapply Qle_trans; eassumption.
  - intros x y H. by apply Qle_bool_iff in H.
Qed.

Lemma sorted_asc_perm l : sorted_asc l ≡ₚ l.
Proof. apply py_sorted_perm. Qed.


(** *** Filters *)
Lemma filter_ext_in {A} (P Q : A -> Prop)
    `{!forall x, Decision (P x), !forall x, Decision (Q x)} (l : list A) :
  (forall x, x ∈ l -> P x <-> Q x) -> filter P l = filter Q l.
Proof.
  induction l as [|a l IH]; intros Hl; [done|].
  rewrite !filter_cons.
  assert (Ha : P a <-> Q a) by (apply Hl, elem_of_cons; by left).
  rewrite IH by (intros x Hx; apply Hl, elem_of_cons; by right).
  destruct (decide (P a)), (decide (Q a)); tauto || done.
Qed.

Lemma filter_all {A} (P : A -> Prop) `{!forall x, Decision (P x)} (l : list A) :
  (forall x, x ∈ l -> P x) -> filter P l = l.
Proof.
  induction l as [|a l IH]; intros Hl; [done|].
  rewrite filter_cons, decide_True by (apply Hl, elem_of_cons; by left).
  rewrite IH; [done|]. intros x Hx. apply Hl, elem_of_cons. by right.
Qed.

Lemma filter_none {A} (P : A -> Prop) `{!forall x, Decision (P x)} (l : list A) :
  (forall x, x ∈ l -> ~ P x) -> filter P l = [].
Proof.
  induction l as [|a l IH]; intros Hl; [done|].
  rewrite filter_cons, decide_False by (apply Hl, elem_of_cons; by left).
  apply IH. intros x Hx. apply Hl, elem_of_cons. by right.
Qed.

(** *** Dictionaries *)
Section Dict.
Context {V : Type}.
Implicit Types d : dict V.

Lemma ddel_filter k d : ddel k d = filter (fun p => p.1 ≠ k) d.
Proof.
  induction d as [|[k' v] d IH]; [done|].
  cbn [ddel]. rewrite filter_cons. cbn [fst].
  destruct (String.eqb_spec k' k) as [->|Hne].
  - by rewrite decide_False by (intros H; by apply H).
  - rewrite decide_True by done. by rewrite IH.
Qed.

Lemma dget_None k d : dget k d = None <-> k ∉ keys d.
Proof.
  unfold keys. induction d as [|[k' v] d IH]; simpl.
  - split; [intros _; apply not_elem_of_nil|done].
  - destruct (String.eqb_spec k' k) as [->|Hne].
    + split; [done|]. intros H. exfalso. apply H. apply elem_of_cons. by left.
    + rewrite IH, not_elem_of_cons.
      split; [intros ?; split; [congruence|done]|intros [_ ?]; done].
Qed.

Lemma dget_Some_elem k v d : dget k d = Some v -> (k, v) ∈ d.
Proof.
  induction d as [|[k' v'] d IH]; simpl; [done|].
  destruct (String.eqb_spec k' k) as [->|Hne].
  - intros [= ->]. apply elem_of_cons. by left.
  - intros H. apply elem_of_cons. right. by apply IH.
Qed.

Lemma dget_elem k v d : dict_wf d -> (k, v) ∈ d -> dget k d = Some v.
Proof.
  unfold dict_wf, keys. induction d as [|[k' v'] d IH]; simpl.
  - intros _ H. by apply elem_of_nil in H.
  - rewrite NoDup_cons. intros [Hk Hd] H.
    apply elem_of_cons in H as [[= -> ->]|H].
    + by rewrite String.eqb_refl.
    + destruct (String.eqb_spec k' k) as [->|Hne]; [|by apply IH].
      exfalso. apply Hk. apply list_elem_of_fmap. by exists (k, v).
Qed.

Lemma keys_dset k v d :
  keys (dset k v d) = if decide (k ∈ keys d) then keys d else keys d ++ [k].
Proof.
  unfold keys. induction d as [|[k' v'] d IH].
  - case_decide as H; [by apply elem_of_nil in H|done].
  - cbn [dset]. destruct (String.eqb_spec k' k) as [->|Hne].
    + clear IH. case_decide as H; [done|].
      exfalso. apply H. apply elem_of_cons. by left.
    + rewrite !fmap_cons, IH. cbn [fst].
      destruct (decide (k ∈ d.*1)) as [Hin|Hnin];
        destruct (decide (k ∈ k' :: d.*1)) as [Hin'|Hnin']; try done.
      * exfalso. apply Hnin'. apply elem_of_cons. by right.
      * exfalso. apply elem_of_cons in Hin' as [?|?]; by subst.
Qed.

Lemma dset_fresh k v d : k ∉ keys d -> dset k v d = d ++ [(k, v)].
Proof.
  unfold keys. induction d as [|[k' v'] d IH]; simpl; [done|].
  rewrite not_elem_of_cons. intros [Hne Hnin].
  destruct (String.eqb_spec k' k) as [->|_]; [done|]. by rewrite IH.
Qed.

Lemma dict_wf_dset k v d : dict_wf d -> dict_wf (dset k v d).
Proof.
  unfold dict_wf. rewrite keys_dset. intros Hd.
  destruct (decide (k ∈ keys d)); [done|].
  apply NoDup_app. split_and!; [done| |apply NoDup_singleton].
  intros x Hx Hx'. apply list_elem_of_singleton in Hx' as ->. done.
Qed.

Lemma dget_dset k v d : dget k (dset k v d) = Some v.
Proof.
  induction d as [|[k' v'] d IH]; simpl.
  - by rewrite String.eqb_refl.
  - destruct (String.eqb_spec k' k) as [->|Hne]; simpl.
    + by rewrite String.eqb_refl.
    + destruct (String.eqb_spec k' k); [done|]. apply IH.
Qed.

Lemma dget_dset_ne k k' v d : k ≠ k' -> dget k' (dset k v d) = dget k' d.
Proof.
  intros Hne. induction d as [|[k0 v0] d IH]; simpl.
  - destruct (String.eqb_spec k k'); [done|done].
  - destruct (String.eqb_spec k0 k) as [->|Hne0]; simpl.
    + destruct (String.eqb_spec k k'); [done|done].
    + by rewrite IH.
Qed.

Lemma length_dset k v d : length (dset k v d) <= S (length d).
Proof.
  induction d as [|[k0 v0] d IH]; cbn [dset]; [cbn; lia|].
  destruct (String.eqb k0 k); cbn [length]; lia.
Qed.

Lemma dget_ddel_ne k k' d : k ≠ k' -> dget k' (ddel k d) = dget k' d.
Proof.
  intros Hne. induction d as [|[k0 v0] d IH]; [done|]. cbn [ddel dget].
  destruct (String.eqb_spec k0 k) as [->|Hne0].
  - destruct (String.eqb_spec k k'); [done|apply IH].
  - cbn [dget]. by rewrite IH.
Qed.

Lemma elem_of_dset k v d p : p ∈ dset k v d -> p = (k, v) \/ p ∈ d.
Proof.
  induction d as [|[k0 v0] d IH]; cbn [dset].
  - intros ->%list_elem_of_singleton. by left.
  - destruct (String.eqb_spec k0 k) as [->|Hne0].
    + intros [->|?]%elem_of_cons; [by left|]. right. apply elem_of_cons. by right.
    + intros [->|?]%elem_of_cons.
      * right. apply elem_of_cons. by left.
      * destruct IH as [?|?]; [done|by left|]. right. apply elem_of_cons. by right.
Qed.
End Dict.

Lemma foldl_ext_in {A B} (f g : A -> B -> A) (l : list B) (a : A) :
  (forall x b, x ∈ l -> f b x = g b x) -> foldl f a l = foldl g a l.
Proof.
  revert a. induction l as [|x l IH]; intros a H; [done|]. cbn [foldl].
  rewrite H by (apply elem_of_cons; by left).
  apply IH. intros y b Hy. apply H, elem_of_cons. by right.
Qed.

End PyFacts.

(** ** The archive of [archive_manager.py] *)

Module ArchiveManagerFacts.
Import Py PyFacts ArchiveManager Scenarios.

Lemma archive_wf_id (d : dict ArchiveEntry) k e :
  archive_wf d -> (k, e) ∈ d -> agent_id e = k.
Proof.
  intros [_ H] Hin. rewrite Forall_forall in H. exact (H (k, e) Hin).
Qed.

Lemma removal_loop_entries (kept : gset string) ks (d : dict ArchiveEntry) fs :
  (foldl (remove_unless_kept kept) (d, fs) ks).1
  = filter (fun p => p.1 ∈ kept \/ p.1 ∉ ks) d.
Proof.
  revert d fs. induction ks as [|k ks IH]; intros d fs.
  - cbn [foldl fst]. symmetry. apply filter_all.
    intros p _. right. apply not_elem_of_nil.
  - cbn [foldl]. unfold remove_unless_kept at 2. cbn [fst snd].
    case_bool_decide as Hk.
    + rewrite IH. apply filter_ext_in. intros p _.
      rewrite not_elem_of_cons. split.
      * intros [?|?]; [by left|].
        destruct (decide (p.1 = k)) as [->|]; [by left|by right].
      * intros [?|[_ ?]]; [by left|by right].
    + assert (Hdel : filter (fun p => p.1 ∈ kept \/ p.1 ∉ ks) (ddel k d)
                     = filter (fun p => p.1 ∈ kept \/ p.1 ∉ k :: ks) d).
      { rewrite ddel_filter, list_filter_filter. apply filter_ext_in. intros p _.
        rewrite not_elem_of_cons. split.
        - intros [[?|?] ?]; [by left|by right].
        - intros [Hin|[? ?]]; (split; [by (left + right)|]); [|done].
          intros Heq. by rewrite Heq in Hin. }
      destruct (dget k d) as [e|] eqn:Hget.
      * by rewrite IH.
      * rewrite IH, <- Hdel. f_equal. rewrite ddel_filter.
        symmetry. apply filter_all. intros p Hp Heq.
        apply dget_None in Hget. apply Hget. rewrite <- Heq.
        by apply list_elem_of_fmap_2.
Qed.

Lemma filter_all_keys (kept : gset string) (d : dict ArchiveEntry) :
  filter (fun p => p.1 ∈ kept \/ p.1 ∉ keys d) d = filter (fun p => p.1 ∈ kept) d.
Proof.
  apply filter_ext_in. intros p Hp. split; [|by left].
  intros [?|Hn]; [done|]. exfalso. apply Hn. by apply list_elem_of_fmap_2.
Qed.

Lemma wf_ids (d : dict ArchiveEntry) :
  archive_wf d -> agent_id <$> values d = keys d.
Proof.
  intros [_ Hid]. unfold values, keys. rewrite <- list_fmap_compose.
  apply Forall_fmap_ext. exact Hid.
Qed.

Lemma values_filter_kept (kept : gset string) (d : dict ArchiveEntry) :
  archive_wf d ->
  values (filter (fun p => p.1 ∈ kept) d)
  = filter (fun e => agent_id e ∈ kept) (values d).
Proof.
  intros [_ Hid]. unfold values. induction d as [|[k e] d IH]; [done|].
  apply Forall_cons in Hid as [Hk Hid]. cbn in Hk.
  rewrite fmap_cons, !filter_cons. cbn [fst snd]. rewrite Hk.
  rewrite <- IH by done.
  by destruct (decide (k ∈ kept)).
Qed.

(** Among records with distinct ids, the records whose id is the id of
    one of the first [m] are those first [m]. *)
Lemma filter_kept_app (t r : list ArchiveEntry) :
  NoDup (agent_id <$> (t ++ r)) ->
  filter (fun e => agent_id e ∈ (list_to_set (agent_id <$> t) : gset string)) (t ++ r)
  = t.
Proof.
  rewrite fmap_app. intros (_ & Hdisj & _)%NoDup_app.
  rewrite filter_app, filter_all, filter_none, app_nil_r; [done| |].
  - intros e He Hin. apply elem_of_list_to_set in Hin.
    apply (Hdisj (agent_id e)); [done|]. by apply list_elem_of_fmap_2.
  - intros e He. apply elem_of_list_to_set. by apply list_elem_of_fmap_2.
Qed.


Lemma enforce_under a fs :
  length (entries a) <= max_size a -> _enforce_size_limit a fs = (a, fs).
Proof.
  intros H. unfold _enforce_size_limit.
  by rewrite (proj2 (Nat.leb_le _ _) H).
Qed.

Lemma enforce_over_entries a fs :
  max_size a < length (entries a) ->
  entries (_enforce_size_limit a fs).1
  = filter (fun p => p.1 ∈ kept_ids_of a) (entries a).
Proof.
  intros H. unfold _enforce_size_limit.
  rewrite (proj2 (Nat.leb_gt _ _) H). cbn [fst entries with_entries].
  by rewrite removal_loop_entries, filter_all_keys.
Qed.

Lemma enforce_over_values a fs :
  archive_wf (entries a) ->
  max_size a < length (entries a) ->
  values (entries (_enforce_size_limit a fs).1)
  ≡ₚ take (max_size a) (sorted_desc combined (values (entries a))).
Proof.
  intros Hwf H. rewrite enforce_over_entries by done.
  rewrite values_filter_kept by done.
  set (sorted := sorted_desc combined (values (entries a))).
  assert (Hperm : sorted ≡ₚ values (entries a)) by apply sorted_desc_perm.
  assert (Hnd : NoDup (agent_id <$> (take (max_size a) sorted
                                       ++ drop (max_size a) sorted))).
  { rewrite take_drop, Hperm, wf_ids by done. apply Hwf. }
  apply filter_kept_app in Hnd. rewrite take_drop in Hnd.
  rewrite <- Hperm. unfold kept_ids_of. fold sorted. by rewrite Hnd.
Qed.

Lemma enforce_max_size a fs : max_size (_enforce_size_limit a fs).1 = max_size a.
Proof. unfold _enforce_size_limit. by destruct (_ <=? _)%nat. Qed.

Lemma enforce_archive_dir a fs :
  archive_dir (_enforce_size_limit a fs).1 = archive_dir a.
Proof. unfold _enforce_size_limit. by destruct (_ <=? _)%nat. Qed.

Lemma enforce_length a fs :
  archive_wf (entries a) ->
  length (entries (_enforce_size_limit a fs).1)
  = Nat.min (max_size a) (length (entries a)).
Proof.
  intros Hwf. destruct (Nat.le_gt_cases (length (entries a)) (max_size a)) as [H|H].
  - rewrite enforce_under by done. cbn. lia.
  - rewrite <- (length_fmap snd). fold (values (entries (_enforce_size_limit a fs).1)).
    rewrite enforce_over_values by done.
    rewrite length_take. unfold sorted_desc. rewrite length_py_sorted.
    unfold values. by rewrite length_fmap.
Qed.

Lemma enforce_wf a fs :
  archive_wf (entries a) -> archive_wf (entries (_enforce_size_limit a fs).1).
Proof.
  intros Hwf. destruct (Nat.le_gt_cases (length (entries a)) (max_size a)) as [H|H].
  - by rewrite enforce_under.
  - rewrite enforce_over_entries by done. destruct Hwf as [Hnd Hid]. split.
    + unfold dict_wf, keys in *. eapply sublist_NoDup; [exact Hnd|].
      apply fmap_sublist, sublist_filter.
    + rewrite Forall_forall in Hid. apply Forall_forall.
      intros p Hin. apply list_elem_of_filter in Hin as [_ Hin]. by apply Hid.
Qed.

Lemma removal_loop_files (kept : gset string) ks (d : dict ArchiveEntry) fs :
  NoDup ks ->
  (foldl (remove_unless_kept kept) (d, fs) ks).2
  = foldl (unlink_unless_kept kept d) fs ks.
Proof.
  revert d fs. induction ks as [|k ks IH]; intros d fs Hnd; [done|].
  apply NoDup_cons in Hnd as [Hk Hnd]. cbn [foldl].
  unfold remove_unless_kept at 2, unlink_unless_kept at 2. cbn [fst snd].
  case_bool_decide as Hkept; [by apply IH|].
  destruct (dget k d) as [e|] eqn:Hget; [|by apply IH].
  rewrite IH by done. apply foldl_ext_in. intros k' fs' Hk'.
  unfold unlink_unless_kept. rewrite dget_ddel_ne; [done|]. by intros ->.
Qed.

Lemma unlink_loop_lookup (kept : gset string) (d d' : dict ArchiveEntry) fs path :
  (forall p, p ∈ d' -> dget p.1 d = Some p.2) ->
  foldl (unlink_unless_kept kept d) fs (keys d') !! path
  = if decide (path ∈ (agent_path ∘ snd) <$> filter (fun p => p.1 ∉ kept) d')
    then None else fs !! path.
Proof.
  revert fs. induction d' as [|[k e] d' IH]; intros fs Hd'.
  - cbn. by rewrite decide_False by apply not_elem_of_nil.
  - unfold keys. rewrite fmap_cons. cbn [foldl fst]. fold (keys d').
    rewrite IH by (intros p Hp; apply Hd', elem_of_cons; by right).
    rewrite filter_cons. cbn [fst]. unfold unlink_unless_kept.
    assert (Hke : dget k d = Some e) by (apply (Hd' (k, e)), elem_of_cons; by left).
    rewrite Hke.
    case_bool_decide as Hkept; destruct (decide (k ∉ kept)) as [Hn|Hn];
      [done|done| |done].
    rewrite fmap_cons. cbn [compose snd].
    destruct (decide (path ∈ (agent_path ∘ snd) <$> filter (fun p => p.1 ∉ kept) d'))
      as [Hin|Hnin].
    + rewrite decide_True; [done|]. apply elem_of_cons. by right.
    + destruct (decide (path = agent_path e)) as [->|Hne].
      * rewrite decide_True by (apply elem_of_cons; by left).
        apply lookup_delete_eq.
      * rewrite decide_False by (rewrite not_elem_of_cons; done).
        by apply lookup_delete_ne.
Qed.

Lemma enforce_over_files a fs path :
  archive_wf (entries a) ->
  max_size a < length (entries a) ->
  (_enforce_size_limit a fs).2 !! path
  = if decide (path ∈ (agent_path ∘ snd)
                 <$> filter (fun p => p.1 ∉ kept_ids_of a) (entries a))
    then None else fs !! path.
Proof.
  intros [Hnd Hid] H. unfold _enforce_size_limit.
  rewrite (proj2 (Nat.leb_gt _ _) H). cbn [snd].
  rewrite removal_loop_files by apply Hnd.
  apply unlink_loop_lookup. intros [k e] Hp. by apply dget_elem.
Qed.

Lemma archive_wf_dset (d : dict ArchiveEntry) e :
  archive_wf d -> archive_wf (dset (agent_id e) e d).
Proof.
  intros [Hnd Hid]. split; [by apply dict_wf_dset|].
  rewrite Forall_forall in Hid. apply Forall_forall. intros p Hp.
  apply elem_of_dset in Hp as [->|Hp]; [done|by apply Hid].
Qed.

Lemma load_wf a dk : archive_wf (entries a) -> archive_wf (entries (_load_archive a dk)).
Proof.
  unfold _load_archive. destruct (index_json dk !! archive_dir a) as [[l now]|]; [|done].
  cbn [entries with_entries]. generalize (entries a). clear a.
  induction l as [|e l IH]; intros d Hwf; [done|].
  cbn [foldl]. by apply IH, archive_wf_dset.
Qed.

Lemma init_wf dir m dk : archive_wf (entries (init dir m dk)).
Proof. apply load_wf. split; [apply NoDup_nil_2|apply Forall_nil_2]. Qed.

Lemma init_max_size dir m dk : max_size (init dir m dk) = m.
Proof.
  unfold init, _load_archive. cbn [archive_dir].
  by destruct (index_json dk !! dir) as [[? ?]|].
Qed.

Section AddAgent.
Variable sha256_hex16 : string -> string.

Lemma add_agent_inv a dk path parent fitness novelty results mods meta
    now_id now_ts now_save id a' dk' :
  add_agent sha256_hex16 a dk path parent fitness novelty results mods meta
            now_id now_ts now_save = inr (id, a', dk') ->
  exists content,
    files dk !! path = Some content
    /\ id = sha256_hex16 (content +:+ now_id)
    /\ let entry := new_entry a id parent fitness novelty results mods meta now_ts in
       let r := _enforce_size_limit
                  (with_entries a (dset id entry (entries a)))
                  (<[agent_path entry := content]> (files dk)) in
       a' = r.1
       /\ dk' = {| files := r.2;
                   index_json := <[archive_dir a := (values (entries r.1), now_save)]>
                                   (index_json dk) |}.
Proof.
  unfold add_agent, _generate_agent_id.
  destruct (files dk !! path) as [content|] eqn:Hfile; [|done].
  match goal with |- context [_enforce_size_limit ?x ?y] =>
    pose proof (enforce_archive_dir x y) as Hdir;
    destruct (_enforce_size_limit x y) as [a2 fs2] eqn:Henf end.
  cbn [fst with_entries archive_dir] in Hdir.
  intros [= <- <- <-]. exists content. split; [done|]. split; [done|].
  cbn zeta. unfold new_entry. cbn [agent_path].
  rewrite Henf. cbn [fst snd]. split; [done|].
  unfold _save_archive. cbn [files index_json]. by rewrite Hdir.
Qed.

Lemma reachable_wf m a :
  reachable sha256_hex16 m a -> archive_wf (entries a) /\ max_size a = m.
Proof.
  induction 1 as [dir dk|a dk path parent fitness novelty results mods meta
                         now_id now_ts now_save id a' dk' Hr [IHwf IHm] Hadd].
  - split; [apply init_wf|apply init_max_size].
  - apply add_agent_inv in Hadd as (content & _ & _ & Ha' & _).
    rewrite Ha'. split.
    + apply enforce_wf. cbn [entries with_entries].
      by apply (archive_wf_dset _ (new_entry a id parent fitness novelty results
                                     mods meta now_ts)).
    + by rewrite enforce_max_size.
Qed.

(** C10: in an archive constructed with maximum size [m] and changed
    by any sequence of [add_agent] calls, a call of [add_agent] that
    returns leaves at most [m] entries; when the archive was full, the
    id is new and the new agent's [fitness + novelty] is strictly below
    every stored agent's, the returned id is no longer in the archive. *)
Theorem add_agent_keeps_size_limit m a dk path parent fitness novelty results
    mods meta now_id now_ts now_save id a' dk' :
  reachable sha256_hex16 m a ->
  add_agent sha256_hex16 a dk path parent fitness novelty results mods meta
            now_id now_ts now_save = inr (id, a', dk') ->
  length (entries a') <= m
  /\ (length (entries a) = m ->
      id ∉ keys (entries a) ->
      (forall e, e ∈ values (entries a) -> (fitness + novelty < combined e)%Q) ->
      get_agent a' id = None).
Proof.
  intros Hr Hadd. destruct (reachable_wf _ _ Hr) as [Hwf Hm].
  apply add_agent_inv in Hadd as (content & _ & _ & Ha' & _).
  set (entry := new_entry a id parent fitness novelty results mods meta now_ts) in *.
  set (a1 := with_entries a (dset id entry (entries a))) in *.
  assert (Hwf1 : archive_wf (entries a1)) by by apply (archive_wf_dset _ entry).
  split.
  - rewrite Ha', enforce_length by done. cbn [max_size a1 with_entries]. lia.
  - intros Hfull Hfresh Hlow.
    assert (Hd1 : entries a1 = entries a ++ [(id, entry)]) by by apply dset_fresh.
    assert (Hover : max_size a1 < length (entries a1)).
    { rewrite Hd1, length_app. cbn. lia. }
    unfold get_agent. apply dget_None. rewrite Ha', enforce_over_entries by done.
    intros Hin. apply list_elem_of_fmap in Hin as ([k e] & Hke & Hin).
    apply list_elem_of_filter in Hin as [Hkept _]. cbn [fst] in *. subst k.
    apply elem_of_list_to_set, list_elem_of_fmap in Hkept as (e' & Hk & He').
    pose proof (sorted_desc_sorted combined (values (entries a1))) as Hsorted.
    pose proof (sorted_desc_perm combined (values (entries a1))) as Hall.
    set (sorted := sorted_desc combined (values (entries a1))) in *.
    assert (Hnd : NoDup (agent_id <$> sorted)).
    { rewrite Hall, wf_ids by done. apply Hwf1. }
    rewrite <- (take_drop (max_size a1) sorted) in Hsorted, Hnd.
    assert (Hvals : values (entries a1) = values (entries a) ++ [entry]).
    { unfold values. by rewrite Hd1, fmap_app. }
    assert (He'eq : e' = entry).
    { assert (e' ∈ values (entries a1)) as Hv.
      { rewrite <- Hall. by apply (elem_of_take_full (max_size a1)). }
      rewrite Hvals in Hv. apply elem_of_app in Hv as [Hv|Hv].
      - exfalso. apply Hfresh. rewrite <- (wf_ids _ Hwf), Hk.
        by apply list_elem_of_fmap_2.
      - by apply list_elem_of_singleton in Hv. }
    subst e'.
    assert (Hlen : length (drop (max_size a1) sorted) = 1).
    { rewrite length_drop. unfold sorted, sorted_desc. rewrite length_py_sorted.
      unfold values. rewrite length_fmap, Hd1, length_app. cbn. lia. }
    destruct (drop (max_size a1) sorted) as [|x [|? ?]] eqn:Hdrop; try done.
    assert (Hx : x ∈ values (entries a)).
    { assert (x ∈ values (entries a1)) as Hv.
      { rewrite <- Hall, <- (take_drop (max_size a1) sorted), Hdrop.
        apply elem_of_app. right. by apply list_elem_of_singleton. }
      rewrite Hvals in Hv. apply elem_of_app in Hv as [Hv|Hv]; [done|].
      apply list_elem_of_singleton in Hv as ->. exfalso.
      rewrite fmap_app in Hnd. apply NoDup_app in Hnd as (_ & Hdisj & _).
      apply (Hdisj (agent_id entry)); [by apply list_elem_of_fmap_2|].
      cbn. apply elem_of_cons. by left. }
    assert (Hle : (combined x <= combined entry)%Q).
    { apply (StronglySorted_app_cross _ _ _ Hsorted); [done|].
      by apply list_elem_of_singleton. }
    apply Hlow in Hx. apply (Qlt_not_le _ _ Hx). exact Hle.
Qed.
End AddAgent.

Lemma add_agent_keeps_size_limit_witness :
  exists id a' dk',
    add_agent demo_digest full_archive full_disk
      "work/b.py" None 0.1 0 [] [] None "t4" "t5" "t6" = inr (id, a', dk')
    /\ length (entries a') <= 1
    /\ get_agent a' id = None.
Proof.
  destruct (add_agent demo_digest full_archive full_disk
              "work/b.py" None 0.1 0 [] [] None "t4" "t5" "t6")
    as [err|[[id a'] dk']] eqn:Heq; [by vm_compute in Heq|].
  exists id, a', dk'. split; [reflexivity|].
  assert (Hreach : reachable demo_digest 1 full_archive).
  { eapply (reach_add demo_digest 1 one_slot work_disk
              "work/a.py" None 0.9 0 [] [] None "t1" "t2" "t3");
      [apply reach_init|vm_compute; reflexivity]. }
  destruct (add_agent_keeps_size_limit demo_digest 1 _ _ _ _ _ _ _ _ _ _ _ _ _ _ _
              Hreach Heq) as [Hlen Hev].
  split; [exact Hlen|].
  vm_compute in Heq. injection Heq as <- <- <-. apply Hev.
  - by vm_compute.
  - apply (bool_decide_unpack _). by vm_compute.
  - intros e He. cbn in He. apply list_elem_of_singleton in He as ->. by vm_compute.
Defined.

Lemma five_agents_wf : archive_wf (entries five_agents).
Proof.
  split; apply (bool_decide_unpack _); by vm_compute.
Qed.

(** C4: when the archive holds more than [max_size] records,
    [_enforce_size_limit] retains exactly [max_size] of them, in their
    order; every deleted record scores (fitness + novelty) at most as
    much as every retained one, and its file is removed; on five agents
    scoring 0.1, 0.8, 0.3, 0.9, 0.5 with novelty 0 and limit 3 the
    retained agents are those scoring 0.8, 0.9 and 0.5. *)
Theorem enforce_size_limit_retains_top (a : AgentArchive) (fs : gmap string string) :
  archive_wf (entries a) ->
  max_size a < length (entries a) ->
  let r := _enforce_size_limit a fs in
  length (entries r.1) = max_size a
  /\ sublist (entries r.1) (entries a)
  /\ (forall p q, p ∈ entries a -> p ∉ entries r.1 -> q ∈ entries r.1 ->
        (combined p.2 <= combined q.2)%Q)
  /\ (forall p, p ∈ entries a -> p ∉ entries r.1 -> r.2 !! agent_path p.2 = None)
  /\ fitness_score <$> values (entries (_enforce_size_limit five_agents five_files).1)
     = [0.8; 0.9; 0.5]%Q.
Proof.
  intros Hwf Hover r. subst r. split_and!.
  - rewrite enforce_length by done. lia.
  - rewrite enforce_over_entries by done. apply sublist_filter.
  - intros p q Hp Hnp Hq.
    pose proof (enforce_over_values a fs Hwf Hover) as Hperm.
    pose proof (sorted_desc_sorted combined (values (entries a))) as Hsorted.
    pose proof (sorted_desc_perm combined (values (entries a))) as Hall.
    set (sorted := sorted_desc combined (values (entries a))) in *.
    rewrite <- (take_drop (max_size a) sorted) in Hsorted, Hall.
    assert (Hq' : q.2 ∈ take (max_size a) sorted).
    { rewrite <- Hperm. by apply list_elem_of_fmap_2. }
    assert (Hp' : p.2 ∈ drop (max_size a) sorted).
    { assert (p.2 ∈ values (entries a)) as Hpv by by apply list_elem_of_fmap_2.
      rewrite <- Hall in Hpv. apply elem_of_app in Hpv as [Hpt|]; [|done].
      exfalso. apply Hnp. rewrite enforce_over_entries by done.
      apply list_elem_of_filter. split; [|done].
      apply elem_of_list_to_set.
      destruct p as [k e]. cbn [fst snd] in *.
      rewrite <- (archive_wf_id _ k e Hwf Hp).
      by apply list_elem_of_fmap_2. }
    by apply (StronglySorted_app_cross _ _ _ Hsorted).
  - intros p Hp Hnp. rewrite enforce_over_files by done.
    rewrite decide_True; [done|].
    apply (list_elem_of_fmap_2 (agent_path ∘ snd) _ p).
    apply list_elem_of_filter. split; [|done]. intros Hin. apply Hnp.
    rewrite enforce_over_entries by done. by apply list_elem_of_filter.
  - by vm_compute.
Qed.

Lemma enforce_size_limit_retains_top_witness :
  fitness_score <$> values (entries (_enforce_size_limit five_agents five_files).1)
  = [0.8; 0.9; 0.5]%Q.
Proof.
  apply (enforce_size_limit_retains_top five_agents five_files).
  - exact five_agents_wf.
  - cbn. lia.
Defined.

End ArchiveManagerFacts.

(** ** Lineage *)

Module LineageFacts.
Import Py PyFacts Scenarios.

Lemma lineage_loop_acc fuel d cur acc l :
  ArchiveManager.lineage_loop fuel d cur acc = Some l -> exists l', l = acc ++ l'.
Proof.
  revert cur acc. induction fuel as [|fuel IH]; intros cur acc; cbn [ArchiveManager.lineage_loop].
  - destruct (truthy cur); [|intros [= <-]; exists []; by rewrite app_nil_r].
    destruct cur as [id|]; [|intros [= <-]; exists []; by rewrite app_nil_r].
    destruct (dget id d); [done|]. intros [= <-]. exists []. by rewrite app_nil_r.
  - destruct (truthy cur); [|intros [= <-]; exists []; by rewrite app_nil_r].
    destruct cur as [id|]; [|intros [= <-]; exists []; by rewrite app_nil_r].
    destruct (dget id d) as [e|]; [|intros [= <-]; exists []; by rewrite app_nil_r].
    intros H. apply IH in H as (l' & ->). exists (e :: l'). by rewrite <- app_assoc.
Qed.

(** [get_lineage] starts with the queried agent whenever the agent is in
    the archive. *)
Lemma get_lineage_child_first fuel a id e l :
  ArchiveManager.get_agent a id = Some e ->
  truthy (Some id) = true ->
  ArchiveManager.get_lineage fuel a id = Some l ->
  exists rest, l = e :: rest.
Proof.
  unfold ArchiveManager.get_lineage, ArchiveManager.get_agent. intros He Hid.
  destruct fuel as [|fuel]; cbn [ArchiveManager.lineage_loop]; rewrite Hid, He; [done|].
  intros H. apply lineage_loop_acc in H as (l' & ->). by exists l'.
Qed.

Lemma agent_lineage_loop_acc fuel a cur acc l :
  AgentArchive.lineage_loop fuel a cur acc = Some l -> exists l', l = acc ++ l'.
Proof.
  revert cur acc. induction fuel as [|fuel IH]; intros cur acc;
    cbn [AgentArchive.lineage_loop].
  - destruct (truthy cur); [|intros [= <-]; exists []; by rewrite app_nil_r].
    destruct cur as [id|]; [|intros [= <-]; exists []; by rewrite app_nil_r].
    destruct (AgentArchive.get_agent a id); [done|].
    intros [= <-]. exists []. by rewrite app_nil_r.
  - destruct (truthy cur); [|intros [= <-]; exists []; by rewrite app_nil_r].
    destruct cur as [id|]; [|intros [= <-]; exists []; by rewrite app_nil_r].
    destruct (AgentArchive.get_agent a id) as [e|];
      [|intros [= <-]; exists []; by rewrite app_nil_r].
    intros H. apply IH in H as (l' & ->). exists (e :: l'). by rewrite <- app_assoc.
Qed.

(** [get_agent_lineage] ends with the queried agent whenever the agent is
    in the archive. *)
Lemma get_agent_lineage_child_last fuel a id e l :
  AgentArchive.get_agent a id = Some e ->
  truthy (Some id) = true ->
  AgentArchive.get_agent_lineage fuel a id = Some l ->
  exists ancestors, l = ancestors ++ [e].
Proof.
  unfold AgentArchive.get_agent_lineage. intros He Hid.
  destruct fuel as [|fuel]; cbn [AgentArchive.lineage_loop]; rewrite Hid, He; [done|].
  destruct (AgentArchive.lineage_loop fuel a (AgentArchive.parent_id e) ([] ++ [e]))
    as [l0|] eqn:Hloop; [|done].
  intros [= <-]. apply agent_lineage_loop_acc in Hloop as (l' & ->).
  exists (reverse l'). by rewrite reverse_app.
Qed.

(** C5: on the chain grandparent, parent, child, [get_lineage] of
    [archive_manager.py] returns child, parent, grandparent, the queried
    agent first and the root last, where [get_agent_lineage] of
    [agent_archive.py] returns grandparent, parent, child. *)
Theorem get_lineage_is_child_first :
  fmap (M:=list) ArchiveManager.agent_id <$> ArchiveManager.get_lineage 3 chain_manager "child"
  = Some ["child"; "parent"; "grandparent"]
  /\ fmap (M:=list) AgentArchive.agent_id <$> AgentArchive.get_agent_lineage 3 chain_archive "child"
     = Some ["grandparent"; "parent"; "child"].
Proof. split; by vm_compute. Qed.

End LineageFacts.

(** ** Adding an agent whose parent is unknown *)

Module AddAgentFacts.
Import Py PyFacts ArchiveManagerFacts Scenarios.

Lemma generation_unknown_parent {V} (gen : V -> Z) (p : string) (d : dict V) :
  dget p d = None ->
  (if truthy (Some p)
   then match dget p d with Some pe => (gen pe + 1)%Z | None => 0%Z end
   else 0%Z) = 0%Z.
Proof. intros ->. by destruct (truthy _). Qed.

Lemma agent_archive_accepts (a : AgentArchive.AgentArchive) (dk : AgentArchive.Disk)
    path p scores valid meta new_id now_created now_saved content :
  dget p (AgentArchive.agents a) = None ->
  AgentArchive.files dk !! path = Some content ->
  exists agent a' dk',
    AgentArchive.add_agent a dk path (Some p) scores valid meta
      new_id now_created now_saved = inr (agent, a', dk')
    /\ AgentArchive.generation agent = 0%Z
    /\ AgentArchive.parent_id agent = Some p
    /\ AgentArchive.get_agent a' new_id = Some agent
    /\ AgentArchive.archive_metadata dk' !! AgentArchive.archive_dir a
       = Some (AgentArchive.agents a', now_saved)
    /\ AgentArchive.files dk'
         !! (AgentArchive.source_path agent +:+ "/" +:+ AgentArchive.basename path)
       = Some content.
Proof.
  intros Hp Hfile. unfold AgentArchive.add_agent, AgentArchive.copy_agent_code.
  rewrite Hfile. rewrite (generation_unknown_parent _ _ _ Hp).
  eexists _, _, _. split; [reflexivity|].
  cbn [AgentArchive.generation AgentArchive.parent_id AgentArchive.archive_metadata
       AgentArchive._save_archive AgentArchive.files AgentArchive.agents
       AgentArchive.source_path].
  split_and!; try done.
  - unfold AgentArchive.get_agent. cbn [AgentArchive.agents]. apply dget_dset.
  - cbn [AgentArchive.archive_dir]. apply lookup_insert_eq.
  - apply lookup_insert_eq.
Qed.

Lemma agent_archive_never_validates a dk path parent scores valid meta
    new_id now_created now_saved msg :
  AgentArchive.add_agent a dk path parent scores valid meta new_id now_created now_saved
  ≠ inl (AgentArchive.ValidationError msg).
Proof.
  unfold AgentArchive.add_agent, AgentArchive.copy_agent_code.
  destruct (AgentArchive.files dk !! path); [done|].
  destruct (AgentArchive.is_dir _ path); [|done].
  by destruct (_ || _).
Qed.

Section Manager.
Variable sha256_hex16 : string -> string.

Lemma archive_manager_accepts (a : ArchiveManager.AgentArchive) (dk : ArchiveManager.Disk)
    path p fitness novelty results mods meta now_id now_ts now_save content :
  dget p (ArchiveManager.entries a) = None ->
  ArchiveManager.files dk !! path = Some content ->
  exists a' dk',
    ArchiveManager.add_agent sha256_hex16 a dk path (Some p) fitness novelty results
      mods meta now_id now_ts now_save
    = inr (sha256_hex16 (content +:+ now_id), a', dk')
    /\ ArchiveManager.index_json dk' !! ArchiveManager.archive_dir a
       = Some (values (ArchiveManager.entries a'), now_save)
    /\ (length (ArchiveManager.entries a) < ArchiveManager.max_size a ->
        exists e,
          ArchiveManager.get_agent a' (sha256_hex16 (content +:+ now_id)) = Some e
          /\ ArchiveManager.generation e = 0%Z
          /\ ArchiveManager.parent_id e = Some p
          /\ ArchiveManager.files dk' !! ArchiveManager.agent_path e = Some content).
Proof.
  intros Hp Hfile.
  destruct (ArchiveManager.add_agent sha256_hex16 a dk path (Some p) fitness novelty
              results mods meta now_id now_ts now_save) as [err|[[id a'] dk']] eqn:Hadd.
  { exfalso. unfold ArchiveManager.add_agent, ArchiveManager._generate_agent_id in Hadd.
    rewrite Hfile in Hadd.
    by destruct (ArchiveManager._enforce_size_limit _ _). }
  apply add_agent_inv in Hadd as (content' & Hfile' & -> & Ha' & Hdk').
  rewrite Hfile in Hfile'. injection Hfile' as <-. cbv zeta in Ha', Hdk'.
  set (id := sha256_hex16 (content +:+ now_id)) in *.
  set (entry := ArchiveManager.new_entry a id (Some p) fitness novelty results mods meta now_ts) in *.
  exists a', dk'. split; [done|].
  split; [rewrite Hdk', Ha'; cbn [ArchiveManager.index_json]; apply lookup_insert_eq|].
  intros Hroom.
  assert (Hunder : length (ArchiveManager.entries
                             (ArchiveManager.with_entries a
                                (dset id entry (ArchiveManager.entries a))))
                   <= ArchiveManager.max_size
                        (ArchiveManager.with_entries a
                           (dset id entry (ArchiveManager.entries a)))).
  { cbn [ArchiveManager.entries ArchiveManager.max_size ArchiveManager.with_entries].
    pose proof (length_dset id entry (ArchiveManager.entries a)). lia. }
  rewrite enforce_under in Ha', Hdk' by exact Hunder.
  cbn [fst snd] in Ha', Hdk'.
  exists entry. rewrite Ha', Hdk'. split_and!.
  - unfold ArchiveManager.get_agent. cbn [ArchiveManager.entries ArchiveManager.with_entries].
    apply dget_dset.
  - unfold entry, ArchiveManager.new_entry. cbn [ArchiveManager.generation].
    by apply generation_unknown_parent.
  - done.
  - cbn [ArchiveManager.files]. apply lookup_insert_eq.
Qed.

Lemma archive_manager_never_validates a dk path parent fitness novelty results mods meta
    now_id now_ts now_save msg :
  ArchiveManager.add_agent sha256_hex16 a dk path parent fitness novelty results
    mods meta now_id now_ts now_save ≠ inl (ArchiveManager.ValidationError msg).
Proof.
  unfold ArchiveManager.add_agent, ArchiveManager._generate_agent_id.
  destruct (ArchiveManager.files dk !! path); [|done].
  by destruct (ArchiveManager._enforce_size_limit _ _).
Qed.
End Manager.

(** C3 (as amended): [add_agent] does not check that the parent exists.
    Called with a parent id that no record carries and a readable source
    file, it succeeds in both archives: the new record has generation 0
    and keeps the given parent id, the index is rewritten with it and
    the source is copied into the archive. *)
Theorem add_agent_accepts_unknown_parent (sha256_hex16 : string -> string)
    (a1 : AgentArchive.AgentArchive) (dk1 : AgentArchive.Disk)
    (a2 : ArchiveManager.AgentArchive) (dk2 : ArchiveManager.Disk)
    (path p content : string) (scores : option (dict Q)) (valid : bool)
    (meta : option (list (string * value))) (new_id now_created now_saved : string)
    (fitness novelty : Q) (results : list (string * value)) (mods : list string)
    (now_id now_ts now_save : string) :
  dget p (AgentArchive.agents a1) = None ->
  AgentArchive.files dk1 !! path = Some content ->
  dget p (ArchiveManager.entries a2) = None ->
  ArchiveManager.files dk2 !! path = Some content ->
  (exists agent a' dk',
     AgentArchive.add_agent a1 dk1 path (Some p) scores valid meta
       new_id now_created now_saved = inr (agent, a', dk')
     /\ AgentArchive.generation agent = 0%Z
     /\ AgentArchive.parent_id agent = Some p
     /\ AgentArchive.get_agent a' new_id = Some agent
     /\ AgentArchive.archive_metadata dk' !! AgentArchive.archive_dir a1
        = Some (AgentArchive.agents a', now_saved)
     /\ AgentArchive.files dk'
          !! (AgentArchive.source_path agent +:+ "/" +:+ AgentArchive.basename path)
        = Some content)
  /\ (exists a' dk',
        ArchiveManager.add_agent sha256_hex16 a2 dk2 path (Some p) fitness novelty
          results mods meta now_id now_ts now_save
        = inr (sha256_hex16 (content +:+ now_id), a', dk')
        /\ ArchiveManager.index_json dk' !! ArchiveManager.archive_dir a2
           = Some (values (ArchiveManager.entries a'), now_save)
        /\ (length (ArchiveManager.entries a2) < ArchiveManager.max_size a2 ->
            exists e,
              ArchiveManager.get_agent a' (sha256_hex16 (content +:+ now_id)) = Some e
              /\ ArchiveManager.generation e = 0%Z
              /\ ArchiveManager.parent_id e = Some p
              /\ ArchiveManager.files dk' !! ArchiveManager.agent_path e = Some content)).
Proof.
  intros Hp1 Hf1 Hp2 Hf2. split.
  - by apply agent_archive_accepts.
  - by apply archive_manager_accepts.
Qed.

Lemma add_agent_accepts_unknown_parent_witness :
  (exists agent a' dk',
     AgentArchive.add_agent empty_agent_archive seed_disk "work/a.py" (Some "ghost")
       None true None "id-1" "t1" "t2" = inr (agent, a', dk')
     /\ AgentArchive.generation agent = 0%Z
     /\ AgentArchive.parent_id agent = Some "ghost")
  /\ (exists a' dk',
        ArchiveManager.add_agent demo_digest one_slot work_disk "work/a.py"
          (Some "ghost") 0.5 0 [] [] None "t1" "t2" "t3"
        = inr (demo_digest ("pass" +:+ "t1"), a', dk')).
Proof.
  destruct (add_agent_accepts_unknown_parent demo_digest
              empty_agent_archive seed_disk one_slot work_disk
              "work/a.py" "ghost" "pass" None true None "id-1" "t1" "t2"
              0.5 0 [] [] "t1" "t2" "t3")
    as [(agent & a' & dk' & H1 & H2 & H3 & _) (a2' & dk2' & H4 & _)];
    try (by vm_compute).
  split; [by exists agent, a', dk'|by exists a2', dk2'].
Defined.

Lemma add_agent_unknown_parent_counterexample :
  dget "ghost" (AgentArchive.agents empty_agent_archive) = None
  /\ exists agent a' dk',
       AgentArchive.add_agent empty_agent_archive seed_disk "work/a.py" (Some "ghost")
         None true None "id-1" "t1" "t2" = inr (agent, a', dk')
       /\ AgentArchive.parent_id agent = Some "ghost"
       /\ AgentArchive.agents a' = [("id-1", agent)]
       /\ AgentArchive.archive_metadata dk' !! "archive" = Some ([("id-1", agent)], "t2")
       /\ AgentArchive.files dk' !! "archive/id-1/a.py" = Some "pass".
Proof.
  split; [reflexivity|]. eexists _, _, _.
  split; [vm_compute; reflexivity|]. split_and!; by vm_compute.
Qed.

End AddAgentFacts.

(** ** Parent selection *)

Module SelectionFacts.
Import Py PyFacts ParentSelector Scenarios.

Lemma select_spec {Agent} (avg : Agent -> Q) (self : HybridSelection)
    (agents : list Agent) (n : nat) :
  select avg self agents n
  = take n (sorted_desc (fun a => (fitness_weight self * avg a + novelty_weight self * 0)%Q)
              agents).
Proof. unfold select. destruct agents; [by destruct n|done]. Qed.

Lemma select_length {Agent} (avg : Agent -> Q) self (agents : list Agent) n :
  length (select avg self agents n) = Nat.min n (length agents).
Proof.
  rewrite select_spec, length_take. unfold sorted_desc. by rewrite length_py_sorted.
Qed.

(** The novelty weight has no influence on the selection. *)
Lemma select_novelty_weight_irrelevant {Agent} (avg : Agent -> Q)
    (wf wn wn' : Q) (agents : list Agent) (n : nat) :
  select avg {| fitness_weight := wf; novelty_weight := wn |} agents n
  = select avg {| fitness_weight := wf; novelty_weight := wn' |} agents n.
Proof.
  rewrite !select_spec. f_equal. unfold sorted_desc. apply py_sorted_ext.
  intros x y. cbn [fitness_weight novelty_weight]. apply Qleb_comp; ring.
Qed.

(** C8: with weights 0.5 and 0.5, an archive of [explorer]
    (average_score 0.5, novelty_score 1.0) and [exploiter]
    (average_score 0.6, novelty_score 0.0) and [n = 1], [select] returns
    [exploiter], although [wf * average_score + wn * novelty_score] ranks
    [explorer] strictly higher. *)
Theorem hybrid_select_ignores_novelty :
  select average_score balanced [explorer; exploiter] 1 = [exploiter]
  /\ (hybrid_score balanced exploiter < hybrid_score balanced explorer)%Q.
Proof. split; by vm_compute. Qed.

End SelectionFacts.

(** ** Novelty *)

Module NoveltyFacts.
Import Py PyFacts NoveltyCalculator Scenarios.

(** *** Commutativity holds on the nose for the representation *)
Lemma Qplus_comm_eq (x y : Q) : (x + y)%Q = (y + x)%Q.
Proof.
  destruct x as [a b], y as [c d]. unfold Qplus. cbn [Qnum Qden].
  f_equal; [lia|apply Pos.mul_comm].
Qed.

Lemma Qabs_minus_eq (x y : Q) : Qabs (x - y) = Qabs (y - x).
Proof.
  destruct x as [a b], y as [c d]. unfold Qminus, Qplus, Qopp, Qabs. cbn [Qnum Qden].
  f_equal; [lia|apply Pos.mul_comm].
Qed.

Lemma numeric_step_sym c1 c2 a f : numeric_step c1 c2 a f = numeric_step c2 c1 a f.
Proof.
  unfold numeric_step. destruct (f c1) as [v1|], (f c2) as [v2|]; try done.
  by rewrite (Qplus_comm_eq v1 v2), (Qabs_minus_eq v1 v2).
Qed.

Lemma boolean_step_sym c1 c2 a f : boolean_step c1 c2 a f = boolean_step c2 c1 a f.
Proof.
  unfold boolean_step. destruct (f c1) as [[]|], (f c2) as [[]|]; done.
Qed.

Lemma set_step_sym a s1 s2 : set_step a s1 s2 = set_step a s2 s1.
Proof.
  unfold set_step. destruct s1 as [x|], s2 as [y|]; try done.
  rewrite (comm_L (∩) x y), (comm_L (∪) x y).
  by rewrite orb_comm.
Qed.

Lemma distance_acc_sym c1 c2 : distance_acc c1 c2 = distance_acc c2 c1.
Proof.
  unfold distance_acc.
  rewrite (foldl_ext_in (numeric_step c1 c2) (numeric_step c2 c1))
    by (intros; apply numeric_step_sym).
  generalize (foldl (numeric_step c2 c1) (0%Q, 0) numeric_features). intros a.
  rewrite (foldl_ext_in (boolean_step c1 c2) (boolean_step c2 c1))
    by (intros; apply boolean_step_sym).
  generalize (foldl (boolean_step c2 c1) a boolean_features). intros b.
  by rewrite (set_step_sym b), set_step_sym.
Qed.

Lemma _calculate_distance_sym c1 c2 :
  _calculate_distance c1 c2 = _calculate_distance c2 c1.
Proof. unfold _calculate_distance. by rewrite distance_acc_sym. Qed.

(** *** Rational arithmetic of the steps *)
Lemma Qlt_bool_iff (x y : Q) : Qlt_bool x y = true <-> (x < y)%Q.
Proof.
  unfold Qlt_bool. rewrite negb_true_iff. destruct (Qle_bool y x) eqn:E.
  - apply Qle_bool_iff in E. split; [done|]. intros H. by apply Qlt_not_le in H.
  - split; [intros _|done]. apply Qnot_le_lt. intros H.
    apply Qle_bool_iff in H. congruence.
Qed.

Lemma len_pos (s : gset string) : s ≠ ∅ -> (0 < len s)%Q.
Proof.
  intros Hs. unfold len, Qlt. cbn.
  assert (size s ≠ 0) by (by rewrite size_non_empty_iff; intros ?%leibniz_equiv).
  lia.
Qed.

Lemma len_mono (s t : gset string) : s ⊆ t -> (len s <= len t)%Q.
Proof.
  intros Hst. unfold len, Qle. cbn. apply subseteq_size in Hst. lia.
Qed.

Lemma union_nonempty (s t : gset string) :
  bool_decide (s ≠ ∅) || bool_decide (t ≠ ∅) = true -> s ∪ t ≠ ∅.
Proof.
  intros H Hu. apply empty_union_L in Hu as [-> ->].
  rewrite !bool_decide_eq_false_2 in H by (by intros ?). done.
Qed.

Lemma div_nonneg (x y : Q) : (0 <= x)%Q -> (0 < y)%Q -> (0 <= x / y)%Q.
Proof.
  intros Hx Hy. apply Qle_shift_div_l; [done|]. by rewrite Qmult_0_l.
Qed.

(** *** Distances are never negative *)
Lemma numeric_step_nonneg c1 c2 a f :
  (0 <= a.1)%Q -> (0 <= (numeric_step c1 c2 a f).1)%Q.
Proof.
  intros Ha. unfold numeric_step.
  destruct (f c1) as [v1|], (f c2) as [v2|]; try done.
  destruct (Qlt_bool 0 (v1 + v2)) eqn:E; [|done]. apply Qlt_bool_iff in E.
  cbn [fst]. rewrite <- (Qplus_0_r 0). apply Qplus_le_compat; [done|].
  apply div_nonneg; [apply Qabs_nonneg|done].
Qed.

Lemma boolean_step_nonneg c1 c2 a f :
  (0 <= a.1)%Q -> (0 <= (boolean_step c1 c2 a f).1)%Q.
Proof.
  intros Ha. unfold boolean_step.
  destruct (f c1) as [b1|], (f c2) as [b2|]; try done.
  cbn [fst]. destruct (eqb b1 b2); [done|].
  rewrite <- (Qplus_0_r 0). by apply Qplus_le_compat.
Qed.

Lemma set_step_nonneg a s1 s2 : (0 <= a.1)%Q -> (0 <= (set_step a s1 s2).1)%Q.
Proof.
  intros Ha. unfold set_step. destruct s1 as [x|], s2 as [y|]; try done.
  destruct (_ || _) eqn:E; [|done]. cbn [fst].
  rewrite <- (Qplus_0_r 0). apply Qplus_le_compat; [done|].
  assert ((len (x ∩ y) / len (x ∪ y) <= 1)%Q) as Hj.
  { apply Qle_shift_div_r; [by apply len_pos, union_nonempty|].
    rewrite Qmult_1_l. apply len_mono.
    intros z [Hz _]%elem_of_intersection. apply elem_of_union. by left. }
  lra.
Qed.

Lemma foldl_nonneg {B} (step : acc -> B -> acc) (l : list B) (a : acc) :
  (forall a b, (0 <= a.1)%Q -> (0 <= (step a b).1)%Q) ->
  (0 <= a.1)%Q -> (0 <= (foldl step a l).1)%Q.
Proof.
  intros Hstep. revert a. induction l as [|b l IH]; intros a Ha; [done|].
  cbn [foldl]. by apply IH, Hstep.
Qed.

Lemma distance_acc_nonneg c1 c2 : (0 <= (distance_acc c1 c2).1)%Q.
Proof.
  unfold distance_acc. do 2 apply set_step_nonneg.
  apply foldl_nonneg; [intros; by apply boolean_step_nonneg|].
  apply foldl_nonneg; [intros; by apply numeric_step_nonneg|]. done.
Qed.

Lemma _calculate_distance_nonneg c1 c2 : (0 <= _calculate_distance c1 c2)%Q.
Proof.
  unfold _calculate_distance. destruct (distance_acc c1 c2).2 eqn:E; [done|].
  apply div_nonneg; [apply distance_acc_nonneg|].
  unfold Qlt. cbn. lia.
Qed.

(** *** The distance of a vector to itself *)

Lemma numeric_fold_self c l a :
  (a.1 == 0)%Q ->
  ((foldl (numeric_step c c) a l).1 == 0)%Q
  /\ (foldl (numeric_step c c) a l).2 = a.2 + length (List.filter (pos_num c) l).
Proof.
  revert a. induction l as [|f l IH]; intros a Ha; [cbn; split; [done|lia]|].
  cbn [foldl List.filter].
  assert (Hstep : ((numeric_step c c a f).1 == 0)%Q
                  /\ (numeric_step c c a f).2 = a.2 + if pos_num c f then 1 else 0).
  { unfold numeric_step, pos_num. destruct (f c) as [v|]; [|split; [done|lia]].
    destruct (Qlt_bool 0 (v + v)) eqn:E; [|split; [done|lia]].
    cbn [fst snd]. split; [|lia]. apply Qlt_bool_iff in E.
    assert (Qabs (v - v) == 0)%Q as Habs.
    { assert (v - v == 0)%Q as -> by ring. done. }
    rewrite Ha, Habs. field. intros H0. rewrite H0 in E. by apply Qlt_irrefl in E. }
  destruct Hstep as [H1 H2]. destruct (IH _ H1) as [IH1 IH2].
  split; [done|]. rewrite IH2, H2. destruct (pos_num c f); cbn [length]; lia.
Qed.

Lemma boolean_fold_self c l a :
  (a.1 == 0)%Q ->
  ((foldl (boolean_step c c) a l).1 == 0)%Q
  /\ (foldl (boolean_step c c) a l).2 = a.2 + length (List.filter (has_bool c) l).
Proof.
  revert a. induction l as [|f l IH]; intros a Ha; [cbn; split; [done|lia]|].
  cbn [foldl List.filter].
  assert (Hstep : ((boolean_step c c a f).1 == 0)%Q
                  /\ (boolean_step c c a f).2 = a.2 + if has_bool c f then 1 else 0).
  { unfold boolean_step, has_bool. destruct (f c) as [b|]; [|split; [done|lia]].
    cbn [fst snd]. rewrite eqb_reflx. split; [done|lia]. }
  destruct Hstep as [H1 H2]. destruct (IH _ H1) as [IH1 IH2].
  split; [done|]. rewrite IH2, H2. destruct (has_bool c f); cbn [length]; lia.
Qed.

Lemma set_step_self a s :
  (a.1 == 0)%Q ->
  ((set_step a s s).1 == 0)%Q
  /\ (set_step a s s).2 = a.2 + if has_set s then 1 else 0.
Proof.
  intros Ha. unfold set_step, has_set. destruct s as [x|]; [|split; [done|lia]].
  rewrite orb_diag. case_bool_decide as Hx; [|split; [done|lia]].
  cbn [fst snd]. split; [|lia].
  rewrite (idemp_L (∩) x), (idemp_L (∪) x), Ha.
  pose proof (len_pos x Hx) as Hpos. field.
  intros H0. rewrite H0 in Hpos. by apply Qlt_irrefl in Hpos.
Qed.

Lemma distance_acc_self c :
  ((distance_acc c c).1 == 0)%Q /\ (distance_acc c c).2 = comparable_count c.
Proof.
  unfold distance_acc, comparable_count.
  destruct (numeric_fold_self c numeric_features (0%Q, 0)) as [N1 N2]; [done|].
  destruct (boolean_fold_self c boolean_features _ N1) as [B1 B2].
  destruct (set_step_self _ (import_modules c) B1) as [I1 I2].
  destruct (set_step_self _ (list_to_set <$> benchmark_patterns c) I1) as [P1 P2].
  split; [done|]. rewrite P2, I2, B2, N2. cbn [snd]. lia.
Qed.

Lemma filter_length_pos {A} (p : A -> bool) (l : list A) :
  length (List.filter p l) ≠ 0 <-> exists x, x ∈ l /\ p x = true.
Proof.
  induction l as [|a l IH]; cbn [List.filter].
  - split; [done|]. intros (x & Hx & _). by apply elem_of_nil in Hx.
  - destruct (p a) eqn:E.
    + split; [|done]. intros _. exists a. split; [apply elem_of_cons; by left|done].
    + rewrite IH. split.
      * intros (x & Hx & Hp). exists x. split; [apply elem_of_cons; by right|done].
      * intros (x & [->|Hx]%elem_of_cons & Hp); [congruence|by exists x].
Qed.

Lemma pos_num_spec c f : pos_num c f = true <-> exists v, f c = Some v /\ (0 < v)%Q.
Proof.
  unfold pos_num. destruct (f c) as [v|].
  - rewrite Qlt_bool_iff. split.
    + intros H. exists v. split; [done|lra].
    + intros (v' & [= <-] & H). lra.
  - split; [done|]. by intros (v & ? & _).
Qed.

Lemma has_bool_spec c f : has_bool c f = true <-> exists b, f c = Some b.
Proof.
  unfold has_bool. destruct (f c) as [b|]; [split; [by exists b|done]|].
  split; [done|]. by intros (b & ?).
Qed.

Lemma has_set_patterns (ps : option (list string)) :
  has_set (list_to_set <$> ps) = true <-> exists p ps', ps = Some (p :: ps').
Proof.
  destruct ps as [[|p ps']|]; cbn.
  - rewrite bool_decide_eq_false_2 by (by intros H; apply H).
    split; [done|]. by intros (? & ? & ?).
  - rewrite bool_decide_eq_true_2; [split; [by exists p, ps'|done]|].
    intros H. assert (p ∈ (∅ : gset string)) as H0; [|by apply not_elem_of_empty in H0].
    rewrite <- H. apply elem_of_union. left. by apply elem_of_singleton.
  - split; [done|]. by intros (? & ? & ?).
Qed.

Lemma comparable_iff c : comparable c <-> comparable_count c ≠ 0.
Proof.
  unfold comparable, comparable_count.
  pose proof (filter_length_pos (pos_num c) numeric_features) as Hn.
  pose proof (filter_length_pos (has_bool c) boolean_features) as Hb.
  pose proof (has_set_patterns (benchmark_patterns c)) as Hp.
  split.
  - intros [(f & v & Hf & Hv & Hpos)|[(f & b & Hf & Hfb)|[(s & Hs & Hne)|Hpat]]].
    + assert (length (List.filter (pos_num c) numeric_features) ≠ 0); [|lia].
      apply Hn. exists f. split; [done|]. apply pos_num_spec. by exists v.
    + assert (length (List.filter (has_bool c) boolean_features) ≠ 0); [|lia].
      apply Hb. exists f. split; [done|]. apply has_bool_spec. by exists b.
    + rewrite Hs. cbn [has_set]. rewrite bool_decide_eq_true_2 by done. lia.
    + apply Hp in Hpat. rewrite Hpat. lia.
  - intros H.
    destruct (decide (length (List.filter (pos_num c) numeric_features) = 0)) as [E1|E1];
      [|left; apply Hn in E1 as (f & Hf & Hpos); apply pos_num_spec in Hpos as (v & ? & ?);
        by exists f, v].
    destruct (decide (length (List.filter (has_bool c) boolean_features) = 0)) as [E2|E2];
      [|right; left; apply Hb in E2 as (f & Hf & Hb'); apply has_bool_spec in Hb' as (b & ?);
        by exists f, b].
    right; right.
    destruct (has_set (import_modules c)) eqn:E3.
    + left. unfold has_set in E3. destruct (import_modules c) as [s|]; [|done].
      exists s. split; [done|]. by apply bool_decide_eq_true_1 in E3.
    + right. apply Hp. destruct (has_set (list_to_set <$> benchmark_patterns c)); [done|].
      exfalso. apply H. rewrite E1, E2. done.
Qed.

(** C6 (as amended): [_calculate_distance] is symmetric for all pairs
    of feature vectors; the distance of a vector to itself is 0.0 when
    the vector has a comparable feature, and the neutral 0.5 when it has
    none. *)
Theorem distance_symmetric_reflexive (a b f : Characteristics) :
  _calculate_distance a b = _calculate_distance b a
  /\ (comparable f -> (_calculate_distance f f == 0)%Q)
  /\ (~ comparable f -> _calculate_distance f f = 0.5%Q).
Proof.
  split; [apply _calculate_distance_sym|].
  rewrite comparable_iff. unfold _calculate_distance.
  destruct (distance_acc_self f) as [H1 H2]. rewrite H2.
  split.
  - intros Hc. destruct (comparable_count f) as [|n]; [done|].
    rewrite H1. field. intros H0. unfold Qeq in H0. cbn in H0. lia.
  - intros Hc. destruct (comparable_count f) as [|n]; [done|]. by exfalso; apply Hc.
Qed.

(** *** Novelty *)
Lemma distance_symmetric_reflexive_witness :
  (_calculate_distance small_module small_module == 0)%Q.
Proof.
  apply (proj1 (proj2 (distance_symmetric_reflexive small_module small_module
                         small_module))).
  right; left. exists uses_recursion, false. split; [|reflexivity].
  apply elem_of_cons. by left.
Defined.

Lemma distance_reflexive_counterexample :
  _calculate_distance unreadable unreadable = 0.5%Q
  /\ ~ (_calculate_distance unreadable unreadable == 0)%Q.
Proof.
  split; [by vm_compute|]. intros H. by vm_compute in H.
Qed.



Lemma match_nonempty {A B} (l : list A) (a b : B) :
  l ≠ [] -> match l with [] => a | _ :: _ => b end = b.
Proof. by destruct l. Qed.

Section Novelty.
Variable _extract_characteristics : string -> list (string * value) -> Characteristics.
Variable k_nearest : nat.



End Novelty.


End NoveltyFacts.

(** ** Benchmark failure analysis *)

Module BenchmarkFacts.
Import Py PyFacts BenchmarkResults.

Lemma exceeds_30_percent_spec (x n : nat) :
  exceeds_30_percent x n = true <-> 3 * n < 10 * x.
Proof.
  unfold exceeds_30_percent. rewrite negb_true_iff.
  destruct (Qle_bool _ _) eqn:E.
  - apply Qle_bool_iff in E. unfold Qle in E. cbn in E. split; [done|]. lia.
  - split; [intros _|done].
    destruct (Nat.lt_ge_cases (3 * n) (10 * x)) as [?|Hge]; [done|].
    exfalso. assert (Qle_bool (inject_Z (Z.of_nat x)) (inject_Z (Z.of_nat n) * 0.3) = true)
      as E'; [|congruence].
    apply Qle_bool_iff. unfold Qle. cbn. lia.
Qed.

End BenchmarkFacts.

Module DiagnosisFacts.
Import Py PyFacts BenchmarkResults BenchmarkFacts Diagnosis Scenarios.

Lemma analyze_benchmark_scores report item :
  benchmark_scores (analyze_benchmark report item) = benchmark_scores report.
Proof.
  destruct item as [name d]. unfold analyze_benchmark.
  by destruct (negb _).
Qed.

Lemma analyze_benchmark_timeouts report item :
  timeout_patterns (analyze_benchmark report item)
  = timeout_patterns report ++
    (if flags report item
     then [(item.1, length (timeout_tests item.2), length (failed_tests item.2))]
     else []).
Proof.
  destruct item as [name d]. unfold analyze_benchmark, flags, score_of. cbn [fst snd].
  destruct (negb _); cbn [andb timeout_patterns].
  - destruct (exceeds_30_percent _ _); [done|by rewrite app_nil_r].
  - by rewrite app_nil_r.
Qed.

Lemma analyze_all_timeouts items report :
  timeout_patterns (foldl analyze_benchmark report items)
  = timeout_patterns report ++
    ((fun item => (item.1, length (timeout_tests item.2), length (failed_tests item.2)))
       <$> filter (fun item => flags report item = true) items).
Proof.
  revert report. induction items as [|item items IH]; intros report.
  - cbn. by rewrite app_nil_r.
  - cbn [foldl]. rewrite IH, analyze_benchmark_timeouts, filter_cons.
    assert (Hext : filter (fun item0 => flags (analyze_benchmark report item) item0 = true) items
                   = filter (fun item0 => flags report item0 = true) items).
    { apply filter_ext_in. intros it _. unfold flags, score_of.
      by rewrite analyze_benchmark_scores. }
    rewrite Hext. destruct (flags report item) eqn:E.
    + rewrite decide_True by done. by rewrite fmap_cons, <- app_assoc.
    + rewrite decide_False by done. by rewrite app_nil_r.
Qed.

(** C9 (as amended): for a benchmark of the detailed results, the
    fresh report gets a timeout pattern for it exactly when its recorded
    score is below 0.5 and strictly more than 30% of its failing test
    cases report a timeout. *)
Theorem timeout_pattern_iff (benchmark_results : BenchmarkResults)
    (report : DiagnosisReport) (dr : dict BenchmarkDetail)
    (benchmark_name : string) (results : BenchmarkDetail) :
  detailed_results benchmark_results = Some dr ->
  dict_wf dr ->
  (benchmark_name, results) ∈ dr ->
  timeout_patterns report = [] ->
  flagged (_analyze_benchmark_failures benchmark_results report) benchmark_name
  <-> (score_of report benchmark_name < 0.5)%Q
      /\ 3 * length (failed_tests results) < 10 * length (timeout_tests results).
Proof.
  intros Hdr Hwf Hin Hempty. unfold flagged, _analyze_benchmark_failures.
  rewrite Hdr, analyze_all_timeouts, Hempty, app_nil_l.
  assert (Hflags : flags report (benchmark_name, results) = true
                   <-> (score_of report benchmark_name < 0.5)%Q
                       /\ 3 * length (failed_tests results)
                          < 10 * length (timeout_tests results)).
  { unfold flags. cbn [fst snd]. rewrite andb_true_iff, exceeds_30_percent_spec.
    rewrite negb_true_iff.
    assert (Qle_bool 0.5 (score_of report benchmark_name) = false
            <-> (score_of report benchmark_name < 0.5)%Q) as ->; [|done].
    destruct (Qle_bool _ _) eqn:E.
    - apply Qle_bool_iff in E. split; [done|]. intros H. by apply Qlt_not_le in H.
    - split; [intros _|done]. apply Qnot_le_lt. intros H.
      apply Qle_bool_iff in H. congruence. }
  rewrite <- Hflags. split.
  - intros (nt & nf & Hpat). apply list_elem_of_fmap in Hpat as ([name' d'] & Heq & Hit).
    apply list_elem_of_filter in Hit as [Hf Hit]. cbn [fst snd] in Heq.
    injection Heq as -> _ _.
    assert (d' = results) as ->; [|done].
    apply (dget_elem _ _ _ Hwf) in Hit, Hin. congruence.
  - intros Hf. eexists _, _.
    apply (list_elem_of_fmap_2
             (fun item => (item.1, length (timeout_tests item.2),
                           length (failed_tests item.2)))
             _ (benchmark_name, results)).
    by apply list_elem_of_filter.
Qed.

Lemma timeout_pattern_iff_witness :
  flagged (_analyze_benchmark_failures steady_results (steady_report 0.2)) "steady"
  <-> (score_of (steady_report 0.2) "steady" < 0.5)%Q
      /\ 3 * length (failed_tests steady_detail)
         < 10 * length (timeout_tests steady_detail).
Proof.
  apply (timeout_pattern_iff steady_results (steady_report 0.2)
           [("steady", steady_detail)] "steady" steady_detail).
  - reflexivity.
  - unfold dict_wf. cbn. apply NoDup_singleton.
  - apply elem_of_cons. by left.
  - reflexivity.
Defined.

Lemma timeout_pattern_counterexample :
  3 * length (failed_tests steady_detail) < 10 * length (timeout_tests steady_detail)
  /\ ~ flagged (_analyze_benchmark_failures steady_results (steady_report 0.6)) "steady".
Proof.
  split; [vm_compute; lia|]. intros (nt & nf & H).
  assert (Hnone : timeout_patterns
                    (_analyze_benchmark_failures steady_results (steady_report 0.6)) = [])
    by by vm_compute.
  rewrite Hnone in H. by apply elem_of_nil in H.
Qed.

End DiagnosisFacts.

Module PerformanceDiagnosisFacts.
Import Py PerformanceDiagnosis Scenarios.

(** [performance_diagnosis.py] compares the timeouts with 30% of all
    test cases of the benchmark: two timeouts among ten cases, the only
    two failures, raise no timeout pattern. *)
Lemma timeouts_counted_against_all_cases :
  timeout_patterns (_analyze_benchmark_failures mostly_passing fresh_report) = [].
Proof. by vm_compute. Qed.

End PerformanceDiagnosisFacts.

(** ** Applying a proposal *)

Module ImplementationFacts.
Import Py PyFacts Implementation Scenarios.

Section Apply.
Variable os_error : tree -> CodeChange -> option string.
Variable ast_parse : string -> parsed.

Lemma apply_each_returned self changes st backup :
  backup_dir self = Some backup ->
  ls_returned (apply_each os_error self false changes st) = true ->
  ls_returned st = true \/ ls_tree (apply_each os_error self false changes st) = backup.
Proof.
  intros Hb. revert st. induction changes as [|change rest IH]; intros st Hret.
  - by left.
  - cbn [apply_each] in *.
    destruct (_apply_code_change os_error (ls_tree st) change false) as [fs' [[]|msg]].
    + right. apply IH in Hret as [Hret|Hret]; [done|done].
    + right. apply IH in Hret as [Hret|Hret]; [done|done].
    + rewrite Hb in *. cbn in *. right. unfold _rollback_changes. by rewrite Hb.
Qed.

(** A non-dry-run call that reports failure leaves the working copy as it
    was found. *)
Lemma failure_restores self proposal fs :
  success (implement_proposal os_error ast_parse self proposal fs false).1.1 = false ->
  (implement_proposal os_error ast_parse self proposal fs false).2 = fs.
Proof.
  unfold implement_proposal. cbn [negb].
  set (self1 := {| backup_dir := Some (_create_backup fs); applied := applied self |}).
  set (st0 := {| ls_tree := fs; ls_applied := []; ls_errors := [];
                 ls_self_applied := applied self1; ls_returned := false |}).
  destruct (ls_returned (apply_each os_error self1 false (code_changes proposal) st0)) eqn:Hret.
  - intros _. cbn [snd].
    apply (apply_each_returned self1 _ _ fs) in Hret as [Hret|Hret]; done.
  - destruct (valid _); cbn [fst snd success]; [done|]. intros _.
    unfold _rollback_changes. done.
Qed.

Lemma modify_absent fs change content old :
  fs !! file_path change = Some content ->
  old_code change = Some old ->
  contains old content = false ->
  _apply_modify_change fs change = (fs, false).
Proof.
  intros Hfile Hold Habsent. unfold _apply_modify_change. rewrite Hfile, Hold.
  destruct old; [done|]. destruct (new_code change) as [[|? ?]|]; try done.
  by rewrite Habsent.
Qed.

Lemma apply_modify_absent fs change content old :
  change_type change = "modify" ->
  fs !! file_path change = Some content ->
  old_code change = Some old ->
  contains old content = false ->
  os_error fs change = None ->
  _apply_code_change os_error fs change false = (fs, Returned false).
Proof.
  intros Hty Hfile Hold Habsent Hos. unfold _apply_code_change.
  rewrite Hos, Hty. cbn [String.eqb Ascii.eqb Bool.eqb].
  by rewrite (modify_absent fs change content old).
Qed.

(** C2: a non-dry-run [implement_proposal] whose only change is a
    [modify] with an [old_code] that does not occur in the target file
    leaves the working copy as it was, records no applied change, and
    reports [success] exactly when the untouched working copy passes
    verification. *)
Theorem absent_old_code_is_not_reported self proposal fs change content old :
  code_changes proposal = [change] ->
  change_type change = "modify" ->
  fs !! file_path change = Some content ->
  old_code change = Some old ->
  contains old content = false ->
  os_error fs change = None ->
  let r := implement_proposal os_error ast_parse self proposal fs false in
  r.2 = fs
  /\ success r.1.1 = valid (_verify_modifications ast_parse fs)
  /\ changes_applied r.1.1 = [].
Proof.
  intros Hchanges Hty Hfile Hold Habsent Hos r. subst r.
  unfold implement_proposal. rewrite Hchanges. cbn [negb apply_each ls_tree].
  rewrite (apply_modify_absent fs change content old) by done.
  cbn [fst snd ls_returned ls_tree ls_applied ls_errors].
  destruct (valid (_verify_modifications ast_parse fs)) eqn:Hv;
    cbn [fst snd success changes_applied errors]; done.
Qed.
End Apply.

Lemma absent_old_code_is_not_reported_witness :
  let r := implement_proposal no_os_error parse_ok fresh_manager
             (proposal_of [change_missing]) tree0 false in
  r.2 = tree0 /\ success r.1.1 = true /\ changes_applied r.1.1 = [].
Proof.
  destruct (absent_old_code_is_not_reported no_os_error parse_ok fresh_manager
              (proposal_of [change_missing]) tree0 change_missing "x = 1" "y = 2")
    as (H1 & H2 & H3); try reflexivity.
  split_and!; [exact H1|rewrite H2; reflexivity|exact H3].
Defined.

(** C1: a non-dry-run [implement_proposal] over a [modify] that cannot
    be applied followed by an [add] reports success with the second
    change applied and the first one not: the working copy is neither
    its state before the call nor the state with every change applied. *)
Theorem failed_change_leaves_partial_application :
  let r := implement_proposal no_os_error parse_ok fresh_manager
             (proposal_of [change_missing; change_add]) tree0 false in
  success r.1.1 = true
  /\ changes_applied r.1.1 = [("agent/tools.py", "add", "add tools")]
  /\ r.2 !! "agent/agent.py" = Some "x = 1"
  /\ r.2 !! "agent/tools.py" = Some "import os"
  /\ r.2 ≠ tree0.
Proof.
  cbv zeta. split_and!; by vm_compute.
Qed.

End ImplementationFacts.

(** ** [max], sums and means *)

Module PyMaxFacts.
Import Py PyFacts PyMax.

Lemma elem_of_bfilter {A} (f : A -> bool) (l : list A) x :
  x ∈ List.filter f l <-> x ∈ l /\ f x = true.
Proof. rewrite !list_elem_of_In. apply filter_In. Qed.

Lemma lt_bool_iff (x y : Q) : lt_bool x y = true <-> (x < y)%Q.
Proof.
  unfold lt_bool. rewrite negb_true_iff. split.
  - intros H. apply Qnot_le_lt. intros Hle. apply Qle_bool_iff in Hle. congruence.
  - intros H. destruct (Qle_bool y x) eqn:E; [|done].
    apply Qle_bool_iff in E. by apply Qlt_not_le in H.
Qed.

Lemma lt_bool_false (x y : Q) : lt_bool x y = false -> (y <= x)%Q.
Proof.
  unfold lt_bool. rewrite negb_false_iff. apply Qle_bool_iff.
Qed.

Lemma max_from_elem {A} (key : A -> Q) (b : A) (l : list A) :
  max_from key b l ∈ b :: l.
Proof.
  revert b. induction l as [|x l IH]; intros b; cbn [max_from].
  - apply elem_of_cons. by left.
  - specialize (IH (if lt_bool (key b) (key x) then x else b)).
    apply elem_of_cons in IH as [->|IH].
    + destruct (lt_bool (key b) (key x)).
      * apply elem_of_cons. right. apply elem_of_cons. by left.
      * apply elem_of_cons. by left.
    + apply elem_of_cons. right. apply elem_of_cons. by right.
Qed.

Lemma max_from_ge {A} (key : A -> Q) (b : A) (l : list A) x :
  x ∈ b :: l -> (key x <= key (max_from key b l))%Q.
Proof.
  revert b x. induction l as [|y l IH]; intros b x Hx; cbn [max_from].
  - apply elem_of_cons in Hx as [->|Hx]; [apply Qle_refl|by apply elem_of_nil in Hx].
  - set (b' := if lt_bool (key b) (key y) then y else b).
    assert (Hb : (key b <= key b')%Q).
    { unfold b'. destruct (lt_bool (key b) (key y)) eqn:E; [|apply Qle_refl].
      apply lt_bool_iff in E. by apply Qlt_le_weak. }
    assert (Hy : (key y <= key b')%Q).
    { unfold b'. destruct (lt_bool (key b) (key y)) eqn:E; [apply Qle_refl|].
      by apply lt_bool_false. }
    assert (Hb' : (key b' <= key (max_from key b' l))%Q).
    { apply IH. apply elem_of_cons. by left. }
    apply elem_of_cons in Hx as [->|Hx]; [by eapply Qle_trans|].
    apply elem_of_cons in Hx as [->|Hx]; [by eapply Qle_trans|].
    apply IH. apply elem_of_cons. by right.
Qed.

Lemma max_by_spec {A} (key : A -> Q) (l : list A) :
  l <> [] ->
  exists m, max_by key l = Some m /\ m ∈ l /\ forall x, x ∈ l -> (key x <= key m)%Q.
Proof.
  destruct l as [|b l]; [done|]. intros _. exists (max_from key b l).
  split; [done|]. split; [apply max_from_elem|]. intros x. apply max_from_ge.
Qed.

Lemma max_Z_ge (x : Z) (l : list Z) y : y ∈ x :: l -> (y <= max_Z x l)%Z.
Proof.
  unfold max_Z. revert x y. induction l as [|z l IH]; intros x y Hy; cbn [foldl].
  - apply elem_of_cons in Hy as [->|Hy]; [lia|by apply elem_of_nil in Hy].
  - apply elem_of_cons in Hy as [->|Hy].
    + etransitivity; [|apply IH; apply elem_of_cons; by left]. lia.
    + apply elem_of_cons in Hy as [->|Hy].
      * etransitivity; [|apply IH; apply elem_of_cons; by left]. lia.
      * apply IH. apply elem_of_cons. by right.
Qed.

Lemma max_Z_elem (x : Z) (l : list Z) : max_Z x l ∈ x :: l.
Proof.
  unfold max_Z. revert x. induction l as [|z l IH]; intros x; cbn [foldl].
  - apply elem_of_cons. by left.
  - specialize (IH (Z.max x z)). apply elem_of_cons in IH as [->|IH].
    + destruct (Z.max_spec x z) as [[_ ->]|[_ ->]].
      * apply elem_of_cons. right. apply elem_of_cons. by left.
      * apply elem_of_cons. by left.
    + apply elem_of_cons. right. apply elem_of_cons. by right.
Qed.

Lemma foldl_Qplus_le (l : list Q) (a M : Q) :
  (forall x, x ∈ l -> (x <= M)%Q) ->
  (foldl Qplus a l <= a + inject_Z (Z.of_nat (length l)) * M)%Q.
Proof.
  revert a. induction l as [|x l IH]; intros a H; cbn [foldl length].
  - change (inject_Z (Z.of_nat 0)) with 0%Q. lra.
  - eapply Qle_trans; [apply IH; intros y Hy; apply H, elem_of_cons; by right|].
    assert (Hx : (x <= M)%Q) by (apply H, elem_of_cons; by left).
    rewrite Nat2Z.inj_succ. unfold Z.succ. rewrite inject_Z_plus.
    change (inject_Z 1) with 1%Q. lra.
Qed.

Lemma foldl_Qplus_ge (l : list Q) (a m : Q) :
  (forall x, x ∈ l -> (m <= x)%Q) ->
  (a + inject_Z (Z.of_nat (length l)) * m <= foldl Qplus a l)%Q.
Proof.
  revert a. induction l as [|x l IH]; intros a H; cbn [foldl length].
  - change (inject_Z (Z.of_nat 0)) with 0%Q. lra.
  - eapply Qle_trans; [|apply IH; intros y Hy; apply H, elem_of_cons; by right].
    assert (Hx : (m <= x)%Q) by (apply H, elem_of_cons; by left).
    rewrite Nat2Z.inj_succ. unfold Z.succ. rewrite inject_Z_plus.
    change (inject_Z 1) with 1%Q. lra.
Qed.

Lemma length_pos_Q {A} (l : list A) : l <> [] -> (0 < inject_Z (Z.of_nat (length l)))%Q.
Proof.
  intros Hl. destruct l; [done|]. cbn [length].
  change 0%Q with (inject_Z 0). rewrite <- Zlt_Qlt. lia.
Qed.

Lemma mean_ge (l : list Q) (m : Q) :
  l <> [] -> (forall x, x ∈ l -> (m <= x)%Q) ->
  (m <= sum l / inject_Z (Z.of_nat (length l)))%Q.
Proof.
  intros Hl H. apply Qle_shift_div_l; [by apply length_pos_Q|].
  unfold sum. pose proof (foldl_Qplus_ge l 0 m H). lra.
Qed.

End PyMaxFacts.

(** ** [archive_manager.py]: ranking and the index file *)

Module ArchiveQueryFacts.
Import Py PyFacts PyMax ArchiveManager ArchiveManagerFacts ArchiveQueries Scenarios.

(** [get_top_agents(n)] returns min(n, size) records in descending order of
    fitness + novelty; together with the records it leaves out they are the
    archive, and no record left out scores more than a returned one. *)
Theorem get_top_agents_spec (a : AgentArchive) (n : nat) :
  length (get_top_agents a n) = Nat.min n (length (entries a))
  /\ StronglySorted (fun x y => (combined y <= combined x)%Q) (get_top_agents a n)
  /\ exists rest,
       get_top_agents a n ++ rest ≡ₚ values (entries a)
       /\ forall x y, x ∈ get_top_agents a n -> y ∈ rest -> (combined y <= combined x)%Q.
Proof.
  unfold get_top_agents.
  pose proof (sorted_desc_sorted combined (values (entries a))) as Hs.
  pose proof (sorted_desc_perm combined (values (entries a))) as Hp.
  set (sorted := sorted_desc combined (values (entries a))) in *.
  rewrite <- (take_drop n sorted) in Hs, Hp. split_and!.
  - rewrite length_take. unfold sorted, sorted_desc. rewrite length_py_sorted.
    unfold values. by rewrite length_fmap.
  - clear Hp. revert Hs. generalize (take n sorted) (drop n sorted). intros t r.
    induction t as [|x t IH]; cbn; intros Hs; [constructor|].
    apply StronglySorted_inv in Hs as [Hs Hx]. constructor; [by apply IH|].
    apply Forall_app in Hx. apply Hx.
  - exists (drop n sorted). split; [done|].
    intros x y Hx Hy. by apply (StronglySorted_app_cross _ _ _ Hs).
Qed.




End ArchiveQueryFacts.

(** ** [archive_manager.py]: the walk of [get_lineage] *)

Module LineageWalkFacts.
Import Py PyFacts PyMax ArchiveManager ArchiveQueries Scenarios Population.

Lemma lineage_loop_ancestry rank d fuel cur acc :
  ranked rank d ->
  (forall id, cur = Some id -> is_Some (dget id d) -> (rank id < fuel)%nat) ->
  exists l, lineage_loop fuel d cur acc = Some (acc ++ l) /\ ancestry d cur l.
Proof.
  intros Hr. revert cur acc. induction fuel as [|fuel IH]; intros cur acc Hcur.
  - cbn [lineage_loop]. destruct (truthy cur) eqn:Ht.
    + destruct cur as [id|]; [|done].
      destruct (dget id d) as [e|] eqn:He.
      * specialize (Hcur id eq_refl (mk_is_Some _ _ He)). lia.
      * exists []. rewrite app_nil_r. split; [done|]. constructor. right. eauto.
    + exists []. rewrite app_nil_r. split; [done|]. constructor. by left.
  - cbn [lineage_loop]. destruct (truthy cur) eqn:Ht.
    + destruct cur as [id|]; [|done].
      destruct (dget id d) as [e|] eqn:He.
      * destruct (IH (parent_id e) (acc ++ [e])) as (l & Hl & Ha).
        { intros p Hp Hin. specialize (Hr id e p He Hp Hin).
          specialize (Hcur id eq_refl (mk_is_Some _ _ He)). lia. }
        exists (e :: l). split.
        -- rewrite Hl. by rewrite <- app_assoc.
        -- by constructor.
      * exists []. rewrite app_nil_r. split; [done|]. constructor. right. eauto.
    + exists []. rewrite app_nil_r. split; [done|]. constructor. by left.
Qed.

(** X3: when every parent link inside the archive leads to a strictly lower
    rank, the walk of [get_lineage] from an agent ends within rank + 1
    iterations and returns the chain of ancestors: the agent first, then
    each time the record named by the parent_id of the previous one, up to a
    null or empty parent_id or one the archive does not hold. *)
Theorem get_lineage_walks_ancestry (rank : string -> nat) (a : AgentArchive)
    (id : string) (fuel : nat) :
  ranked rank (entries a) ->
  (rank id < fuel)%nat ->
  exists l, get_lineage fuel a id = Some l /\ ancestry (entries a) (Some id) l.
Proof.
  intros Hr Hid. unfold get_lineage.
  destruct (lineage_loop_ancestry rank (entries a) fuel (Some id) [] Hr) as (l & Hl & Ha).
  - intros ? [= <-] _. exact Hid.
  - exists l. by rewrite Hl.
Qed.

Lemma chain_ranked : ranked chain_rank (entries chain_manager).
Proof.
  intros k e p Hk Hp _. apply dget_Some_elem in Hk.
  repeat (apply elem_of_cons in Hk as [Hk|Hk];
          [injection Hk as -> ->; cbn in Hp; try discriminate Hp;
           injection Hp as <-; vm_compute; lia|]).
  by apply elem_of_nil in Hk.
Qed.

Lemma get_lineage_walks_ancestry_witness :
  exists l, get_lineage 3 chain_manager "child" = Some l
            /\ ancestry (entries chain_manager) (Some "child") l.
Proof.
  apply (get_lineage_walks_ancestry chain_rank).
  - exact chain_ranked.
  - vm_compute. lia.
Defined.

Lemma lineage_loop_no_root d fuel id acc :
  (forall k e, dget k d = Some e ->
     exists p, parent_id e = Some p /\ truthy (Some p) = true /\ is_Some (dget p d)) ->
  truthy (Some id) = true -> is_Some (dget id d) ->
  lineage_loop fuel d (Some id) acc = None.
Proof.
  intros Hd. revert id acc. induction fuel as [|fuel IH]; intros id acc Ht [e He];
    cbn [lineage_loop]; rewrite Ht, He; [done|].
  destruct (Hd id e He) as (p & -> & Htp & Hin). by apply IH.
Qed.

(** X4: [get_lineage] has no guard against cycles: when every record of the
    archive names as parent a non-empty id that the archive holds, the loop
    started at an archived agent has not ended after any number of
    iterations. *)
Theorem get_lineage_never_leaves_a_cycle (a : AgentArchive) (id : string) (fuel : nat) :
  (forall k e, dget k (entries a) = Some e ->
     exists p, parent_id e = Some p /\ truthy (Some p) = true
               /\ is_Some (dget p (entries a))) ->
  truthy (Some id) = true ->
  is_Some (get_agent a id) ->
  get_lineage fuel a id = None.
Proof. intros Hd Ht Hin. by apply lineage_loop_no_root. Qed.

Lemma get_lineage_never_leaves_a_cycle_witness :
  get_lineage 1000 cyclic_manager "ping" = None.
Proof.
  apply get_lineage_never_leaves_a_cycle.
  - intros k e Hk. apply dget_Some_elem in Hk.
    repeat (apply elem_of_cons in Hk as [Hk|Hk];
            [injection Hk as -> ->; eexists; split; [reflexivity|]; split; [reflexivity|];
             vm_compute; eauto|]).
    by apply elem_of_nil in Hk.
  - reflexivity.
  - vm_compute. eauto.
Defined.

End LineageWalkFacts.

(** ** [archive_manager.py]: [get_descendants] *)

Module DescendantFacts.
Import Py PyFacts PyMax ArchiveManager ArchiveQueries Scenarios Population.

Lemma is_parent_iff e id : is_parent e id = true <-> parent_id e = Some id.
Proof.
  unfold is_parent. destruct (parent_id e) as [p|]; [|done].
  rewrite String.eqb_eq. split; [by intros ->|by intros [= ->]].
Qed.

Lemma fold_children (d : dict ArchiveEntry) (rec : string -> option (list ArchiveEntry))
    (id : string) (vs acc : list ArchiveEntry) :
  (forall e, e ∈ vs -> is_parent e id = true ->
     exists sub, rec (agent_id e) = Some sub
                 /\ forall c, c ∈ sub <-> descends d (agent_id e) c) ->
  exists r,
    foldl (fun descendants entry =>
             match descendants with
             | None => None
             | Some ds =>
                 if is_parent entry id then
                   match rec (agent_id entry) with
                   | Some sub => Some ((ds ++ [entry]) ++ sub)
                   | None => None
                   end
                 else Some ds
             end) (Some acc) vs = Some (acc ++ r)
    /\ forall c, c ∈ r <->
         exists e, e ∈ vs /\ is_parent e id = true
                   /\ (c = e \/ descends d (agent_id e) c).
Proof.
  revert acc. induction vs as [|v vs IH]; intros acc H; cbn [foldl].
  - exists []. rewrite app_nil_r. split; [done|]. intros c. split.
    + intros Hc. by apply elem_of_nil in Hc.
    + intros (e & He & _). by apply elem_of_nil in He.
  - destruct (is_parent v id) eqn:Hv.
    + destruct (H v) as (sub & Hsub & Hdesc); [apply elem_of_cons; by left|done|].
      rewrite Hsub.
      destruct (IH ((acc ++ [v]) ++ sub)) as (r & Hr & Hin).
      { intros e He. apply H. apply elem_of_cons. by right. }
      exists (v :: sub ++ r). split.
      { rewrite Hr. by rewrite <- !app_assoc. }
      intros c. rewrite elem_of_cons, elem_of_app, Hin, Hdesc. split.
      * intros [->|[Hc|(e & He & Hp & Hc)]].
        -- exists v. split; [apply elem_of_cons; by left|]. split; [done|]. by left.
        -- exists v. split; [apply elem_of_cons; by left|]. split; [done|]. by right.
        -- exists e. split; [apply elem_of_cons; by right|]. done.
      * intros (e & He & Hp & Hc). apply elem_of_cons in He as [->|He].
        -- destruct Hc as [->|Hc]; [by left|right; by left].
        -- right. right. by exists e.
    + destruct (IH acc) as (r & Hr & Hin).
      { intros e He. apply H. apply elem_of_cons. by right. }
      exists r. split; [done|]. intros c. rewrite Hin. split.
      * intros (e & He & Hp & Hc). exists e. split; [apply elem_of_cons; by right|done].
      * intros (e & He & Hp & Hc). apply elem_of_cons in He as [->|He]; [congruence|].
        by exists e.
Qed.

(** X5: when every record ranks strictly below the id it names as parent,
    [get_descendants(agent_id)] returns within a nesting depth of rank + 1,
    and the list holds exactly the descendants of agent_id: its children in
    the archive and, recursively, the descendants of each of them. *)
Theorem get_descendants_collects_descendants (rank : string -> nat) (a : AgentArchive)
    (id : string) (depth : nat) :
  child_ranked rank (entries a) ->
  (rank id < depth)%nat ->
  exists l, get_descendants depth a id = Some l
            /\ forall c, c ∈ l <-> descends (entries a) id c.
Proof.
  intros Hr. revert id. induction depth as [|depth IH]; intros id Hid; [lia|].
  cbn [get_descendants].
  destruct (fold_children (entries a) (get_descendants depth a) id
              (values (entries a)) []) as (r & Hr' & Hin).
  - intros e He Hp. apply IH. apply is_parent_iff in Hp.
    specialize (Hr e id He Hp). lia.
  - exists r. split; [exact Hr'|]. intros c. rewrite Hin. split.
    + intros (e & He & Hp & [->|Hc]).
      * by apply descends_child.
      * by eapply descends_below.
    + intros Hd. inversion Hd as [id' e He Hp|id' e c' He Hp Hc]; subst.
      * exists c. split; [done|]. split; [done|]. by left.
      * exists e. split; [done|]. split; [done|]. by right.
Qed.

Lemma chain_child_ranked : child_ranked chain_height (entries chain_manager).
Proof.
  intros e p He Hp. cbn in He.
  repeat (apply elem_of_cons in He as [He|He];
          [subst e; cbn in Hp; try discriminate Hp; injection Hp as <-; vm_compute; lia|]).
  by apply elem_of_nil in He.
Qed.

Lemma get_descendants_collects_descendants_witness :
  exists l, get_descendants 3 chain_manager "grandparent" = Some l
            /\ forall c, c ∈ l <-> descends (entries chain_manager) "grandparent" c.
Proof.
  apply (get_descendants_collects_descendants chain_height).
  - exact chain_child_ranked.
  - vm_compute. lia.
Defined.

End DescendantFacts.

(** ** [archive_manager.py]: [get_statistics] *)

Module StatisticsFacts.
Import Py PyFacts PyMax PyMaxFacts Scenarios ArchiveManager ArchiveQueries.

Lemma best_spec (l : list Q) :
  l <> [] -> best l ∈ l /\ forall x, x ∈ l -> (x <= best l)%Q.
Proof.
  intros Hl. unfold best.
  destruct (max_by_spec (fun x : Q => x) l Hl) as (m & -> & Hm & Hge). done.
Qed.

(** X6: on a non-empty archive [get_statistics] counts the entries, reports
    as best_fitness and best_novelty scores that some record has and no
    record exceeds, and as generations one more than the highest generation
    of a record. *)
Theorem get_statistics_bounds (a : AgentArchive) :
  entries a <> [] ->
  total_agents (get_statistics a) = length (entries a)
  /\ (forall e, e ∈ get_all_agents a ->
        (fitness_score e <= best_fitness (get_statistics a))%Q
        /\ (novelty_score e <= best_novelty (get_statistics a))%Q
        /\ (generation e < generations (get_statistics a))%Z)
  /\ (exists e, e ∈ get_all_agents a
                /\ best_fitness (get_statistics a) = fitness_score e)
  /\ (exists e, e ∈ get_all_agents a
                /\ best_novelty (get_statistics a) = novelty_score e)
  /\ (exists e, e ∈ get_all_agents a
                /\ generations (get_statistics a) = (generation e + 1)%Z).
Proof.
  intros Hne. unfold get_statistics, get_all_agents.
  destruct (values (entries a)) as [|e es] eqn:Hv.
  { destruct (entries a); [done|discriminate Hv]. }
  cbn [total_agents best_fitness best_novelty generations avg_fitness avg_novelty].
  assert (Hf : fitness_score <$> e :: es <> []) by done.
  assert (Hn : novelty_score <$> e :: es <> []) by done.
  destruct (best_spec _ Hf) as [Hfin Hfge].
  destruct (best_spec _ Hn) as [Hnin Hnge].
  split; [done|]. split.
  { intros x Hx. split; [|split].
    - apply Hfge. by apply list_elem_of_fmap_2.
    - apply Hnge. by apply list_elem_of_fmap_2.
    - assert (generation x <= max_Z (generation e) (generation <$> es))%Z; [|lia].
      apply max_Z_ge. change (generation x ∈ generation <$> e :: es).
      by apply list_elem_of_fmap_2. }
  split.
  { apply list_elem_of_fmap in Hfin as (x & Hx & Hin). by exists x. }
  split.
  { apply list_elem_of_fmap in Hnin as (x & Hx & Hin). by exists x. }
  pose proof (max_Z_elem (generation e) (generation <$> es)) as Hg.
  change (max_Z (generation e) (generation <$> es) ∈ generation <$> e :: es) in Hg.
  apply list_elem_of_fmap in Hg as (x & Hx & Hin). exists x. by rewrite Hx.
Qed.

Lemma get_statistics_bounds_witness :
  total_agents (get_statistics five_agents) = 5%nat
  /\ exists e, e ∈ get_all_agents five_agents
               /\ best_fitness (get_statistics five_agents) = fitness_score e.
Proof.
  destruct (get_statistics_bounds five_agents) as (Ht & _ & Hf & _).
  - discriminate.
  - split; [exact Ht|exact Hf].
Defined.

End StatisticsFacts.

(** ** [agent_archive.py]: metadata file, ranking, averages, lineage *)

Module AgentArchiveFacts.
Import Py PyFacts PyMax PyMaxFacts Scenarios Population AgentArchive AgentArchiveQueries.




(** X8: [get_top_agents(n)] of [agent_archive.py] returns only valid agents
    of the archive, min(n, number of valid agents) of them, in descending
    order of average_score; with some rest they are a permutation of the
    valid agents, and no agent of the rest has a higher average than a
    returned one. *)
Theorem agent_archive_top_agents_spec (a : AgentArchive) (n : nat) :
  Forall (fun x => is_valid x = true /\ x ∈ get_all_agents a) (get_top_agents a n)
  /\ length (get_top_agents a n) = Nat.min n (length (get_valid_agents a))
  /\ StronglySorted (fun x y => (average_score y <= average_score x)%Q)
       (get_top_agents a n)
  /\ exists rest,
       get_top_agents a n ++ rest ≡ₚ get_valid_agents a
       /\ forall x y, x ∈ get_top_agents a n -> y ∈ rest ->
                      (average_score y <= average_score x)%Q.
Proof.
  unfold get_top_agents.
  pose proof (sorted_desc_sorted average_score (get_valid_agents a)) as Hs.
  pose proof (sorted_desc_perm average_score (get_valid_agents a)) as Hp.
  set (sorted := sorted_desc average_score (get_valid_agents a)) in *.
  split_and!.
  - apply Forall_forall. intros x Hx. apply elem_of_take_full in Hx.
    rewrite Hp in Hx. unfold get_valid_agents in Hx.
    by apply elem_of_bfilter in Hx as [Hin Hv].
  - rewrite length_take. by rewrite Hp.
  - rewrite <- (take_drop n sorted) in Hs. revert Hs.
    generalize (take n sorted) (drop n sorted). intros t r.
    induction t as [|x t IH]; cbn; intros Hs; [constructor|].
    apply StronglySorted_inv in Hs as [Hs Hx]. constructor; [by apply IH|].
    apply Forall_app in Hx. apply Hx.
  - exists (drop n sorted). split; [by rewrite take_drop|].
    rewrite <- (take_drop n sorted) in Hs.
    intros x y Hx Hy. by apply (StronglySorted_app_cross _ _ _ Hs).
Qed.

Lemma mean_ge_values (given : dict Q) (m : Q) :
  given <> [] -> (forall s, s ∈ values given -> (m <= s)%Q) ->
  (m <= sum (values given) / inject_Z (Z.of_nat (length given)))%Q.
Proof.
  intros Hne Hm.
  replace (length given) with (length (values given))
    by (unfold values; apply length_fmap).
  apply mean_ge; [by destruct given|exact Hm].
Qed.

(** X9: the average_score that [add_agent] of [agent_archive.py] stores is 0
    without benchmark scores and for an empty score dictionary, the score
    itself for a single benchmark, and not negative when no benchmark score
    is negative. *)
Theorem add_agent_average_edge_cases (a : AgentArchive) (dk : Disk)
    (path : string) (parent : option string) (scores : option (dict Q)) (valid : bool)
    (meta : option (list (string * value))) (new_id t1 t2 : string)
    (agent : ArchivedAgent) (a' : AgentArchive) (dk' : Disk) :
  add_agent a dk path parent scores valid meta new_id t1 t2 = inr (agent, a', dk') ->
  (scores = None \/ scores = Some [] -> average_score agent = 0%Q)
  /\ (forall benchmark s, scores = Some [(benchmark, s)] -> (average_score agent == s)%Q)
  /\ (forall given, scores = Some given ->
        (forall s, s ∈ values given -> (0 <= s)%Q) ->
        (0 <= average_score agent)%Q).
Proof.
  unfold add_agent. destruct (copy_agent_code _ _ _) as [err|fs1]; [done|].
  intros [= <- _ _]. cbn [average_score]. split_and!.
  - by intros [->| ->].
  - intros benchmark s ->. cbn [values fmap list_fmap snd length]. unfold sum.
    cbn [foldl]. change (inject_Z (Z.of_nat 1)) with 1%Q. field.
  - intros given -> Hpos. destruct given as [|kv given]; [done|].
    apply mean_ge_values; [done|exact Hpos].
Qed.

Lemma add_agent_average_edge_cases_witness :
  exists agent a' dk',
    newborn_add = inr (agent, a', dk') /\ (0 <= average_score agent)%Q.
Proof.
  eexists _, _, _. split; [reflexivity|].
  destruct (add_agent_average_edge_cases chain_archive seed_disk "work/a.py"
              (Some "child") (Some [("suite", 0.8%Q); ("extra", 0.4%Q)]) true None
              "newborn" "t1" "t2" _ _ _ eq_refl) as (_ & _ & H).
  apply (H _ eq_refl). intros s Hs. cbn in Hs.
  repeat (apply elem_of_cons in Hs as [->|Hs]; [by vm_compute|]).
  by apply elem_of_nil in Hs.
Defined.

Lemma lineage_loop_app fuel a cur acc acc' :
  lineage_loop fuel a cur (acc ++ acc')
  = (fun l => acc ++ l) <$> lineage_loop fuel a cur acc'.
Proof.
  revert cur acc'. induction fuel as [|fuel IH]; intros cur acc'; cbn [lineage_loop].
  - destruct (truthy cur); [|done]. destruct cur as [id|]; [|done].
    by destruct (get_agent a id).
  - destruct (truthy cur); [|done]. destruct cur as [id|]; [|done].
    destruct (get_agent a id) as [x|]; [|done].
    rewrite <- app_assoc. apply IH.
Qed.

Lemma lineage_loop_unchanged fuel a a' new_id agent cur acc :
  agents a' = dset new_id agent (agents a) ->
  (forall x, x ∈ get_all_agents a -> parent_id x <> Some new_id) ->
  cur <> Some new_id ->
  lineage_loop fuel a' cur acc = lineage_loop fuel a cur acc.
Proof.
  intros Ha' Hpar. revert cur acc.
  assert (Hget : forall id, Some id <> Some new_id -> get_agent a' id = get_agent a id).
  { intros id Hid. unfold get_agent. rewrite Ha'. apply dget_dset_ne. congruence. }
  induction fuel as [|fuel IH]; intros cur acc Hcur; cbn [lineage_loop].
  - destruct (truthy cur); [|done]. destruct cur as [id|]; [|done].
    by rewrite Hget.
  - destruct (truthy cur); [|done]. destruct cur as [id|]; [|done].
    rewrite Hget by done. destruct (get_agent a id) as [x|] eqn:Hx; [|done].
    apply IH. apply Hpar. unfold get_agent in Hx. apply dget_Some_elem in Hx.
    unfold get_all_agents, values. by apply (list_elem_of_fmap_2 snd) in Hx.
Qed.

(** X10: after [add_agent] with parent p under a fresh, non-empty id that no
    archived agent names as parent, [get_agent_lineage] of the new agent is
    the lineage of p before the call followed by the new agent, and the new
    agent is among [get_agent_children(p)]. *)
Theorem child_lineage_extends_parent_lineage (a : AgentArchive) (dk : Disk)
    (path p : string) (scores : option (dict Q)) (valid : bool)
    (meta : option (list (string * value))) (new_id t1 t2 : string)
    (agent : ArchivedAgent) (a' : AgentArchive) (dk' : Disk)
    (fuel : nat) (lineage : list ArchivedAgent) :
  add_agent a dk path (Some p) scores valid meta new_id t1 t2 = inr (agent, a', dk') ->
  truthy (Some new_id) = true ->
  p <> new_id ->
  (forall x, x ∈ get_all_agents a -> parent_id x <> Some new_id) ->
  get_agent_lineage fuel a p = Some lineage ->
  get_agent_lineage (S fuel) a' new_id = Some (lineage ++ [agent])
  /\ agent ∈ get_agent_children a' p.
Proof.
  unfold add_agent. destruct (copy_agent_code _ _ _) as [err|fs1]; [done|].
  intros [= Hagent Ha' _] Ht Hp Hpar Hlin. split.
  - unfold get_agent_lineage in *. cbn [lineage_loop]. rewrite Ht.
    assert (Hget : get_agent a' new_id = Some agent).
    { unfold get_agent. rewrite <- Ha'. cbn [agents]. rewrite dget_dset.
      by rewrite Hagent. }
    rewrite Hget.
    assert (Hpa : parent_id agent = Some p) by (by rewrite <- Hagent).
    rewrite Hpa.
    rewrite (lineage_loop_unchanged fuel a a' new_id agent).
    + rewrite <- (app_nil_r ([] ++ [agent])).
      rewrite (lineage_loop_app fuel a (Some p) ([] ++ [agent]) []).
      destruct (lineage_loop fuel a (Some p) []) as [l0|]; [|done].
      cbn in Hlin. injection Hlin as <-. cbn [fmap option_fmap option_map].
      f_equal. change ([] ++ [agent]) with [agent].
      rewrite reverse_app. by rewrite reverse_singleton.
    + rewrite <- Ha'. cbn [agents]. by rewrite Hagent.
    + exact Hpar.
    + congruence.
  - unfold get_agent_children. apply elem_of_bfilter. split.
    + assert (Hin : (new_id, agent) ∈ agents a').
      { apply dget_Some_elem. rewrite <- Ha'. cbn [agents]. rewrite dget_dset.
        by rewrite Hagent. }
      unfold values. by apply (list_elem_of_fmap_2 snd) in Hin.
    + rewrite <- Hagent. cbn [parent_id]. by rewrite String.eqb_refl.
Qed.

Lemma child_lineage_extends_parent_lineage_witness :
  exists agent a' dk' lineage,
    newborn_add = inr (agent, a', dk')
    /\ get_agent_lineage 3 chain_archive "child" = Some lineage
    /\ get_agent_lineage 4 a' "newborn" = Some (lineage ++ [agent])
    /\ agent ∈ get_agent_children a' "child".
Proof.
  eexists _, _, _, _. split; [reflexivity|]. split; [reflexivity|].
  eapply (child_lineage_extends_parent_lineage chain_archive seed_disk "work/a.py" "child"
            (Some [("suite", 0.8%Q); ("extra", 0.4%Q)]) true None "newborn" "t1" "t2").
  - reflexivity.
  - reflexivity.
  - discriminate.
  - intros x Hx. cbn in Hx.
    repeat (apply elem_of_cons in Hx as [->|Hx]; [cbn; discriminate|]).
    by apply elem_of_nil in Hx.
  - reflexivity.
Defined.

End AgentArchiveFacts.

(** ** [parent_selector.py]: the strategies *)

Module StrategyFacts.
Import Py PyFacts PyMax PyMaxFacts Scenarios ParentSelector ArchiveManager Strategies.

Lemma take_sorted_desc {A} (key : A -> Q) (l : list A) (n : nat) :
  length (take n (sorted_desc key l)) = Nat.min n (length l)
  /\ StronglySorted (fun x y => (key y <= key x)%Q) (take n (sorted_desc key l))
  /\ exists rest,
       take n (sorted_desc key l) ++ rest ≡ₚ l
       /\ forall x y, x ∈ take n (sorted_desc key l) -> y ∈ rest -> (key y <= key x)%Q.
Proof.
  pose proof (sorted_desc_sorted key l) as Hs.
  pose proof (sorted_desc_perm key l) as Hp.
  set (sorted := sorted_desc key l) in *. split_and!.
  - rewrite length_take. by rewrite Hp.
  - rewrite <- (take_drop n sorted) in Hs. revert Hs.
    generalize (take n sorted) (drop n sorted). intros t r.
    induction t as [|x t IH]; cbn; intros Hs; [constructor|].
    apply StronglySorted_inv in Hs as [Hs Hx]. constructor; [by apply IH|].
    apply Forall_app in Hx. apply Hx.
  - exists (drop n sorted). split; [by rewrite take_drop|].
    rewrite <- (take_drop n sorted) in Hs.
    intros x y Hx Hy. by apply (StronglySorted_app_cross _ _ _ Hs).
Qed.

(** X11: [NoveltySelection.select] returns min(n_parents, size of the
    archive) records in descending order of novelty_score; with some rest
    they are a permutation of the archive, and no record of the rest is more
    novel than a returned one. *)
Theorem novelty_select_spec (archive : AgentArchive) (n : nat) :
  length (novelty_select archive n) = Nat.min n (length (get_all_agents archive))
  /\ StronglySorted (fun x y => (novelty_score y <= novelty_score x)%Q)
       (novelty_select archive n)
  /\ exists rest,
       novelty_select archive n ++ rest ≡ₚ get_all_agents archive
       /\ forall x y, x ∈ novelty_select archive n -> y ∈ rest ->
                      (novelty_score y <= novelty_score x)%Q.
Proof.
  assert (Heq : novelty_select archive n
                = take n (sorted_desc novelty_score (get_all_agents archive))).
  { unfold novelty_select. destruct (get_all_agents archive); [by destruct n|done]. }
  rewrite Heq. apply take_sorted_desc.
Qed.

(** X1: [EliteSelection.select], which is [AgentArchive.get_top_agents] of
    [archive_manager.py], returns min(n_parents, size of the archive)
    records in descending order of fitness_score + novelty_score; the
    returned records and some rest are a permutation of the archive, and no
    record of the rest scores more than a returned one. *)
Theorem elite_select_spec (archive : AgentArchive) (n : nat) :
  length (elite_select archive n) = Nat.min n (length (get_all_agents archive))
  /\ StronglySorted
       (fun x y => (fitness_score y + novelty_score y
                    <= fitness_score x + novelty_score x)%Q)
       (elite_select archive n)
  /\ exists rest,
       elite_select archive n ++ rest ≡ₚ get_all_agents archive
       /\ forall x y, x ∈ elite_select archive n -> y ∈ rest ->
                      (fitness_score y + novelty_score y
                       <= fitness_score x + novelty_score x)%Q.
Proof. apply (take_sorted_desc combined). Qed.

Lemma py_sorted_all_before {A} (before : A -> A -> bool) (l : list A) :
  (forall x y, before x y = true) -> py_sorted before l = l.
Proof.
  intros H. induction l as [|x l IH]; [done|]. cbn [py_sorted foldr].
  fold (py_sorted before l). rewrite IH. destruct l as [|y l]; [done|].
  cbn [insert_stable]. by rewrite H.
Qed.

(** X12: for a fitness weight that is not negative, [HybridSelection.select]
    returns min(n_parents, number of agents) agents in descending order of
    the combined score the code computes, and no agent left out has a larger
    combined score than a selected one; a strictly larger combined score
    goes with a strictly larger average_score, and for a fitness weight of
    zero the result is the first n_parents agents in archive order. *)
Theorem hybrid_select_orders_by_weighted_fitness {Agent : Type} (avg : Agent -> Q)
    (self : HybridSelection) (agents : list Agent) (n : nat) :
  (0 <= fitness_weight self)%Q ->
  length (select avg self agents n) = Nat.min n (length agents)
  /\ StronglySorted
       (fun x y => (_combined_score avg self y <= _combined_score avg self x)%Q)
       (select avg self agents n)
  /\ (exists rest,
        select avg self agents n ++ rest ≡ₚ agents
        /\ forall x y, x ∈ select avg self agents n -> y ∈ rest ->
                       (_combined_score avg self y <= _combined_score avg self x)%Q)
  /\ (forall x y, (_combined_score avg self x < _combined_score avg self y)%Q ->
                  (avg x < avg y)%Q)
  /\ ((fitness_weight self == 0)%Q -> select avg self agents n = take n agents).
Proof.
  intros Hw.
  assert (Heq : select avg self agents n
                = take n (sorted_desc (_combined_score avg self) agents)).
  { unfold select. destruct agents; [by destruct n|done]. }
  rewrite Heq.
  destruct (take_sorted_desc (_combined_score avg self) agents n) as (Hl & Hs & Hr).
  split; [exact Hl|]. split; [exact Hs|]. split; [exact Hr|]. split.
  - intros x y Hlt. unfold _combined_score in Hlt.
    apply Qnot_le_lt. intros Hle.
    assert (fitness_weight self * avg y <= fitness_weight self * avg x)%Q.
    { rewrite !(Qmult_comm (fitness_weight self)). by apply Qmult_le_compat_r. }
    lra.
  - intros H0. f_equal. unfold sorted_desc, _combined_score.
    apply py_sorted_all_before. intros x y. apply Qle_bool_iff. rewrite H0. lra.
Qed.

Lemma hybrid_select_orders_by_weighted_fitness_witness :
  length (select average_score balanced [explorer; exploiter] 1) = 1%nat
  /\ forall x y,
       (_combined_score average_score balanced x
        < _combined_score average_score balanced y)%Q ->
       (average_score x < average_score y)%Q.
Proof.
  destruct (hybrid_select_orders_by_weighted_fitness average_score balanced
              [explorer; exploiter] 1) as (Hl & _ & _ & Hm & _).
  - by vm_compute.
  - split; [exact Hl|exact Hm].
Defined.

Lemma weight_pos (a : ArchiveEntry) : (0 < weight a)%Q.
Proof.
  unfold weight. destruct (lt_bool 0.01 (fitness_score a)) eqn:E.
  - apply lt_bool_iff in E. eapply Qlt_trans; [|exact E]. reflexivity.
  - reflexivity.
Qed.

Lemma weight_mono (a b : ArchiveEntry) :
  (fitness_score a <= fitness_score b)%Q -> (weight a <= weight b)%Q.
Proof.
  intros Hle. unfold weight.
  destruct (lt_bool 0.01 (fitness_score a)) eqn:Ea,
           (lt_bool 0.01 (fitness_score b)) eqn:Eb.
  - done.
  - apply lt_bool_false in Eb. by eapply Qle_trans.
  - apply lt_bool_iff in Eb. by apply Qlt_le_weak.
  - apply Qle_refl.
Qed.

Lemma weight_floor (a : ArchiveEntry) :
  (fitness_score a <= 0.01)%Q -> weight a = 0.01%Q.
Proof.
  intros Hle. unfold weight. destruct (lt_bool 0.01 (fitness_score a)) eqn:E; [|done].
  apply lt_bool_iff in E. by apply Qlt_not_le in E.
Qed.

Lemma foldl_Qplus_pos (l : list Q) (a : Q) :
  (forall x, x ∈ l -> (0 < x)%Q) -> (0 < a)%Q -> (0 < foldl Qplus a l)%Q.
Proof.
  revert a. induction l as [|x l IH]; intros a H Ha; [done|]. cbn [foldl].
  apply IH.
  - intros y Hy. apply H. apply elem_of_cons. by right.
  - assert (0 < x)%Q by (apply H, elem_of_cons; by left). lra.
Qed.

Lemma sum_pos (l : list Q) : l <> [] -> (forall x, x ∈ l -> (0 < x)%Q) -> (0 < sum l)%Q.
Proof.
  destruct l as [|x l]; [done|]. intros _ H. unfold sum. cbn [foldl].
  apply foldl_Qplus_pos.
  - intros y Hy. apply H. apply elem_of_cons. by right.
  - assert (0 < x)%Q by (apply H, elem_of_cons; by left). lra.
Qed.

(** X13: on a non-empty archive whose fitness scores are at most 1,
    [FitnessProportionalSelection.select] draws from all agents with one
    weight per agent; every weight is positive, also for an agent of fitness
    zero or below, an agent of no larger fitness has no larger weight, and
    agents of fitness at most 0.01 have equal weights. *)
Theorem selection_weights_follow_fitness
    (choices : list ArchiveEntry -> list Q -> nat -> list ArchiveEntry)
    (archive : AgentArchive) (n : nat) :
  entries archive <> [] ->
  (forall a, a ∈ get_all_agents archive -> (fitness_score a <= 1)%Q) ->
  fitness_proportional_select choices archive n
  = choices (get_all_agents archive) (probabilities (get_all_agents archive)) n
  /\ length (probabilities (get_all_agents archive)) = length (get_all_agents archive)
  /\ (forall p, p ∈ probabilities (get_all_agents archive) -> (0 < p)%Q)
  /\ (forall i j a b p q,
        get_all_agents archive !! i = Some a ->
        get_all_agents archive !! j = Some b ->
        probabilities (get_all_agents archive) !! i = Some p ->
        probabilities (get_all_agents archive) !! j = Some q ->
        ((fitness_score a <= fitness_score b)%Q -> (p <= q)%Q)
        /\ ((fitness_score a <= 0.01)%Q -> (fitness_score b <= 0.01)%Q -> p = q)).
Proof.
  intros Hne Hbound. unfold fitness_proportional_select.
  assert (Hag : get_all_agents archive <> []).
  { unfold get_all_agents. by destruct (entries archive). }
  clear Hbound. set (agents := get_all_agents archive) in *.
  split; [by destruct agents|]. unfold probabilities.
  assert (Hs : (0 < sum (weight <$> agents))%Q).
  { apply sum_pos; [by destruct agents|].
    intros x (a & -> & _)%list_elem_of_fmap. apply weight_pos. }
  split_and!.
  - by rewrite length_fmap.
  - intros p (a & -> & _)%list_elem_of_fmap.
    apply Qlt_shift_div_l; [done|]. pose proof (weight_pos a). lra.
  - intros i j a b p q Ha Hb Hp Hq.
    rewrite list_lookup_fmap, Ha in Hp. rewrite list_lookup_fmap, Hb in Hq.
    cbn in Hp, Hq. injection Hp as <-. injection Hq as <-. split.
    + intros Hle. apply Qmult_le_compat_r.
      * by apply weight_mono.
      * apply Qlt_le_weak, Qinv_lt_0_compat, Hs.
    + intros Hfa Hfb. by rewrite (weight_floor a), (weight_floor b).
Qed.

Lemma selection_weights_follow_fitness_witness :
  Forall (fun p => (0 < p)%Q) (probabilities (get_all_agents five_agents)).
Proof.
  destruct (selection_weights_follow_fitness (fun l _ k => take k l) five_agents 1)
    as (_ & _ & H & _).
  - discriminate.
  - intros a Ha. cbn in Ha.
    repeat (apply elem_of_cons in Ha as [->|Ha]; [by vm_compute|]).
    by apply elem_of_nil in Ha.
  - apply Forall_forall. exact H.
Defined.

(** [random.sample(population, k)] draws [k] distinct positions of the
    population: the hypothesis [sample_ok] below. *)
Lemma tournaments_spec
    (sample : nat -> list ArchiveEntry -> nat -> list ArchiveEntry)
    (sample_ok : forall i l k, (k <= length l)%nat ->
                   sample i l k ⊆+ l /\ length (sample i l k) = k)
    (size : nat) (agents : list ArchiveEntry) (i n : nat) :
  (0 < size)%nat -> agents <> [] ->
  exists winners,
    tournaments sample size agents i n = Some winners
    /\ length winners = n
    /\ (forall w, w ∈ winners -> w ∈ agents)
    /\ ((length agents <= size)%nat ->
        forall w x, w ∈ winners -> x ∈ agents ->
                    (fitness_score x <= fitness_score w)%Q).
Proof.
  intros Hsize Hne. revert i. induction n as [|n IH]; intros i; cbn [tournaments].
  - exists []. split_and!; [done|done|..].
    + intros w Hw. by apply elem_of_nil in Hw.
    + intros _ w x Hw. by apply elem_of_nil in Hw.
  - set (k := Nat.min size (length agents)).
    destruct (sample_ok i agents k) as [Hsub Hlen]; [lia|].
    assert (Hk : (0 < k)%nat).
    { unfold k. destruct agents; [done|]. cbn [length]. lia. }
    assert (Hts : sample i agents k <> []).
    { intros Hnil. rewrite Hnil in Hlen. cbn in Hlen. lia. }
    destruct (max_by_spec fitness_score _ Hts) as (m & Hm & Hin & Hge).
    rewrite Hm. destruct (IH (S i)) as (rest & -> & Hl & Hmem & Hmax).
    exists (m :: rest). split_and!; [done|cbn; lia|..].
    + intros w [->|Hw]%elem_of_cons; [|by apply Hmem].
      eapply elem_of_submseteq; eauto.
    + intros Hall w x [->|Hw]%elem_of_cons Hx; [|by apply Hmax].
      apply Hge.
      assert (Hperm : sample i agents k ≡ₚ agents).
      { apply submseteq_length_Permutation; [done|]. rewrite Hlen. unfold k. lia. }
      by rewrite Hperm.
Qed.

Lemma tournaments_zero_size
    (sample : nat -> list ArchiveEntry -> nat -> list ArchiveEntry)
    (sample_ok : forall i l k, (k <= length l)%nat ->
                   sample i l k ⊆+ l /\ length (sample i l k) = k)
    (agents : list ArchiveEntry) (i n : nat) :
  tournaments sample 0 agents i (S n) = None.
Proof.
  cbn [tournaments]. destruct (sample_ok i agents 0) as [_ Hlen]; [lia|].
  change (Nat.min 0 (length agents)) with 0%nat.
  destruct (sample i agents 0); [done|discriminate Hlen].
Qed.

(** X14: with a sampler that returns k distinct positions of the population,
    a tournament size of at least 1 and a non-empty archive,
    [TournamentSelection.select] returns n_parents winners, each a record of
    the archive; when the tournament size is at least the size of the
    archive every winner has the highest fitness of the archive. *)
Theorem tournament_select_spec
    (sample : nat -> list ArchiveEntry -> nat -> list ArchiveEntry)
    (tournament_size : nat) (archive : AgentArchive) (n : nat) :
  (forall i l k, (k <= length l)%nat ->
     sample i l k ⊆+ l /\ length (sample i l k) = k) ->
  (0 < tournament_size)%nat ->
  entries archive <> [] ->
  exists winners,
    tournament_select sample tournament_size archive n = Some winners
    /\ length winners = n
    /\ (forall w, w ∈ winners -> w ∈ get_all_agents archive)
    /\ ((length (get_all_agents archive) <= tournament_size)%nat ->
        forall w x, w ∈ winners -> x ∈ get_all_agents archive ->
                    (fitness_score x <= fitness_score w)%Q).
Proof.
  intros Hs Hsize Hne. unfold tournament_select.
  assert (Hag : get_all_agents archive <> []).
  { unfold get_all_agents. by destruct (entries archive). }
  destruct (tournaments_spec sample Hs tournament_size (get_all_agents archive) 0 n
              Hsize Hag) as (winners & Hw & Hrest).
  exists winners. split; [|exact Hrest].
  by destruct (get_all_agents archive).
Qed.

Lemma take_sample_ok (i : nat) (l : list ArchiveEntry) (k : nat) :
  (k <= length l)%nat -> take k l ⊆+ l /\ length (take k l) = k.
Proof.
  intros Hk. split.
  - apply sublist_submseteq, sublist_take.
  - rewrite length_take. lia.
Qed.

Lemma tournament_select_spec_witness :
  exists winners,
    tournament_select (fun _ l k => take k l) 3 five_agents 2 = Some winners
    /\ length winners = 2%nat.
Proof.
  destruct (tournament_select_spec (fun _ l k => take k l) 3 five_agents 2)
    as (winners & Hw & Hl & _).
  - exact take_sample_ok.
  - lia.
  - discriminate.
  - exists winners. split; [exact Hw|exact Hl].
Defined.

(** with tournament size 0 every tournament is empty, and [max] raises:
    selecting at least one parent from a non-empty archive fails. *)
Theorem tournament_of_size_zero_raises
    (sample : nat -> list ArchiveEntry -> nat -> list ArchiveEntry)
    (archive : AgentArchive) (n : nat) :
  (forall i l k, (k <= length l)%nat ->
     sample i l k ⊆+ l /\ length (sample i l k) = k) ->
  entries archive <> [] ->
  (0 < n)%nat ->
  tournament_select sample 0 archive n = None.
Proof.
  intros Hs Hne Hn. unfold tournament_select.
  destruct n as [|n]; [lia|].
  unfold get_all_agents. destruct (entries archive) as [|kv d]; [done|].
  apply (tournaments_zero_size sample Hs).
Qed.

Lemma tournament_of_size_zero_raises_witness :
  tournament_select (fun _ l k => take k l) 0 five_agents 1 = None.
Proof.
  apply tournament_of_size_zero_raises.
  - exact take_sample_ok.
  - discriminate.
  - lia.
Defined.

End StrategyFacts.

(** ** [novelty_calculator.py]: bounds and runs *)

Module NoveltyBoundFacts.
Import Py PyFacts PyMax PyMaxFacts Scenarios NoveltyCalculator NoveltyFacts NoveltyBounds.

Lemma inject_S (n : nat) : (inject_Z (Z.of_nat (S n)) == inject_Z (Z.of_nat n) + 1)%Q.
Proof.
  rewrite Nat2Z.inj_succ. unfold Z.succ. rewrite inject_Z_plus. reflexivity.
Qed.

Lemma within_add (a : acc) (x : Q) :
  within a -> (0 <= x)%Q -> (x <= 1)%Q -> within ((a.1 + x)%Q, S a.2).
Proof.
  intros [H0 H1] Hx0 Hx1. split; cbn [fst snd].
  - lra.
  - rewrite inject_S. lra.
Qed.

Lemma foldl_within {B} (step : acc -> B -> acc) (l : list B) (a : acc) :
  (forall a x, x ∈ l -> within a -> within (step a x)) ->
  within a -> within (foldl step a l).
Proof.
  revert a. induction l as [|x l IH]; intros a H Ha; [done|]. cbn [foldl].
  apply IH.
  - intros b y Hy. apply H. apply elem_of_cons. by right.
  - apply H; [apply elem_of_cons; by left|done].
Qed.

Lemma numeric_step_within c1 c2 a f :
  nonneg_numeric c1 -> nonneg_numeric c2 -> f ∈ numeric_features ->
  within a -> within (numeric_step c1 c2 a f).
Proof.
  intros H1 H2 Hf Ha. unfold numeric_step.
  destruct (f c1) as [v1|] eqn:E1; [|done].
  destruct (f c2) as [v2|] eqn:E2; [|done].
  destruct (Qlt_bool 0 (v1 + v2)) eqn:E; [|done]. apply Qlt_bool_iff in E.
  pose proof (H1 f v1 Hf E1) as Hv1. pose proof (H2 f v2 Hf E2) as Hv2.
  apply within_add; [done|..].
  - apply div_nonneg; [apply Qabs_nonneg|done].
  - apply Qle_shift_div_r; [done|]. apply Qabs_Qle_condition. split; lra.
Qed.

Lemma boolean_step_within c1 c2 a f : within a -> within (boolean_step c1 c2 a f).
Proof.
  intros Ha. unfold boolean_step.
  destruct (f c1) as [b1|]; [|done]. destruct (f c2) as [b2|]; [|done].
  destruct (eqb b1 b2).
  - destruct Ha as [H0 H1]. split; cbn [fst snd]; [done|]. rewrite inject_S. lra.
  - apply within_add; [done|lra|lra].
Qed.

Lemma set_step_within a s1 s2 : within a -> within (set_step a s1 s2).
Proof.
  intros Ha. unfold set_step.
  destruct s1 as [set1|]; [|done]. destruct s2 as [set2|]; [|done].
  destruct (bool_decide (set1 ≠ ∅) || bool_decide (set2 ≠ ∅)) eqn:E; [|done].
  assert (Hu : (0 < len (set1 ∪ set2))%Q).
  { by apply len_pos, union_nonempty. }
  assert (Hi : (0 <= len (set1 ∩ set2))%Q).
  { unfold len. change 0%Q with (inject_Z 0). rewrite <- Zle_Qle. lia. }
  assert (Hle : (len (set1 ∩ set2) <= len (set1 ∪ set2))%Q).
  { apply len_mono. intros z [Hz _]%elem_of_intersection. apply elem_of_union. by left. }
  cbv zeta. apply within_add; [done|..].
  - assert (len (set1 ∩ set2) / len (set1 ∪ set2) <= 1)%Q; [|lra].
    apply Qle_shift_div_r; [done|]. lra.
  - assert (0 <= len (set1 ∩ set2) / len (set1 ∪ set2))%Q; [|lra].
    by apply div_nonneg.
Qed.

Lemma distance_acc_within c1 c2 :
  nonneg_numeric c1 -> nonneg_numeric c2 -> within (distance_acc c1 c2).
Proof.
  intros H1 H2. unfold distance_acc. do 2 apply set_step_within.
  apply foldl_within; [intros; by apply boolean_step_within|].
  apply foldl_within; [intros; by apply numeric_step_within|].
  split; vm_compute; discriminate.
Qed.

(** X15: [_calculate_distance] lies between 0 and 1 when no numeric feature
    of either vector is negative. *)
Theorem distance_at_most_one (chars1 chars2 : Characteristics) :
  (forall f v, f ∈ numeric_features -> f chars1 = Some v -> (0 <= v)%Q) ->
  (forall f v, f ∈ numeric_features -> f chars2 = Some v -> (0 <= v)%Q) ->
  (0 <= _calculate_distance chars1 chars2 <= 1)%Q.
Proof.
  intros H1 H2. split; [apply _calculate_distance_nonneg|].
  unfold _calculate_distance.
  destruct (distance_acc_within chars1 chars2 H1 H2) as [_ Hle].
  destruct (distance_acc chars1 chars2).2 as [|n] eqn:E; [by vm_compute|].
  apply Qle_shift_div_r.
  - change 0%Q with (inject_Z 0). rewrite <- Zlt_Qlt. lia.
  - lra.
Qed.

Lemma small_module_nonneg :
  forall f v, f ∈ numeric_features -> f small_module = Some v -> (0 <= v)%Q.
Proof.
  intros f v Hf Hv. unfold numeric_features in Hf.
  repeat (apply elem_of_cons in Hf as [->|Hf];
          [cbn in Hv; try discriminate Hv; injection Hv as <-; by vm_compute|]).
  by apply elem_of_nil in Hf.
Qed.

Lemma unreadable_nonneg :
  forall f v, f ∈ numeric_features -> f unreadable = Some v -> (0 <= v)%Q.
Proof.
  intros f v Hf Hv. unfold numeric_features in Hf.
  repeat (apply elem_of_cons in Hf as [->|Hf];
          [cbn in Hv; try discriminate Hv; injection Hv as <-; by vm_compute|]).
  by apply elem_of_nil in Hf.
Qed.

Lemma distance_at_most_one_witness :
  (0 <= _calculate_distance small_module unreadable <= 1)%Q.
Proof.
  apply distance_at_most_one; [exact small_module_nonneg|exact unreadable_nonneg].
Defined.

Section NoveltyRuns.
Variable _extract_characteristics : string -> list (string * value) -> Characteristics.

Lemma distances_to_nil agent_path agents c :
  distances_to _extract_characteristics agent_path agents c = [] <->
  List.filter (other_path agent_path) agents = [].
Proof.
  unfold distances_to. fold (other_path agent_path).
  destruct (List.filter (other_path agent_path) agents); [done|].
  split; discriminate.
Qed.

Lemma bfilter_idemp {A} (f : A -> bool) (l : list A) :
  List.filter f (List.filter f l) = List.filter f l.
Proof.
  induction l as [|x l IH]; [done|]. cbn [List.filter].
  destruct (f x) eqn:E; [|done]. cbn [List.filter]. by rewrite E, IH.
Qed.

Lemma values_bfilter {V} (f : V -> bool) (d : dict V) :
  values (List.filter (fun kv => f kv.2) d) = List.filter f (values d).
Proof.
  unfold values. induction d as [|[k v] d IH]; [done|].
  cbn [List.filter fmap list_fmap snd]. destruct (f v); [|done].
  cbn [fmap list_fmap snd]. by f_equal.
Qed.
End NoveltyRuns.

(** X16: [calculate_novelty] does not depend on the archived records stored
    at the candidate's own path: removing them from the archive gives the
    same result. *)
Theorem calculate_novelty_skips_own_path
    (_extract_characteristics : string -> list (string * value) -> Characteristics)
    (k_nearest : nat) (agent_path : string) (archive : ArchiveManager.AgentArchive)
    (benchmark_results : list (string * value)) :
  calculate_novelty _extract_characteristics k_nearest agent_path archive
    benchmark_results
  = calculate_novelty _extract_characteristics k_nearest agent_path
      (ArchiveManager.with_entries archive
         (List.filter
            (fun kv => negb (String.eqb (ArchiveManager.agent_path kv.2) agent_path))
            (ArchiveManager.entries archive)))
      benchmark_results.
Proof.
  unfold calculate_novelty, ArchiveManager.get_all_agents.
  cbn [ArchiveManager.entries ArchiveManager.with_entries].
  rewrite (values_bfilter (other_path agent_path)).
  set (c := _extract_characteristics agent_path benchmark_results).
  set (all := values (ArchiveManager.entries archive)).
  assert (Hd : distances_to _extract_characteristics agent_path
                 (List.filter (other_path agent_path) all) c
               = distances_to _extract_characteristics agent_path all c).
  { unfold distances_to. fold (other_path agent_path). by rewrite bfilter_idemp. }
  rewrite Hd.
  assert (Hcase : forall {A} (l : list A), l = [] \/ l <> []).
  { intros A l. destruct l; [by left|by right]. }
  destruct (Hcase _ all) as [Hall|Hall].
  { rewrite Hall. done. }
  rewrite (match_nonempty all) by done.
  destruct (Hcase _ (List.filter (other_path agent_path) all)) as [Hf|Hf].
  - rewrite Hf. by rewrite (proj2 (distances_to_nil _ agent_path all c) Hf).
  - by rewrite (match_nonempty (List.filter (other_path agent_path) all)).
Qed.



Lemma foldl_Qplus_zero (l : list Q) (a : Q) :
  (forall x, x ∈ l -> (x == 0)%Q) -> (foldl Qplus a l == a)%Q.
Proof.
  revert a. induction l as [|x l IH]; intros a H; [done|]. cbn [foldl].
  rewrite IH.
  - rewrite (H x); [lra|apply elem_of_cons; by left].
  - intros y Hy. apply H. apply elem_of_cons. by right.
Qed.

Lemma distance_self_zero (c : Characteristics) :
  comparable c -> (_calculate_distance c c == 0)%Q.
Proof.
  rewrite comparable_iff. unfold _calculate_distance.
  destruct (distance_acc_self c) as [H1 H2]. rewrite H2.
  intros Hc. destruct (comparable_count c) as [|n]; [done|].
  rewrite H1. field. intros H0. unfold Qeq in H0. cbn in H0. lia.
Qed.

(** X18: when every archived agent at another path has the characteristics
    of the candidate, there is such an agent, and the characteristics have a
    comparable feature, the novelty is 0. *)
Theorem calculate_novelty_among_identical_agents
    (_extract_characteristics : string -> list (string * value) -> Characteristics)
    (k_nearest : nat) (agent_path : string) (archive : ArchiveManager.AgentArchive)
    (benchmark_results : list (string * value)) (other : ArchiveManager.ArchiveEntry) :
  (0 < k_nearest)%nat ->
  comparable (_extract_characteristics agent_path benchmark_results) ->
  other ∈ ArchiveManager.get_all_agents archive ->
  ArchiveManager.agent_path other <> agent_path ->
  (forall entry, entry ∈ ArchiveManager.get_all_agents archive ->
     ArchiveManager.agent_path entry <> agent_path ->
     _extract_characteristics (ArchiveManager.agent_path entry)
       (ArchiveManager.benchmark_results entry)
     = _extract_characteristics agent_path benchmark_results) ->
  exists r,
    calculate_novelty _extract_characteristics k_nearest agent_path archive
      benchmark_results = inr r
    /\ (r == 0)%Q.
Proof.
  intros Hk Hc Hin Hpath Hsame. unfold calculate_novelty.
  set (c := _extract_characteristics agent_path benchmark_results) in *.
  assert (Hx : other ∈ List.filter (other_path agent_path)
                         (ArchiveManager.get_all_agents archive)).
  { apply elem_of_bfilter. split; [done|]. unfold other_path.
    apply negb_true_iff. by apply String.eqb_neq. }
  assert (Hzero : forall x,
            x ∈ distances_to _extract_characteristics agent_path
                  (ArchiveManager.get_all_agents archive) c -> (x == 0)%Q).
  { intros x Hxin. unfold distances_to in Hxin.
    apply list_elem_of_fmap in Hxin as (e & -> & He).
    apply elem_of_bfilter in He as [He Hp].
    apply negb_true_iff, String.eqb_neq in Hp.
    rewrite (Hsame e He Hp). by apply distance_self_zero. }
  destruct (ArchiveManager.get_all_agents archive) as [|e es] eqn:Hall.
  { by apply elem_of_nil in Hin. }
  rewrite <- Hall in *.
  remember (distances_to _extract_characteristics agent_path
              (ArchiveManager.get_all_agents archive) c) as ds eqn:Hds.
  destruct ds as [|d ds'] eqn:Hdd.
  { symmetry in Hds. apply distances_to_nil in Hds. fold (other_path agent_path) in Hx.
    rewrite Hds in Hx. by apply elem_of_nil in Hx. }
  rewrite <- Hdd in *.
  assert (Hlen : length (sorted_asc ds) = length ds)
    by apply Permutation_length, sorted_asc_perm.
  rewrite Hlen.
  set (n := Nat.min k_nearest (length ds)).
  set (near := take n (sorted_asc ds)).
  assert (Hn : (0 < n)%nat).
  { unfold n. rewrite Hdd. cbn [length]. lia. }
  assert (Hnear : length near = n).
  { unfold near. rewrite length_take, Hlen. unfold n. lia. }
  assert (Hnz : forall x, x ∈ near -> (x == 0)%Q).
  { intros x Hxn. apply Hzero. rewrite <- (sorted_asc_perm ds).
    by apply (elem_of_take_full n). }
  assert (Hsum : (sum near == 0)%Q) by (by apply foldl_Qplus_zero).
  assert (Hmean : (sum near / inject_Z (Z.of_nat (length near)) == 0)%Q).
  { rewrite Hsum. field. rewrite Hnear. intros H0. unfold Qeq in H0. cbn in H0. lia. }
  destruct near as [|x near'] eqn:Hnr.
  { cbn in Hnear. lia. }
  rewrite <- Hnr in *.
  eexists. split; [reflexivity|].
  destruct (Qle_bool 1 _) eqn:E; [|exact Hmean].
  apply Qle_bool_iff in E. rewrite Hmean in E. by vm_compute in E.
Qed.

Lemma calculate_novelty_among_identical_agents_witness :
  exists r,
    calculate_novelty (fun _ _ => small_module) 15 "work/new.py" five_agents [] = inr r
    /\ (r == 0)%Q.
Proof.
  apply (calculate_novelty_among_identical_agents (fun _ _ => small_module) 15
           "work/new.py" five_agents [] (scored "a" 0.1).2).
  - lia.
  - right. left. exists uses_recursion, false. split; [|reflexivity].
    apply elem_of_cons. by left.
  - apply elem_of_cons. by left.
  - discriminate.
  - reflexivity.
Defined.

End NoveltyBoundFacts.

(** ** The counting dictionaries *)

Module CountFacts.
Import Py PyFacts PyMaxFacts BenchmarkResults.

(** The counting loop [d[k] = d.get(k, 0) + 1]. *)
Lemma count_fold_dget {A} (f : A -> string) (l : list A) (d : dict nat) (k : string) :
  dget k (foldl (fun d x => count_up d (f x)) d l)
  = match length (List.filter (fun x => String.eqb (f x) k) l) with
    | O => dget k d
    | S n => Some (match dget k d with Some c => c | None => O end + S n)
    end.
Proof.
  revert d. induction l as [|x l IH]; intros d; [done|].
  cbn [foldl List.filter]. rewrite IH. unfold count_up.
  destruct (String.eqb_spec (f x) k) as [->|Hne].
  - cbn [length]. rewrite dget_dset.
    destruct (length (List.filter _ l)); f_equal; lia.
  - by rewrite dget_dset_ne.
Qed.

Lemma count_fold_wf {A} (f : A -> string) (l : list A) (d : dict nat) :
  dict_wf d -> dict_wf (foldl (fun d x => count_up d (f x)) d l).
Proof.
  revert d. induction l as [|x l IH]; intros d Hd; [done|].
  cbn [foldl]. apply IH. unfold count_up. by apply dict_wf_dset.
Qed.

Lemma count_fold_elem {A} (f : A -> string) (l : list A) (k : string) (c : nat) :
  (k, c) ∈ foldl (fun d x => count_up d (f x)) [] l
  <-> c = length (List.filter (fun x => String.eqb (f x) k) l) /\ (0 < c)%nat.
Proof.
  split.
  - intros Hin. apply dget_elem in Hin; [|apply count_fold_wf, NoDup_nil_2].
    rewrite count_fold_dget in Hin.
    destruct (length (List.filter _ l)); [done|]. cbn in Hin. injection Hin as <-. lia.
  - intros [-> Hpos]. apply dget_Some_elem. rewrite count_fold_dget.
    destruct (length (List.filter _ l)); [lia|]. done.
Qed.

End CountFacts.

(** ** [diagnosis.py]: the failure patterns *)

Module FailurePatternFacts.
Import Py PyFacts PyMaxFacts BenchmarkResults BenchmarkFacts CountFacts.
Import Scenarios Population Diagnosis FailureCounts.

Lemma score_below_half (q : Q) : negb (Qle_bool 0.5 q) = true <-> (q < 0.5)%Q.
Proof.
  rewrite negb_true_iff. destruct (Qle_bool 0.5 q) eqn:E.
  - apply Qle_bool_iff in E. split; [done|]. intros H. by apply Qlt_not_le in H.
  - split; [intros _|done]. apply Qnot_le_lt. intros H.
    apply Qle_bool_iff in H. congruence.
Qed.

Lemma analyze_benchmark_patterns (report : DiagnosisReport)
    (benchmark_name : string) (results : BenchmarkDetail)
    (error_type : string) (count : nat) :
  (benchmark_name, error_type, count)
    ∈ failed_test_patterns (analyze_benchmark report (benchmark_name, results))
  <-> (benchmark_name, error_type, count) ∈ failed_test_patterns report
      \/ ((score_of report benchmark_name < 0.5)%Q
          /\ count = count_class error_type results
          /\ (1 < count)%nat).
Proof.
  unfold analyze_benchmark. fold (score_of report benchmark_name).
  rewrite <- score_below_half.
  destruct (negb (Qle_bool 0.5 (score_of report benchmark_name))) eqn:E.
  - cbn [failed_test_patterns]. rewrite elem_of_app. split.
    + intros [H|H]; [by left|right]. split; [done|].
      apply list_elem_of_fmap in H as ([k c] & Heq & Hin). cbn [fst snd] in Heq.
      injection Heq as -> ->. apply elem_of_bfilter in Hin as [Hin Hc].
      cbn [snd] in Hc. apply Nat.ltb_lt in Hc.
      apply (count_fold_elem class_of) in Hin as [Hcount _]. done.
    + intros [H|(_ & Hcount & Hc)]; [by left|right].
      apply (list_elem_of_fmap_2 (fun kc : string * nat => (benchmark_name, kc.1, kc.2))
               _ (error_type, count)).
      apply elem_of_bfilter. split; [|by apply Nat.ltb_lt].
      apply (count_fold_elem class_of). split; [done|lia].
  - split; [by left|]. by intros [H|[? _]].
Qed.

Lemma analyze_benchmark_other (report : DiagnosisReport) (item : string * BenchmarkDetail)
    (benchmark_name error_type : string) (count : nat) :
  item.1 <> benchmark_name ->
  (benchmark_name, error_type, count) ∈ failed_test_patterns (analyze_benchmark report item)
  <-> (benchmark_name, error_type, count) ∈ failed_test_patterns report.
Proof.
  intros Hne. destruct item as [name results]. cbn [fst] in Hne. unfold analyze_benchmark.
  destruct (negb _); [|done]. cbn [failed_test_patterns]. rewrite elem_of_app. split.
  - intros [H|H]; [done|].
    apply list_elem_of_fmap in H as (kc & Heq & _). by injection Heq as -> _ _.
  - by left.
Qed.

Lemma score_of_analyze_benchmark (report : DiagnosisReport) (item : string * BenchmarkDetail)
    (benchmark_name : string) :
  score_of (analyze_benchmark report item) benchmark_name = score_of report benchmark_name.
Proof. unfold score_of. by rewrite DiagnosisFacts.analyze_benchmark_scores. Qed.

Lemma analyze_all_patterns (items : dict BenchmarkDetail) (report : DiagnosisReport)
    (benchmark_name : string) (results : BenchmarkDetail)
    (error_type : string) (count : nat) :
  dict_wf items ->
  (benchmark_name, results) ∈ items ->
  (benchmark_name, error_type, count)
    ∈ failed_test_patterns (foldl analyze_benchmark report items)
  <-> (benchmark_name, error_type, count) ∈ failed_test_patterns report
      \/ ((score_of report benchmark_name < 0.5)%Q
          /\ count = count_class error_type results
          /\ (1 < count)%nat).
Proof.
  assert (Hskip : forall (items : dict BenchmarkDetail) report,
            benchmark_name ∉ keys items ->
            (benchmark_name, error_type, count)
              ∈ failed_test_patterns (foldl analyze_benchmark report items)
            <-> (benchmark_name, error_type, count) ∈ failed_test_patterns report).
  { clear. intros items. induction items as [|item items IH]; intros report Hnot; [done|].
    cbn [foldl]. unfold keys in Hnot. rewrite fmap_cons, not_elem_of_cons in Hnot.
    destruct Hnot as [Hne Hnot]. rewrite IH by done.
    apply analyze_benchmark_other. congruence. }
  revert report. induction items as [|[name res] items IH]; intros report Hwf Hin.
  - by apply elem_of_nil in Hin.
  - unfold dict_wf, keys in Hwf. rewrite fmap_cons in Hwf. cbn [fst] in Hwf.
    apply NoDup_cons in Hwf as [Hfresh Hwf]. cbn [foldl].
    apply elem_of_cons in Hin as [Heq|Hin].
    + injection Heq as <- <-. rewrite Hskip by done.
      apply analyze_benchmark_patterns.
    + assert (Hne : name <> benchmark_name).
      { intros ->. apply Hfresh. unfold keys.
        by apply (list_elem_of_fmap_2 fst _ (benchmark_name, results)). }
      rewrite (IH _ Hwf Hin), score_of_analyze_benchmark.
      by rewrite (analyze_benchmark_other report (name, res)).
Qed.

(** X19: for a report without failed test patterns and a benchmark of the
    detailed results, the loop of [_analyze_benchmark_failures] of
    [diagnosis.py] over all benchmarks records the pattern (benchmark, error
    type, count) exactly when the benchmark scores below 0.5, count is the
    number of its failing tests that [_classify_error] files under the error
    type, and count is at least 2. *)
Theorem repeated_error_classes_are_reported (benchmark_results : BenchmarkResults)
    (report : DiagnosisReport) (dr : dict BenchmarkDetail)
    (benchmark_name : string) (results : BenchmarkDetail)
    (error_type : string) (count : nat) :
  detailed_results benchmark_results = Some dr ->
  dict_wf dr ->
  (benchmark_name, results) ∈ dr ->
  failed_test_patterns report = [] ->
  (benchmark_name, error_type, count)
    ∈ failed_test_patterns (_analyze_benchmark_failures benchmark_results report)
  <-> (score_of report benchmark_name < 0.5)%Q
      /\ count = count_class error_type results
      /\ (1 < count)%nat.
Proof.
  intros Hdr Hwf Hin Hempty. unfold _analyze_benchmark_failures. rewrite Hdr.
  rewrite (analyze_all_patterns dr report benchmark_name results) by done.
  rewrite Hempty. split; [|by right].
  intros [H|H]; [by apply elem_of_nil in H|done].
Qed.

Lemma repeated_error_classes_are_reported_witness :
  ("flaky", "Syntax Error", 2%nat)
    ∈ failed_test_patterns (_analyze_benchmark_failures flaky_results flaky_report)
  <-> (score_of flaky_report "flaky" < 0.5)%Q
      /\ 2%nat = count_class "Syntax Error" flaky_detail
      /\ (1 < 2)%nat.
Proof.
  apply (repeated_error_classes_are_reported flaky_results flaky_report
           [("steady", steady_detail); ("flaky", flaky_detail)] "flaky" flaky_detail
           "Syntax Error" 2).
  - reflexivity.
  - unfold dict_wf. cbn. apply NoDup_cons. split; [|apply NoDup_singleton].
    by intros ?%list_elem_of_singleton.
  - set_solver.
  - reflexivity.
Defined.

Lemma classify_timeout (e : string) :
  String.eqb (_classify_error e) "Timeout" = contains "timeout" (lower e).
Proof.
  unfold _classify_error.
  destruct (contains "timeout" (lower e)); [done|].
  repeat (destruct (contains _ (lower e)); [done|]). done.
Qed.

Lemma is_timeout_class (test : TestResult) :
  is_timeout test = String.eqb (class_of test) "Timeout".
Proof.
  unfold is_timeout, class_of. destruct (error test) as [e|].
  - by rewrite classify_timeout.
  - by vm_compute.
Qed.

(** the failing tests [diagnosis.py] counts as timeouts are those
    [_classify_error] files under Timeout. *)
Theorem timeouts_are_the_failures_classified_timeout (results : BenchmarkDetail) :
  timeout_tests results
  = List.filter (fun test => String.eqb (class_of test) "Timeout") (failed_tests results)
  /\ length (timeout_tests results) = count_class "Timeout" results
  /\ (length (timeout_tests results) <= length (failed_tests results))%nat.
Proof.
  assert (Heq : timeout_tests results
                = List.filter (fun test => String.eqb (class_of test) "Timeout")
                    (failed_tests results)).
  { unfold timeout_tests. apply filter_ext. intros t. apply is_timeout_class. }
  split; [exact Heq|]. split.
  - unfold count_class. by rewrite Heq.
  - unfold timeout_tests. apply filter_length_le.
Qed.

End FailurePatternFacts.

(** ** [performance_diagnosis.py]: the timeout patterns *)

Module PerformanceFailureFacts.
Import Py PyFacts PyMaxFacts BenchmarkResults BenchmarkFacts CountFacts.
Import Scenarios Population PerformanceDiagnosis FailureCounts.

Lemma scan_timeouts (tests : list TestResult) (st : nat * dict nat) :
  (foldl scan_test st tests).1 = (st.1 + timeout_count tests)%nat.
Proof.
  unfold timeout_count. revert st. induction tests as [|t tests IH]; intros st.
  - cbn. lia.
  - cbn [foldl List.filter]. rewrite IH. unfold scan_test.
    destruct (is_failed t); cbn [andb fst]; [|done].
    destruct (contains "Timeout" (error_of t)); cbn [fst length]; lia.
Qed.

Lemma analyze_benchmark_timeout_patterns report name results :
  timeout_patterns (analyze_benchmark report (name, results))
  = timeout_patterns report ++
    match test_results results with
    | Some tests =>
        if exceeds_30_percent (timeout_count tests) (length tests)
        then [(name, timeout_count tests)] else []
    | None => []
    end.
Proof.
  unfold analyze_benchmark. destruct (test_results results) as [tests|].
  - cbn [timeout_patterns]. rewrite scan_timeouts. cbn [fst plus].
    destruct (exceeds_30_percent _ _); [done|by rewrite app_nil_r].
  - by rewrite app_nil_r.
Qed.

Lemma analyze_all_timeout_patterns items report name n :
  (name, n) ∈ timeout_patterns (foldl analyze_benchmark report items)
  <-> (name, n) ∈ timeout_patterns report
      \/ exists results tests,
           (name, results) ∈ items /\ test_results results = Some tests
           /\ n = timeout_count tests
           /\ (3 * length tests < 10 * timeout_count tests)%nat.
Proof.
  revert report. induction items as [|[nm res] items IH]; intros report.
  - cbn [foldl]. split; [by left|].
    intros [H|(results & tests & Hin & _)]; [done|by apply elem_of_nil in Hin].
  - cbn [foldl]. rewrite IH, analyze_benchmark_timeout_patterns, elem_of_app. split.
    + intros [[H|H]|(results & tests & Hin & Hrest)].
      * by left.
      * right. destruct (test_results res) as [tests|] eqn:Ht;
          [|by apply elem_of_nil in H].
        destruct (exceeds_30_percent _ _) eqn:E; [|by apply elem_of_nil in H].
        apply list_elem_of_singleton in H. injection H as -> ->.
        exists res, tests. split; [apply elem_of_cons; by left|].
        split; [done|]. split; [done|]. by apply exceeds_30_percent_spec.
      * right. exists results, tests. split; [apply elem_of_cons; by right|done].
    + intros [H|(results & tests & Hin & Ht & Hn & Hex)].
      * left. by left.
      * apply elem_of_cons in Hin as [Hin|Hin].
        -- injection Hin as -> ->. left. right. rewrite Ht.
           apply exceeds_30_percent_spec in Hex. rewrite Hex.
           apply list_elem_of_singleton. by rewrite Hn.
        -- right. by exists results, tests.
Qed.

(** X20: for a report without timeout patterns,
    [_analyze_benchmark_failures] of [performance_diagnosis.py] records a
    timeout pattern for a benchmark exactly when the benchmark has test
    results among which the failing ones with Timeout in their error message
    are more than 30% of all its test cases; the score of the benchmark
    plays no part. *)
Theorem timeout_pattern_counts_all_cases (benchmark_results : BenchmarkResults)
    (report : DiagnosisReport) (dr : dict BenchmarkDetail) (benchmark_name : string) :
  detailed_results benchmark_results = Some dr ->
  timeout_patterns report = [] ->
  flagged (_analyze_benchmark_failures benchmark_results report) benchmark_name
  <-> exists results tests,
        (benchmark_name, results) ∈ dr
        /\ test_results results = Some tests
        /\ (3 * length tests < 10 * timeout_count tests)%nat.
Proof.
  intros Hdr Hempty. unfold flagged, _analyze_benchmark_failures. rewrite Hdr. split.
  - intros (n & Hin). apply analyze_all_timeout_patterns in Hin
      as [Hin|(results & tests & Hin & Ht & _ & Hex)].
    + rewrite Hempty in Hin. by apply elem_of_nil in Hin.
    + by exists results, tests.
  - intros (results & tests & Hin & Ht & Hex). exists (timeout_count tests).
    apply analyze_all_timeout_patterns. right. by exists results, tests.
Qed.

Lemma timeout_pattern_counts_all_cases_witness :
  flagged (_analyze_benchmark_failures steady_results fresh_report) "steady"
  <-> exists results tests,
        (("steady", results) : string * BenchmarkDetail) ∈ [("steady", steady_detail)]
        /\ test_results results = Some tests
        /\ (3 * length tests < 10 * timeout_count tests)%nat.
Proof.
  apply (timeout_pattern_counts_all_cases steady_results fresh_report
           [("steady", steady_detail)] "steady"); reflexivity.
Defined.

End PerformanceFailureFacts.

(** ** [performance_diagnosis.py]: the suggestions *)

Module SuggestionFacts.
Import Py PyFacts PyMaxFacts BenchmarkResults BenchmarkFacts CountFacts.
Import Scenarios Population FailureCounts PerformanceFailureFacts PerformanceSuggestions.

Lemma below_iff (t q : Q) : negb (Qle_bool t q) = true <-> (q < t)%Q.
Proof.
  rewrite negb_true_iff. destruct (Qle_bool t q) eqn:E.
  - apply Qle_bool_iff in E. split; [done|]. intros H. by apply Qlt_not_le in H.
  - split; [intros _|done]. apply Qnot_le_lt. intros H.
    apply Qle_bool_iff in H. congruence.
Qed.

Lemma nonempty_iff {A} (l : list A) : nonempty l = true <-> l <> [].
Proof. by destruct l. Qed.

Lemma nonempty_elem {A} (l : list A) : nonempty l = true <-> exists x, x ∈ l.
Proof.
  destruct l as [|x l]; cbn.
  - split; [done|]. intros [x Hx]. by apply elem_of_nil in Hx.
  - split; [|done]. intros _. exists x. apply elem_of_cons. by left.
Qed.

Lemma focus_fold (items : dict Q) (r : Report) :
  let r' := foldl (fun report item =>
                     note (negb (Qle_bool 0.7 item.2)) (FocusOn item.1 item.2) [] report)
                  r items in
  high_priority_areas r' = high_priority_areas r
  /\ improvement_suggestions r'
     = improvement_suggestions r ++
       ((fun item : string * Q => FocusOn item.1 item.2)
          <$> List.filter (fun item : string * Q => negb (Qle_bool 0.7 item.2)) items).
Proof.
  cbv zeta. revert r. induction items as [|item items IH]; intros r.
  - cbn. by rewrite app_nil_r.
  - cbn [foldl List.filter]. destruct (IH (note (negb (Qle_bool 0.7 item.2))
                                              (FocusOn item.1 item.2) [] r)) as [-> ->].
    unfold note. destruct (negb (Qle_bool 0.7 item.2)).
    + cbn [high_priority_areas improvement_suggestions fmap list_fmap].
      rewrite app_nil_r. by rewrite <- app_assoc.
    + done.
Qed.

(** The areas and suggestions [_generate_improvement_suggestions]
    appends, in closed form. *)
Lemma generate_closed_form (r : Report) :
  high_priority_areas (_generate_improvement_suggestions r)
  = high_priority_areas r
    ++ (if negb (Qle_bool 0.5 (overall_score r)) then ["Core Algorithm Implementation"] else [])
    ++ (if nonempty (tool_usage_issues r) then ["Tool Integration"] else [])
    ++ (if nonempty (error_handling_issues r) then ["Error Handling"] else [])
    ++ (if nonempty (timeout_patterns r) then ["Performance Optimization"] else [])
  /\ improvement_suggestions (_generate_improvement_suggestions r)
     = improvement_suggestions r
       ++ (if negb (Qle_bool 0.5 (overall_score r)) then [MajorRefactoring] else [])
       ++ (if nonempty (tool_usage_issues r) then [ProperToolIntegration] else [])
       ++ (if nonempty (error_handling_issues r) then [ComprehensiveErrorHandling] else [])
       ++ (if nonempty (timeout_patterns r) then [FasterExecution] else [])
       ++ (if nonempty (code_structure_issues r) then [RefactorCodeStructure] else [])
       ++ ((fun item : string * Q => FocusOn item.1 item.2)
             <$> List.filter (fun item : string * Q => negb (Qle_bool 0.7 item.2))
                   (benchmark_scores r)).
Proof.
  destruct r as [os bs sg cs tu eh tp hp]. unfold _generate_improvement_suggestions.
  cbn [overall_score benchmark_scores improvement_suggestions code_structure_issues
       tool_usage_issues error_handling_issues timeout_patterns high_priority_areas].
  destruct (negb (Qle_bool 0.5 os)), tu as [|tu0 tu], eh as [|eh0 eh],
    tp as [|tp0 tp], cs as [|cs0 cs];
    cbn [note nonempty overall_score benchmark_scores improvement_suggestions
         code_structure_issues tool_usage_issues error_handling_issues
         timeout_patterns high_priority_areas];
    match goal with
    | |- context [foldl ?f ?r0 bs] => destruct (focus_fold bs r0) as [-> ->]
    end;
    cbn [overall_score benchmark_scores improvement_suggestions code_structure_issues
         tool_usage_issues error_handling_issues timeout_patterns high_priority_areas];
    rewrite ?app_nil_r, <- ?app_assoc; done.
Qed.

Lemma area_iff (a : string) (b1 b2 b3 b4 : bool) :
  a ∈ (if b1 then ["Core Algorithm Implementation"] else [])
      ++ (if b2 then ["Tool Integration"] else [])
      ++ (if b3 then ["Error Handling"] else [])
      ++ (if b4 then ["Performance Optimization"] else [])
  <-> (a = "Core Algorithm Implementation" /\ b1 = true)
      \/ (a = "Tool Integration" /\ b2 = true)
      \/ (a = "Error Handling" /\ b3 = true)
      \/ (a = "Performance Optimization" /\ b4 = true).
Proof.
  rewrite !elem_of_app.
  destruct b1, b2, b3, b4;
    rewrite ?list_elem_of_singleton, ?elem_of_nil; intuition congruence.
Qed.

Lemma areas_sublist (b1 b2 b3 b4 : bool) :
  (if b1 then ["Core Algorithm Implementation"] else [])
  ++ (if b2 then ["Tool Integration"] else [])
  ++ (if b3 then ["Error Handling"] else [])
  ++ (if b4 then ["Performance Optimization"] else [])
  `sublist_of` ["Core Algorithm Implementation"; "Tool Integration";
                "Error Handling"; "Performance Optimization"].
Proof.
  destruct b1, b2, b3, b4; cbn [app];
    repeat first [apply sublist_nil | apply sublist_skip | apply sublist_cons].
Qed.

Lemma focus_not_fixed (b : string) (s : Q) (c : bool) (x : suggestion) :
  FocusOn b s ∈ (if c then [x] else []) -> x = FocusOn b s.
Proof.
  destruct c; [by intros ->%list_elem_of_singleton|by intros ?%elem_of_nil].
Qed.

(** on a report without suggestions and areas,
    [_generate_improvement_suggestions] names each high priority area
    exactly under its condition and in the fixed order, suggests a focus for
    exactly the benchmarks scoring below 0.7, and adds no area without a
    suggestion. *)
Theorem suggestions_follow_the_findings (report : Report) :
  high_priority_areas report = [] ->
  improvement_suggestions report = [] ->
  let report' := _generate_improvement_suggestions report in
  high_priority_areas report'
    `sublist_of` ["Core Algorithm Implementation"; "Tool Integration";
                  "Error Handling"; "Performance Optimization"]
  /\ ("Core Algorithm Implementation" ∈ high_priority_areas report'
      <-> (overall_score report < 0.5)%Q)
  /\ ("Tool Integration" ∈ high_priority_areas report'
      <-> tool_usage_issues report <> [])
  /\ ("Error Handling" ∈ high_priority_areas report'
      <-> error_handling_issues report <> [])
  /\ ("Performance Optimization" ∈ high_priority_areas report'
      <-> timeout_patterns report <> [])
  /\ (forall benchmark score,
        FocusOn benchmark score ∈ improvement_suggestions report'
        <-> (benchmark, score) ∈ benchmark_scores report /\ (score < 0.7)%Q)
  /\ (length (high_priority_areas report')
      <= length (improvement_suggestions report'))%nat.
Proof.
  intros Hhp Hsg. cbv zeta.
  destruct (generate_closed_form report) as [Ha Hs]. rewrite Ha, Hs, Hhp, Hsg, !app_nil_l.
  split_and!.
  - apply areas_sublist.
  - rewrite area_iff, <- below_iff. intuition congruence.
  - rewrite area_iff, <- nonempty_iff. intuition congruence.
  - rewrite area_iff, <- nonempty_iff. intuition congruence.
  - rewrite area_iff, <- nonempty_iff. intuition congruence.
  - intros b s. rewrite !elem_of_app. split.
    + intros [H|[H|[H|[H|[H|H]]]]];
        try (by apply focus_not_fixed in H).
      apply list_elem_of_fmap in H as ([b' s'] & Heq & Hin). cbn [fst snd] in Heq.
      injection Heq as -> ->. apply elem_of_bfilter in Hin as [Hin Hlt].
      cbn [snd] in Hlt. split; [done|]. by apply below_iff.
    + intros [Hin Hlt]. do 5 right.
      apply (list_elem_of_fmap_2 (fun item : string * Q => FocusOn item.1 item.2)
               _ (b, s)).
      apply elem_of_bfilter. split; [done|]. by apply below_iff.
  - rewrite !length_app.
    destruct (negb _), (nonempty (tool_usage_issues report)),
      (nonempty (error_handling_issues report)), (nonempty (timeout_patterns report));
      cbn [length]; lia.
Qed.

Lemma suggestions_follow_the_findings_witness :
  "Tool Integration" ∈ high_priority_areas (_generate_improvement_suggestions structure_report)
  <-> tool_usage_issues structure_report <> [].
Proof.
  destruct (suggestions_follow_the_findings structure_report) as (_ & _ & H & _);
    [reflexivity|reflexivity|exact H].
Defined.

Lemma analysed_timeout_patterns benchmark_results report :
  timeout_patterns (PerformanceSuggestions._analyze_benchmark_failures
                      benchmark_results report)
  = PerformanceDiagnosis.timeout_patterns
      (PerformanceDiagnosis._analyze_benchmark_failures benchmark_results
         {| PerformanceDiagnosis.overall_score := overall_score report;
            PerformanceDiagnosis.benchmark_scores := benchmark_scores report;
            PerformanceDiagnosis.error_handling_issues := [];
            PerformanceDiagnosis.timeout_patterns := timeout_patterns report |}).
Proof. done. Qed.

Lemma analysed_high_priority_areas benchmark_results report :
  high_priority_areas (PerformanceSuggestions._analyze_benchmark_failures
                         benchmark_results report)
  = high_priority_areas report.
Proof. done. Qed.

(** X21: the last two steps of [diagnose_performance] on a report without
    timeout patterns and high priority areas name Performance Optimization
    as a high priority area exactly when some benchmark of the detailed
    results has timeouts in more than 30% of its test cases. *)
Theorem timeouts_become_a_priority (benchmark_results : BenchmarkResults)
    (report : Report) (dr : dict BenchmarkDetail) :
  detailed_results benchmark_results = Some dr ->
  high_priority_areas report = [] ->
  timeout_patterns report = [] ->
  "Performance Optimization"
    ∈ high_priority_areas (diagnose_failures benchmark_results report)
  <-> exists benchmark_name results tests,
        (benchmark_name, results) ∈ dr
        /\ test_results results = Some tests
        /\ (3 * length tests < 10 * timeout_count tests)%nat.
Proof.
  intros Hdr Hhp Htp. unfold diagnose_failures.
  destruct (generate_closed_form
              (PerformanceSuggestions._analyze_benchmark_failures benchmark_results report))
    as [Ha _].
  rewrite Ha, analysed_high_priority_areas, analysed_timeout_patterns.
  rewrite Hhp, app_nil_l, area_iff.
  set (tp := PerformanceDiagnosis.timeout_patterns _).
  assert (Htp' : nonempty tp = true
                 <-> exists benchmark_name results tests,
                       (benchmark_name, results) ∈ dr
                       /\ test_results results = Some tests
                       /\ (3 * length tests < 10 * timeout_count tests)%nat).
  { unfold tp.
    unfold PerformanceDiagnosis._analyze_benchmark_failures. rewrite Hdr, Htp. split.
    - intros ([name n] & Hin)%nonempty_elem.
      apply analyze_all_timeout_patterns in Hin
        as [Hin|(results & tests & Hin & Ht & _ & Hex)].
      + by apply elem_of_nil in Hin.
      + by exists name, results, tests.
    - intros (name & results & tests & Hin & Ht & Hex).
      apply nonempty_elem. exists (name, timeout_count tests).
      apply analyze_all_timeout_patterns. right. by exists results, tests. }
  rewrite <- Htp'. intuition congruence.
Qed.

Lemma timeouts_become_a_priority_witness :
  "Performance Optimization"
    ∈ high_priority_areas (diagnose_failures steady_results structure_report)
  <-> exists benchmark_name results tests,
        ((benchmark_name, results) : string * BenchmarkDetail) ∈ [("steady", steady_detail)]
        /\ test_results results = Some tests
        /\ (3 * length tests < 10 * timeout_count tests)%nat.
Proof.
  apply (timeouts_become_a_priority steady_results structure_report
           [("steady", steady_detail)]); reflexivity.
Defined.

End SuggestionFacts.

(** ** [implementation.py]: dry runs, success, failure *)

Module ApplyFacts.
Import Py PyFacts PyMaxFacts Implementation ImplementationFacts Scenarios Population Changes.

Section Apply.
Variable os_error : tree -> CodeChange -> option string.
Variable ast_parse : string -> parsed.

Lemma dry_run_verdict fs change :
  _apply_code_change os_error fs change true
  = (fs, Returned (negb (refused_in_dry_run fs change))).
Proof.
  unfold _apply_code_change, refused_in_dry_run.
  destruct (String.eqb_spec (change_type change) "add") as [->|Hadd]; [done|].
  destruct (String.eqb (change_type change) "modify" || String.eqb (change_type change) "delete");
    [|done].
  by destruct (bool_decide (is_Some (fs !! file_path change))).
Qed.

Lemma apply_each_dry self changes st :
  apply_each os_error self true changes st
  = match changes with
    | [] => st
    | _ =>
        {| ls_tree := ls_tree st;
           ls_applied :=
             ls_applied st ++
             (summary <$> List.filter (fun c => negb (refused_in_dry_run (ls_tree st) c))
                            changes);
           ls_errors := ls_errors st;
           ls_self_applied :=
             ls_self_applied st ++
             List.filter (fun c => negb (refused_in_dry_run (ls_tree st) c)) changes;
           ls_returned := false |}
    end.
Proof.
  revert st. induction changes as [|change rest IH]; intros st; [done|].
  cbn [apply_each List.filter]. rewrite dry_run_verdict.
  destruct (refused_in_dry_run (ls_tree st) change); cbn [negb].
  - rewrite IH. destruct rest as [|c rest]; [|done].
    cbn. by rewrite !app_nil_r.
  - rewrite IH. destruct rest as [|c rest]; [done|].
    cbn [ls_tree ls_applied ls_errors ls_self_applied fmap list_fmap].
    by rewrite <- !app_assoc.
Qed.

(** X22: [implement_proposal] with dry_run=True leaves the working copy and
    the backup of the manager untouched, makes no backup, does not verify,
    reports success without errors, and lists as applied every change but
    the modify and delete changes of files that do not exist. *)
Theorem dry_run_changes_nothing (self : Manager) (proposal : ModificationProposal)
    (fs : tree) :
  let r := implement_proposal os_error ast_parse self proposal fs true in
  r.2 = fs
  /\ success r.1.1 = true
  /\ errors r.1.1 = []
  /\ backup_path r.1.1 = None
  /\ verification r.1.1 = None
  /\ backup_dir r.1.2 = backup_dir self
  /\ changes_applied r.1.1
     = summary <$> List.filter (fun c => negb (refused_in_dry_run fs c))
                     (code_changes proposal).
Proof.
  cbv zeta. unfold implement_proposal. rewrite apply_each_dry.
  destruct (code_changes proposal) as [|c rest]; cbn; done.
Qed.

Lemma verify_fold (l : list (string * string)) (v : Verification) :
  let v' :=
    foldl (fun v kv =>
             if endswith ".py" kv.1 then
               match ast_parse kv.2 with
               | ParseOk => v
               | SyntaxError msg =>
                   {| valid := false;
                      verrors := verrors v ++ ["Syntax error in " +:+ kv.1 +:+ ": " +:+ msg];
                      warnings := warnings v |}
               | OtherError msg =>
                   {| valid := valid v;
                      verrors := verrors v;
                      warnings := warnings v ++ ["Failed to parse " +:+ kv.1 +:+ ": " +:+ msg] |}
               end
             else v) v l in
  (valid v' = true <->
   valid v = true
   /\ forall kv, kv ∈ l -> endswith ".py" kv.1 = true ->
                 forall msg, ast_parse kv.2 <> SyntaxError msg)
  /\ ((valid v = false -> verrors v <> []) -> valid v' = false -> verrors v' <> []).
Proof.
  cbv zeta. revert v. induction l as [|kv l IH]; intros v.
  - cbn [foldl]. split; [|done]. split; [|by intros [? _]].
    intros Hv. split; [done|]. intros kv Hkv. by apply elem_of_nil in Hkv.
  - cbn [foldl]. destruct (endswith ".py" kv.1) eqn:Hpy.
    + destruct (ast_parse kv.2) as [|msg|msg] eqn:Hparse.
      * destruct (IH v) as [IH1 IH2]. split; [|exact IH2].
        rewrite IH1. split; intros [Hv Hall]; (split; [done|]).
        -- intros kv' [->|Hin]%elem_of_cons; [congruence|by apply Hall].
        -- intros kv' Hin. apply Hall. apply elem_of_cons. by right.
      * destruct (IH {| valid := false;
                        verrors := verrors v ++ ["Syntax error in " +:+ kv.1 +:+ ": " +:+ msg];
                        warnings := warnings v |}) as [IH1 IH2].
        split.
        -- rewrite IH1. cbn [valid]. split; [by intros [? _]|].
           intros [_ Hall]. exfalso.
           apply (Hall kv (proj2 (elem_of_cons _ _ _) (or_introl eq_refl)) Hpy msg Hparse).
        -- intros _. apply IH2. cbn [verrors]. intros _ Hnil.
           by apply app_eq_nil in Hnil as [_ ?].
      * destruct (IH {| valid := valid v;
                        verrors := verrors v;
                        warnings := warnings v ++ ["Failed to parse " +:+ kv.1 +:+ ": " +:+ msg] |})
          as [IH1 IH2].
        split; [|exact IH2].
        rewrite IH1. cbn [valid]. split; intros [Hv Hall]; (split; [done|]).
        -- intros kv' [->|Hin]%elem_of_cons; [congruence|by apply Hall].
        -- intros kv' Hin. apply Hall. apply elem_of_cons. by right.
    + destruct (IH v) as [IH1 IH2]. split; [|exact IH2].
      rewrite IH1. split; intros [Hv Hall]; (split; [done|]).
      * intros kv' [->|Hin]%elem_of_cons; [congruence|by apply Hall].
      * intros kv' Hin. apply Hall. apply elem_of_cons. by right.
Qed.

Lemma verify_valid_iff (fs : tree) :
  valid (_verify_modifications ast_parse fs) = true
  <-> forall path content, fs !! path = Some content -> endswith ".py" path = true ->
                          forall msg, ast_parse content <> SyntaxError msg.
Proof.
  unfold _verify_modifications.
  destruct (verify_fold (map_to_list fs) {| valid := true; verrors := []; warnings := [] |})
    as [H _].
  rewrite H. cbn [valid]. split.
  - intros [_ Hall] path content Hin. apply (Hall (path, content)).
    by apply elem_of_map_to_list.
  - intros Hall. split; [done|]. intros [path content] Hin.
    apply (Hall path content). by apply elem_of_map_to_list.
Qed.

Lemma verify_invalid_reports (fs : tree) :
  valid (_verify_modifications ast_parse fs) = false ->
  verrors (_verify_modifications ast_parse fs) <> [].
Proof.
  unfold _verify_modifications.
  destruct (verify_fold (map_to_list fs) {| valid := true; verrors := []; warnings := [] |})
    as [_ H].
  apply H. done.
Qed.

(** A real run returns from the loop early exactly when a change has
    raised; it then carries the message. *)
Lemma apply_each_errors self changes st backup :
  backup_dir self = Some backup ->
  ls_returned st = false ->
  let st' := apply_each os_error self false changes st in
  (ls_returned st' = true -> ls_errors st' <> [])
  /\ (ls_returned st' = false -> ls_errors st' = ls_errors st).
Proof.
  intros Hb. cbv zeta. revert st.
  induction changes as [|change rest IH]; intros st Hst.
  - cbn [apply_each]. split; [congruence|done].
  - cbn [apply_each].
    destruct (_apply_code_change os_error (ls_tree st) change false) as [fs' [[]|msg]].
    + match goal with
      | |- context [apply_each _ _ _ _ ?st1] => destruct (IH st1 eq_refl) as [H1 H2]
      end.
      split; [exact H1|exact H2].
    + match goal with
      | |- context [apply_each _ _ _ _ ?st1] => destruct (IH st1 eq_refl) as [H1 H2]
      end.
      split; [exact H1|exact H2].
    + rewrite Hb. cbn [negb andb bool_decide]. rewrite bool_decide_eq_true_2 by eauto.
      cbn [ls_returned ls_errors]. split; [|done]. intros _ Hnil.
      by apply app_eq_nil in Hnil as [_ ?].
Qed.

(** X23: when a real run of [implement_proposal] reports success, no .py
    file of the working copy raises SyntaxError in [ast.parse], the results
    carry no error, the verification is valid and the backup holds the
    working copy as the call found it. *)
Theorem success_leaves_parsable_python (self : Manager) (proposal : ModificationProposal)
    (fs : tree) :
  let r := implement_proposal os_error ast_parse self proposal fs false in
  success r.1.1 = true ->
  (forall path content,
     r.2 !! path = Some content -> endswith ".py" path = true ->
     forall msg, ast_parse content <> SyntaxError msg)
  /\ errors r.1.1 = []
  /\ backup_path r.1.1 = Some fs
  /\ (exists v, verification r.1.1 = Some v /\ valid v = true).
Proof.
  cbv zeta. unfold implement_proposal. cbn [negb].
  set (self1 := {| backup_dir := Some (_create_backup fs); applied := applied self |}).
  set (st0 := {| ls_tree := fs; ls_applied := []; ls_errors := [];
                 ls_self_applied := applied self1; ls_returned := false |}).
  destruct (apply_each_errors self1 (code_changes proposal) st0 fs eq_refl eq_refl)
    as [_ Herr].
  destruct (ls_returned (apply_each os_error self1 false (code_changes proposal) st0))
    eqn:Hret; [done|].
  destruct (valid (_verify_modifications ast_parse _)) eqn:Hvalid; [|done].
  intros _. cbn [fst snd success errors backup_path verification backup_dir].
  split_and!.
  - by apply verify_valid_iff.
  - by rewrite Herr.
  - done.
  - eauto.
Qed.

(** X24: when a real run of [implement_proposal] reports failure, the
    working copy is the one the call found, the results carry at least one
    error, and the backup holds that working copy. *)
Theorem failure_restores_and_reports (self : Manager) (proposal : ModificationProposal)
    (fs : tree) :
  let r := implement_proposal os_error ast_parse self proposal fs false in
  success r.1.1 = false ->
  r.2 = fs /\ errors r.1.1 <> [] /\ backup_path r.1.1 = Some fs.
Proof.
  cbv zeta. intros Hfail. split; [by apply failure_restores|].
  revert Hfail. unfold implement_proposal. cbn [negb].
  set (self1 := {| backup_dir := Some (_create_backup fs); applied := applied self |}).
  set (st0 := {| ls_tree := fs; ls_applied := []; ls_errors := [];
                 ls_self_applied := applied self1; ls_returned := false |}).
  destruct (apply_each_errors self1 (code_changes proposal) st0 fs eq_refl eq_refl)
    as [Herr _].
  destruct (ls_returned (apply_each os_error self1 false (code_changes proposal) st0))
    eqn:Hret.
  - intros _. cbn [fst errors backup_path]. split; [by apply Herr|done].
  - destruct (valid (_verify_modifications ast_parse _)) eqn:Hvalid; [done|].
    intros _. cbn [fst errors backup_path]. split; [|done].
    intros Hnil. apply app_eq_nil in Hnil as [_ Hnil].
    by apply verify_invalid_reports in Hvalid.
Qed.

(** X25: when the first change of a proposal raises in a real run,
    [implement_proposal] returns at once: success is False, nothing is
    listed as applied, the only error is the formatted message of that
    change, no later change is attempted and the working copy is as found. *)
Theorem raising_change_aborts (self : Manager) (proposal : ModificationProposal)
    (fs : tree) (change : CodeChange) (rest : list CodeChange) (msg : string) :
  code_changes proposal = change :: rest ->
  os_error fs change = Some msg ->
  let r := implement_proposal os_error ast_parse self proposal fs false in
  r.1.1 = {| success := false;
             changes_applied := [];
             errors := ["Failed to apply change '" +:+ description change +:+ "': " +:+ msg];
             backup_path := Some fs;
             verification := None |}
  /\ r.2 = fs
  /\ applied r.1.2 = applied self.
Proof.
  intros Hchanges Hos. cbv zeta.
  assert (Hraise : _apply_code_change os_error fs change false = (fs, Raised msg)).
  { unfold _apply_code_change. by rewrite Hos. }
  unfold implement_proposal. rewrite Hchanges.
  cbn [negb apply_each ls_tree]. rewrite Hraise.
  cbn [negb andb backup_dir]. rewrite bool_decide_eq_true_2 by eauto.
  cbn [ls_returned ls_tree ls_applied ls_errors ls_self_applied fst snd applied
       backup_dir app].
  unfold _rollback_changes, _create_backup. cbn [backup_dir applied]. done.
Qed.

(** X26: a change that [_apply_code_change] applies in a real run is
    accepted by a dry run on the same working copy. *)
Theorem dry_run_accepts_what_a_real_run_applies (fs fs' : tree) (change : CodeChange) :
  _apply_code_change os_error fs change false = (fs', Returned true) ->
  _apply_code_change os_error fs change true = (fs, Returned true).
Proof.
  rewrite dry_run_verdict. unfold _apply_code_change, refused_in_dry_run.
  destruct (os_error fs change); [done|].
  destruct (String.eqb_spec (change_type change) "add") as [->|Hadd]; [done|].
  destruct (String.eqb_spec (change_type change) "modify") as [Hm|Hm].
  - unfold _apply_modify_change. destruct (fs !! file_path change) eqn:E; [|done].
    intros _. by rewrite bool_decide_eq_true_2 by eauto.
  - destruct (String.eqb_spec (change_type change) "delete") as [Hd|Hd]; [|done].
    unfold _apply_delete_change. destruct (fs !! file_path change) eqn:E; [|done].
    intros _. by rewrite bool_decide_eq_true_2 by eauto.
Qed.
End Apply.

Lemma success_leaves_parsable_python_witness :
  errors (implement_proposal no_os_error strict_parse fresh_manager
            (proposal_of [change_add]) tree0 false).1.1 = []
  /\ exists v,
       verification (implement_proposal no_os_error strict_parse fresh_manager
                       (proposal_of [change_add]) tree0 false).1.1 = Some v
       /\ valid v = true.
Proof.
  destruct (success_leaves_parsable_python no_os_error strict_parse fresh_manager
              (proposal_of [change_add]) tree0) as (_ & He & _ & Hv).
  - by vm_compute.
  - split; [exact He|exact Hv].
Defined.

Lemma failure_restores_and_reports_witness :
  (implement_proposal no_os_error strict_parse fresh_manager
     (proposal_of [change_add; change_broken]) tree0 false).2 = tree0.
Proof.
  apply (failure_restores_and_reports no_os_error strict_parse fresh_manager
           (proposal_of [change_add; change_broken]) tree0).
  by vm_compute.
Defined.

Lemma raising_change_aborts_witness :
  (implement_proposal read_only parse_ok fresh_manager
     (proposal_of [change_add; change_missing]) tree0 false).2 = tree0.
Proof.
  apply (raising_change_aborts read_only parse_ok fresh_manager
           (proposal_of [change_add; change_missing]) tree0 change_add [change_missing]
           "Permission denied"); reflexivity.
Defined.

Lemma dry_run_accepts_what_a_real_run_applies_witness :
  _apply_code_change no_os_error tree0 change_add true = (tree0, Returned true).
Proof.
  apply (dry_run_accepts_what_a_real_run_applies no_os_error tree0
           (<["agent/tools.py" := "import os"]> tree0) change_add).
  reflexivity.
Defined.

End ApplyFacts.

(** ** [implementation.py]: the text of an added import *)

Module LineFacts.
Import Py PyFacts PyMaxFacts Implementation Scenarios Population Changes.

Lemma split_lines_nonempty (s : string) : split_lines s <> [].
Proof.
  destruct s as [|c s]; cbn [split_lines]; [done|].
  destruct (Ascii.eqb c LF); [done|]. by destruct (split_lines s).
Qed.

Lemma join_lines_cons (c : Ascii.ascii) (l : string) (ls : list string) :
  join_lines (String c l :: ls) = String c (join_lines (l :: ls)).
Proof. by destruct ls. Qed.

(** ['\n'.join(s.split('\n')) == s] *)
Lemma join_split (s : string) : join_lines (split_lines s) = s.
Proof.
  induction s as [|c s IH]; [done|]. cbn [split_lines].
  destruct (Ascii.eqb_spec c LF) as [->|Hc].
  - pose proof (split_lines_nonempty s) as Hne.
    destruct (split_lines s) as [|l ls]; [done|].
    cbn [join_lines]. cbn [join_lines] in IH. by rewrite IH.
  - pose proof (split_lines_nonempty s) as Hne.
    destruct (split_lines s) as [|l ls]; [done|].
    rewrite join_lines_cons. by rewrite IH.
Qed.

Lemma split_one_line (l : string) : one_line l = true -> split_lines l = [l].
Proof.
  induction l as [|c l IH]; [done|]. cbn [one_line split_lines].
  intros [Hc Hl]%andb_true_iff. apply negb_true_iff in Hc. rewrite Hc.
  by rewrite (IH Hl).
Qed.

Lemma split_line_then (l rest : string) :
  one_line l = true ->
  split_lines (l +:+ String LF rest) = l :: split_lines rest.
Proof.
  induction l as [|c l IH]; cbn [one_line].
  - intros _. change ("" +:+ String LF rest) with (String LF rest).
    cbn [split_lines]. by rewrite Ascii.eqb_refl.
  - intros [Hc Hl]%andb_true_iff. apply negb_true_iff in Hc.
    change (String c l +:+ String LF rest) with (String c (l +:+ String LF rest)).
    cbn [split_lines]. rewrite Hc. by rewrite (IH Hl).
Qed.

(** [('\n'.join(lines)).split('\n') == lines] for lines without line
    feed. *)
Lemma split_join (lines : list string) :
  lines <> [] -> Forall (fun l => one_line l = true) lines ->
  split_lines (join_lines lines) = lines.
Proof.
  induction lines as [|l ls IH]; [done|]. intros _ Hall.
  apply Forall_cons in Hall as [Hl Hls].
  destruct ls as [|l' ls].
  - cbn [join_lines]. by apply split_one_line.
  - change (join_lines (l :: l' :: ls)) with (l +:+ String LF (join_lines (l' :: ls))).
    rewrite split_line_then by done. by rewrite IH.
Qed.

Lemma split_lines_one_line (s : string) :
  Forall (fun l => one_line l = true) (split_lines s).
Proof.
  induction s as [|c s IH]; cbn [split_lines].
  - by repeat constructor.
  - destruct (Ascii.eqb c LF) eqn:Hc.
    + by constructor.
    + destruct (split_lines s) as [|l ls].
      * repeat constructor. cbn [one_line]. by rewrite Hc.
      * apply Forall_cons in IH as [Hl Hls]. constructor; [|done].
        cbn [one_line]. by rewrite Hc, Hl.
Qed.

Lemma find_import_line_spec (lines : list string) (k : nat) :
  match find_import_line k lines with
  | Some j =>
      exists i line,
        j = (k + i)%nat
        /\ Forall (fun l => is_code_line l = false) (take i lines)
        /\ lines !! i = Some line
        /\ is_code_line line = true
  | None => Forall (fun l => is_code_line l = false) lines
  end.
Proof.
  revert k. induction lines as [|line rest IH]; intros k; cbn [find_import_line].
  - constructor.
  - fold (is_code_line line). destruct (is_code_line line) eqn:E.
    + exists 0%nat, line. split; [lia|]. split; [constructor|done].
    + specialize (IH (S k)). destruct (find_import_line (S k) rest) as [j|].
      * destruct IH as (i & l & -> & Hbefore & Hat & Hcode).
        exists (S i), l. split; [lia|]. split; [by constructor|done].
      * by constructor.
Qed.

(** X27: an add change with location imports and a one-line new_code, on an
    existing file, both of them 7-bit ASCII text without carriage return,
    inserts new_code as one new line in front of the first line that has
    text and starts neither with # nor with three double quotes, and keeps
    every other line; when the file has no such line the change returns
    False and the file is kept. *)
Theorem import_is_inserted_as_one_line (fs : tree) (change : CodeChange)
    (content code : string) :
  fs !! file_path change = Some content ->
  plain_text content = true ->
  location change = Some "imports" ->
  new_code change = Some code ->
  code <> "" ->
  plain_text code = true ->
  one_line code = true ->
  match find_import_line 0 (split_lines content) with
  | Some i =>
      exists content' line,
        _apply_add_change fs change = (<[file_path change := content']> fs, true)
        /\ split_lines content'
           = take i (split_lines content) ++ code :: drop i (split_lines content)
        /\ Forall (fun l => is_code_line l = false) (take i (split_lines content))
        /\ split_lines content !! i = Some line
        /\ is_code_line line = true
  | None =>
      _apply_add_change fs change = (fs, false)
      /\ Forall (fun l => is_code_line l = false) (split_lines content)
  end.
Proof.
  intros Hfile _ Hloc Hcode Hne _ Hone. unfold _apply_add_change.
  rewrite Hfile, Hloc, Hcode. cbn [is_loc]. rewrite String.eqb_refl.
  assert (Ht : truthy (Some code) = true) by (by destruct code).
  rewrite Ht. cbn [andb fmt].
  pose proof (find_import_line_spec (split_lines content) 0) as Hspec.
  destruct (find_import_line 0 (split_lines content)) as [j|].
  - destruct Hspec as (i & line & -> & Hbefore & Hat & Hline). cbn [plus].
    eexists _, line. split; [reflexivity|]. split; [|done].
    unfold list_insert_at. apply split_join.
    + by destruct (take i (split_lines content)).
    + apply Forall_app. split.
      * apply Forall_take, split_lines_one_line.
      * constructor; [done|]. apply Forall_drop, split_lines_one_line.
  - done.
Qed.

Lemma import_is_inserted_as_one_line_witness :
  exists content' line,
    _apply_add_change commented_tree change_import
    = (<["agent/agent.py" := content']> commented_tree, true)
    /\ split_lines content'
       = ["# agent"; "from tools import ToolRegistry, BashTool, EditTool"; "x = 1"]
    /\ line = "x = 1".
Proof.
  pose proof (import_is_inserted_as_one_line commented_tree change_import
                ("# agent" +:+ String LF "x = 1")
                "from tools import ToolRegistry, BashTool, EditTool"
                eq_refl eq_refl eq_refl eq_refl) as H.
  destruct H as (content' & line & Happly & Hlines & _ & Hat & _);
    [discriminate|reflexivity|reflexivity|].
  exists content', line. split; [exact Happly|]. split; [exact Hlines|].
  by injection Hat as <-.
Defined.

(** an add change creates a missing file with its new_code; a delete change
    without old_code on that file restores the working copy. *)
Theorem created_file_is_removed_again (fs : tree) (add del : CodeChange) (code : string) :
  fs !! file_path add = None ->
  new_code add = Some code ->
  code <> "" ->
  file_path del = file_path add ->
  truthy (old_code del) = false ->
  _apply_add_change fs add = (<[file_path add := code]> fs, true)
  /\ _apply_delete_change (<[file_path add := code]> fs) del = (fs, true).
Proof.
  intros Hfile Hcode Hne Hpath Hold. split.
  - unfold _apply_add_change. rewrite Hfile, Hcode. by destruct code.
  - unfold _apply_delete_change. rewrite Hpath, lookup_insert_eq.
    destruct (old_code del) as [[|c s]|]; try done.
    + by rewrite delete_insert_id.
    + by rewrite delete_insert_id.
Qed.

Lemma created_file_is_removed_again_witness :
  _apply_add_change tree0 change_add = (<["agent/tools.py" := "import os"]> tree0, true)
  /\ _apply_delete_change (<["agent/tools.py" := "import os"]> tree0) change_remove
     = (tree0, true).
Proof.
  apply (created_file_is_removed_again tree0 change_add change_remove "import os");
    try reflexivity.
  discriminate.
Defined.

End LineFacts.

(** ** [modification_proposal.py]: priorities and changes *)

Module ProposerFacts.
Import Py PyFacts PyMaxFacts Implementation ImplementationFacts Scenarios Population.
Import PerformanceSuggestions SuggestionFacts ModificationProposer.

Lemma see_fold (l : list string) (seen : gset string) (uniq : list string) :
  (foldl see (seen, uniq) l).2 = uniq ++ first_occurrences seen l.
Proof.
  revert seen uniq. induction l as [|x l IH]; intros seen uniq; cbn [foldl first_occurrences].
  - by rewrite app_nil_r.
  - unfold see at 2. cbn [fst snd]. destruct (bool_decide (x ∈ seen)).
    + apply IH.
    + rewrite IH. by rewrite <- app_assoc.
Qed.

Lemma unique_first_occurrences (l : list string) : unique l = first_occurrences ∅ l.
Proof. unfold unique. by rewrite see_fold. Qed.

Lemma elem_of_first_occurrences (l : list string) (seen : gset string) (x : string) :
  x ∈ first_occurrences seen l <-> x ∈ l /\ x ∉ seen.
Proof.
  revert seen. induction l as [|y l IH]; intros seen; cbn [first_occurrences].
  - split; [by intros ?%elem_of_nil|by intros [?%elem_of_nil _]].
  - destruct (bool_decide (y ∈ seen)) eqn:E.
    + apply bool_decide_eq_true in E. rewrite IH, elem_of_cons. split.
      * intros [Hx Hs]. split; [by right|done].
      * intros [[->|Hx] Hs]; [done|done].
    + apply bool_decide_eq_false in E. rewrite !elem_of_cons, IH. split.
      * intros [->|[Hx Hs]]; [split; [by left|done]|].
        split; [by right|]. intros Hin. apply Hs. apply elem_of_union. by right.
      * intros [[->|Hx] Hs]; [by left|].
        destruct (decide (x = y)) as [->|Hne]; [by left|]. right. split; [done|].
        intros [Hin%elem_of_singleton|Hin]%elem_of_union; done.
Qed.

Lemma NoDup_first_occurrences (l : list string) (seen : gset string) :
  NoDup (first_occurrences seen l).
Proof.
  revert seen. induction l as [|y l IH]; intros seen; cbn [first_occurrences].
  - constructor.
  - destruct (bool_decide (y ∈ seen)); [apply IH|].
    constructor; [|apply IH]. rewrite elem_of_first_occurrences.
    intros [_ Hs]. apply Hs. apply elem_of_union. left. by apply elem_of_singleton.
Qed.

Lemma first_occurrences_prefix (l1 l2 : list string) (seen : gset string) :
  NoDup l1 -> (forall x, x ∈ l1 -> x ∉ seen) ->
  exists l, first_occurrences seen (l1 ++ l2) = l1 ++ l.
Proof.
  revert seen. induction l1 as [|y l1 IH]; intros seen Hnd Hs.
  - by eexists.
  - apply NoDup_cons in Hnd as [Hy Hnd]. cbn [app first_occurrences].
    rewrite bool_decide_eq_false_2 by (apply Hs, elem_of_cons; by left).
    destruct (IH ({[y]} ∪ seen) Hnd) as [l Hl].
    + intros x Hx [Hin%elem_of_singleton|Hin]%elem_of_union.
      * by subst.
      * apply (Hs x); [apply elem_of_cons; by right|done].
    + exists l. by rewrite Hl.
Qed.

Lemma diagnosed_iff (diagnosis : Report) (p : string) :
  p ∈ diagnosed diagnosis
  <-> (p = "tool_integration" /\ (overall_score diagnosis <= 0.5)%Q
       /\ tool_usage_issues diagnosis <> [])
      \/ (p = "error_handling" /\ (overall_score diagnosis <= 0.5)%Q
          /\ error_handling_issues diagnosis <> [])
      \/ (p = "performance_optimization" /\ timeout_patterns diagnosis <> [])
      \/ (p = "code_structure" /\ code_structure_issues diagnosis <> []).
Proof.
  unfold diagnosed. rewrite <- !nonempty_iff, <- Qle_bool_iff.
  destruct (Qle_bool (overall_score diagnosis) 0.5),
    (nonempty (tool_usage_issues diagnosis)),
    (nonempty (error_handling_issues diagnosis)),
    (nonempty (timeout_patterns diagnosis)),
    (nonempty (code_structure_issues diagnosis));
    cbn [app]; rewrite ?elem_of_cons, ?elem_of_nil; intuition congruence.
Qed.

(** X28: [_prioritize_improvements] returns at most four improvement types
    without duplicates, each a target or called for by the diagnosis;
    distinct targets, up to four of them, come first and in their order; the
    diagnosis calls for tool_integration and error_handling only at a score
    of at most 0.5. *)
Theorem priorities_are_distinct_and_at_most_four (diagnosis : Report)
    (target_improvements : option (list string)) :
  let targets := match target_improvements with Some t => t | None => [] end in
  let priorities := _prioritize_improvements diagnosis target_improvements in
  NoDup priorities
  /\ (length priorities <= 4)%nat
  /\ (forall p, p ∈ priorities -> p ∈ targets \/ p ∈ diagnosed diagnosis)
  /\ (NoDup targets -> (length targets <= 4)%nat -> targets `prefix_of` priorities)
  /\ (forall p, p ∈ diagnosed diagnosis
      <-> (p = "tool_integration" /\ (overall_score diagnosis <= 0.5)%Q
           /\ tool_usage_issues diagnosis <> [])
          \/ (p = "error_handling" /\ (overall_score diagnosis <= 0.5)%Q
              /\ error_handling_issues diagnosis <> [])
          \/ (p = "performance_optimization" /\ timeout_patterns diagnosis <> [])
          \/ (p = "code_structure" /\ code_structure_issues diagnosis <> [])).
Proof.
  cbv zeta. unfold _prioritize_improvements.
  set (targets := match target_improvements with Some t => t | None => [] end).
  rewrite unique_first_occurrences. split_and!.
  - eapply sublist_NoDup; [apply NoDup_first_occurrences|apply sublist_take].
  - rewrite length_take. lia.
  - intros p Hp%elem_of_take_full. apply elem_of_first_occurrences in Hp as [Hp _].
    by apply elem_of_app.
  - intros Hnd Hlen.
    destruct (first_occurrences_prefix targets (diagnosed diagnosis) ∅ Hnd) as [l Hl].
    { intros x _. apply not_elem_of_empty. }
    rewrite Hl. rewrite take_app.
    exists (take (4 - length targets) l).
    f_equal. by rewrite take_ge by lia.
  - apply diagnosed_iff.
Qed.

Lemma priorities_are_distinct_and_at_most_four_witness :
  ["code_structure"] `prefix_of` _prioritize_improvements slow_report (Some ["code_structure"]).
Proof.
  destruct (priorities_are_distinct_and_at_most_four slow_report (Some ["code_structure"]))
    as (_ & _ & _ & H & _).
  apply H.
  - apply NoDup_singleton.
  - cbn. lia.
Defined.

Lemma generate_well_shaped (improvement_type : string) (diagnosis : Report)
    (priority : Z) (c : CodeChange) :
  c ∈ _generate_code_changes improvement_type diagnosis priority ->
  well_shaped priority c.
Proof.
  unfold _generate_code_changes, well_shaped.
  destruct (String.eqb improvement_type "tool_integration").
  { intros [->|[->|[]%elem_of_nil]%elem_of_cons]%elem_of_cons; cbn;
      split_and!; try done; left; (split; [done|]); eexists; (split; [done|done]). }
  destruct (String.eqb improvement_type "error_handling").
  { intros ->%list_elem_of_singleton. cbn. split_and!; try done. by right. }
  destruct (String.eqb improvement_type "performance_optimization").
  { intros ->%list_elem_of_singleton. cbn. split_and!; try done. by right. }
  destruct (String.eqb improvement_type "code_structure").
  { intros (issue & -> & _)%list_elem_of_fmap. cbn. split_and!; try done. by right. }
  by intros ?%elem_of_nil.
Qed.

Lemma changes_from_elem (diagnosis : Report) (priorities : list string) (k : Z)
    (c : CodeChange) :
  c ∈ changes_from diagnosis k priorities ->
  exists (i : nat) improvement_type,
    priorities !! i = Some improvement_type
    /\ c ∈ _generate_code_changes improvement_type diagnosis (k + Z.of_nat i).
Proof.
  revert k. induction priorities as [|t rest IH]; intros k; cbn [changes_from].
  - by intros ?%elem_of_nil.
  - intros [Hc|Hc]%elem_of_app.
    + destruct (in_strategies t); [|by apply elem_of_nil in Hc].
      exists 0%nat, t. split; [done|]. by rewrite Z.add_0_r.
    + apply IH in Hc as (i & t' & Hi & Hc). exists (S i), t'. split; [done|].
      by replace (k + Z.of_nat (S i))%Z with (k + 1 + Z.of_nat i)%Z by lia.
Qed.

Lemma generated_well_shaped (diagnosis : Report)
    (target_improvements : option (list string)) (c : CodeChange) :
  c ∈ generated_changes diagnosis target_improvements ->
  exists (i : nat) improvement_type,
    _prioritize_improvements diagnosis target_improvements !! i = Some improvement_type
    /\ (i < 4)%nat
    /\ c ∈ _generate_code_changes improvement_type diagnosis (1 + Z.of_nat i)
    /\ well_shaped (1 + Z.of_nat i) c.
Proof.
  unfold generated_changes. intros (i & t & Hi & Hc)%changes_from_elem.
  apply lookup_take_Some in Hi as [Hi _].
  exists i, t. split; [done|]. split.
  - apply lookup_lt_Some in Hi. unfold _prioritize_improvements in Hi.
    rewrite length_take in Hi. lia.
  - split; [done|]. by eapply generate_well_shaped.
Qed.

(** X29: every code change of a generated proposal is for agent/agent.py,
    has a priority between 1 and 4, no line number and no old_code; it is an
    addition carrying its new code or a modification carrying none, and it
    is an addition exactly when tool_integration stands at the position of
    its priority. *)
Theorem generated_changes_touch_only_the_agent_module (diagnosis : Report)
    (target_improvements : option (list string)) (c : CodeChange) :
  c ∈ generated_changes diagnosis target_improvements ->
  file_path c = "agent/agent.py"
  /\ (1 <= priority c <= 4)%Z
  /\ line_number c = None
  /\ old_code c = None
  /\ ((change_type c = "add" /\ exists code, new_code c = Some code /\ code <> "")
      \/ (change_type c = "modify" /\ new_code c = None))
  /\ (change_type c = "add"
      <-> exists i : nat,
            _prioritize_improvements diagnosis target_improvements !! i
            = Some "tool_integration"
            /\ priority c = (1 + Z.of_nat i)%Z).
Proof.
  intros (i & t & Hi & Hlt & Hc & Hp & Hprio & Hline & Hold & Hshape)%generated_well_shaped.
  split_and!; try done; [lia|lia|].
  split.
  - intros Hadd. exists i. split; [|done].
    unfold _generate_code_changes in Hc.
    destruct (String.eqb_spec t "tool_integration") as [->|_]; [done|].
    exfalso. revert Hc.
    destruct (String.eqb t "error_handling");
      [intros ->%list_elem_of_singleton; cbn in Hadd; discriminate|].
    destruct (String.eqb t "performance_optimization");
      [intros ->%list_elem_of_singleton; cbn in Hadd; discriminate|].
    destruct (String.eqb t "code_structure");
      [intros (issue & -> & _)%list_elem_of_fmap; cbn in Hadd; discriminate|].
    by intros ?%elem_of_nil.
  - intros (j & Hj & Hpj).
    assert (j = i) as -> by lia.
    assert (t = "tool_integration") as -> by congruence.
    revert Hc. unfold _generate_code_changes. rewrite String.eqb_refl.
    by intros [->|[->|[]%elem_of_nil]%elem_of_cons]%elem_of_cons.
Qed.

Lemma generated_changes_touch_only_the_agent_module_witness :
  exists c,
    c ∈ generated_changes slow_report None
    /\ file_path c = "agent/agent.py" /\ (1 <= priority c <= 4)%Z.
Proof.
  eexists. split; [apply elem_of_cons; left; reflexivity|].
  match goal with
  | |- file_path ?c = _ /\ _ =>
      destruct (generated_changes_touch_only_the_agent_module slow_report None c)
        as (H1 & H2 & _)
  end.
  - apply elem_of_cons. by left.
  - split; [exact H1|exact H2].
Defined.

Section Apply.
Variable os_error : tree -> CodeChange -> option string.
Variable ast_parse : string -> parsed.

Lemma modify_without_code_is_refused (fs : tree) (c : CodeChange) :
  change_type c = "modify" -> old_code c = None -> os_error fs c = None ->
  _apply_code_change os_error fs c false = (fs, Returned false).
Proof.
  intros Hty Hold Hos. unfold _apply_code_change. rewrite Hos, Hty. cbn [String.eqb].
  change (String.eqb "modify" "add") with false.
  change (String.eqb "modify" "modify") with true. cbn iota.
  unfold _apply_modify_change. rewrite Hold.
  by destruct (fs !! file_path c).
Qed.

Lemma apply_each_refused (self : Manager) (changes : list CodeChange) (st : loop_state) :
  ls_returned st = false ->
  (forall c, c ∈ changes ->
     _apply_code_change os_error (ls_tree st) c false = (ls_tree st, Returned false)) ->
  apply_each os_error self false changes st = st.
Proof.
  intros Hret. induction changes as [|c rest IH]; intros Hall; [done|].
  cbn [apply_each]. rewrite (Hall c) by (apply elem_of_cons; by left).
  destruct st as [t a e sa r]. cbn in Hret. subst r. cbn [ls_tree ls_applied ls_errors
    ls_self_applied] in *. apply IH. intros c' Hc'. apply Hall. apply elem_of_cons. by right.
Qed.

(** X30: when tool_integration is not among the priorities, a real run of
    [implement_proposal] on the generated proposal applies no change: the
    working copy is as found, nothing is listed as applied, and success is
    the result of verifying the untouched working copy. *)
Theorem proposals_without_tool_integration_change_nothing (self : Manager)
    (proposal : ModificationProposal) (diagnosis : Report)
    (target_improvements : option (list string)) (fs : tree) :
  code_changes proposal = generated_changes diagnosis target_improvements ->
  "tool_integration" ∉ _prioritize_improvements diagnosis target_improvements ->
  (forall c, os_error fs c = None) ->
  let r := implement_proposal os_error ast_parse self proposal fs false in
  r.2 = fs
  /\ changes_applied r.1.1 = []
  /\ applied r.1.2 = applied self
  /\ success r.1.1 = valid (_verify_modifications ast_parse fs).
Proof.
  intros Hchanges Hnotool Hos. cbv zeta. unfold implement_proposal. cbn [negb].
  set (self1 := {| backup_dir := Some (_create_backup fs); applied := applied self |}).
  set (st0 := {| ls_tree := fs; ls_applied := []; ls_errors := [];
                 ls_self_applied := applied self1; ls_returned := false |}).
  rewrite (apply_each_refused self1 (code_changes proposal) st0 eq_refl).
  - cbn [ls_returned ls_tree ls_applied ls_self_applied st0].
    destruct (valid (_verify_modifications ast_parse fs)); cbn; done.
  - intros c Hc. cbn [ls_tree st0]. rewrite Hchanges in Hc.
    apply generated_well_shaped in Hc as (i & t & Hi & _ & Hc & Hshape).
    destruct Hshape as (_ & _ & _ & Hold & [[Hadd _]|[Hmod _]]).
    + exfalso. apply Hnotool. apply (list_elem_of_lookup_2 _ i).
      rewrite Hi. f_equal. revert Hc. unfold _generate_code_changes.
      destruct (String.eqb_spec t "tool_integration") as [->|_]; [done|].
      destruct (String.eqb t "error_handling");
        [intros ->%list_elem_of_singleton; cbn in Hadd; discriminate|].
      destruct (String.eqb t "performance_optimization");
        [intros ->%list_elem_of_singleton; cbn in Hadd; discriminate|].
      destruct (String.eqb t "code_structure");
        [intros (issue & -> & _)%list_elem_of_fmap; cbn in Hadd; discriminate|].
      by intros ?%elem_of_nil.
    + by apply modify_without_code_is_refused.
Qed.
End Apply.

Lemma proposals_without_tool_integration_change_nothing_witness :
  (implement_proposal no_os_error parse_ok fresh_manager
     (proposal_of (generated_changes slow_report None)) tree0 false).2 = tree0.
Proof.
  apply (proposals_without_tool_integration_change_nothing no_os_error parse_ok
           fresh_manager (proposal_of (generated_changes slow_report None))
           slow_report None tree0).
  - reflexivity.
  - apply (bool_decide_unpack _). by vm_compute.
  - reflexivity.
Defined.

End ProposerFacts.
